(** * henge: artifact packaging core

    A shallow embedding of the pure parts of
      - [src/core/artifact.ts]      (class [Artifact]),
      - [src/core/configuration.ts] (namespace [Configuration]),
      - the template renderer [render],
    together with the properties the specification states about them.

    JavaScript strings are modelled as [string]; arrays as [list];
    [Set<string>] as [gset string]; dictionaries as [gmap string]; a thrown
    [ExpectedError] as the [Throw] case of a result type.  [generate] talks
    to plugins, the file system and the archiver: it is modelled by the trace
    of these calls, in order.  The code of these collaborators is not part of
    the sources: their calls are taken to return, and the failures followed
    are those the sources raise themselves (a mapping that does not
    normalize, a dependency that is not found, a walk that throws).  Node's
    [path] module is modelled in its POSIX flavour ([Path.sep = "/"]), which
    is the one the specification's examples are written in. *)

From Stdlib Require Import Ascii String List Arith ZArith Lia Bool DecimalString.
From stdpp Require Import base decidable option list strings gmap.

Local Open Scope string_scope.
Local Open Scope list_scope.
Local Open Scope stdpp_scope.

(** ** JavaScript string and array primitives *)

Module JS.

(** [s.startsWith(p)] *)
Definition startsWith (s p : string) : bool := String.prefix p s.

(** [s.endsWith(p)]: some suffix of [s] is [p]. *)
Fixpoint endsWith (s p : string) : bool :=
  if String.eqb s p then true
  else match s with
       | EmptyString => false
       | String _ r => endsWith r p
       end.

(** [s.substr(1)] *)
Definition substr1 (s : string) : string :=
  match s with
  | EmptyString => EmptyString
  | String _ r => r
  end.

(** [s.split(sep)] for a non-empty separator: scan left to right; at a
    position where [sep] starts, close the current piece and jump over the
    separator ([skip] counts the characters of it still to be jumped). *)
Fixpoint split_go (sep : string) (skip : nat) (cur : string) (s : string)
  : list string :=
  match s with
  | EmptyString => [cur]
  | String c r =>
      match skip with
      | S k => split_go sep k cur r
      | O =>
          if String.prefix sep s
          then cur :: split_go sep (String.length sep - 1) EmptyString r
          else split_go sep 0 (cur +:+ String c EmptyString) r
      end
  end.

Definition split (sep s : string) : list string := split_go sep 0 EmptyString s.

(** [parts.join(sep)] *)
Fixpoint join (sep : string) (parts : list string) : string :=
  match parts with
  | [] => EmptyString
  | [p] => p
  | p :: rest => p +:+ sep +:+ join sep rest
  end.

(** [arr.splice(i, 0, x...)]: insert the items [xs] before index [i]. *)
Definition splice {A} (i : nat) (xs : list A) (arr : list A) : list A :=
  take i arr ++ xs ++ drop i arr.

(** [arr.pop()]: the last element and the shortened array, or [None]
    ([undefined]) on the empty array. *)
Definition pop {A} (arr : list A) : option (A * list A) :=
  match rev arr with
  | [] => None
  | x :: r => Some (x, rev r)
  end.

(** Truthiness of a string: the empty string is falsy. *)
Definition truthy (s : string) : bool := negb (String.eqb s EmptyString).

End JS.

(** ** Node's [path] module, POSIX flavour *)

Module Path.

Definition sep : string := "/".

(** One step of [normalizeString] at a segment boundary: [res] is the
    stack of segments kept so far (last segment first). *)
Definition normalizeStep (allowAboveRoot : bool) (res : list string) (seg : string)
  : list string :=
  if String.eqb seg "" then res
  else if String.eqb seg "." then res
  else if String.eqb seg ".." then
    match res with
    | last :: res' =>
        if String.eqb last ".." then ".." :: res else res'
    | [] => if allowAboveRoot then [".."] else []
    end
  else seg :: res.

(** [normalizeString(path, allowAboveRoot, "/", isPosixPathSeparator)]:
    drop empty and [.] segments, resolve [..] against the previous
    segment. *)
Definition normalizeString (path : string) (allowAboveRoot : bool) : string :=
  JS.join "/" (rev (fold_left (normalizeStep allowAboveRoot) (JS.split "/" path) [])).

(** [path.posix.normalize] *)
Definition normalize (path : string) : string :=
  if String.eqb path "" then "."
  else
    let isAbsolute := JS.startsWith path "/" in
    let trailingSeparator := JS.endsWith path "/" in
    let path' := normalizeString path (negb isAbsolute) in
    if String.eqb path' "" then
      if isAbsolute then "/"
      else if trailingSeparator then "./" else "."
    else
      let path'' := if trailingSeparator then path' +:+ "/" else path' in
      if isAbsolute then "/" +:+ path'' else path''.

(** [path.posix.join(...args)] *)
Definition join (args : list string) : string :=
  match filter (fun a => a ≠ "") args with
  | [] => "."
  | parts => normalize (JS.join "/" parts)
  end.

(** [path.posix.basename(path)]: the last non-empty segment, or the empty
    string when there is none. *)
Definition basename (path : string) : string :=
  match filter (fun s => s ≠ "") (rev (JS.split "/" path)) with
  | [] => ""
  | b :: _ => b
  end.

(** The loop of [path.posix.resolve]: [paths] are the arguments from the
    last to the first, followed by the working directory; empty entries are
    skipped, and the loop stops at the first absolute one. *)
Fixpoint resolveLoop (paths : list string) (resolvedPath : string) : string * bool :=
  match paths with
  | [] => (resolvedPath, false)
  | path :: rest =>
      if String.eqb path "" then resolveLoop rest resolvedPath
      else
        let resolvedPath' := path +:+ "/" +:+ resolvedPath in
        if JS.startsWith path "/" then (resolvedPath', true)
        else resolveLoop rest resolvedPath'
  end.

(** [path.posix.resolve(...args)]; [cwd] is [process.cwd()]. *)
Definition resolve (cwd : string) (args : list string) : string :=
  let '(resolvedPath, resolvedAbsolute) := resolveLoop (rev args ++ [cwd]) "" in
  let resolvedPath' := normalizeString resolvedPath (negb resolvedAbsolute) in
  if resolvedAbsolute then "/" +:+ resolvedPath'
  else if String.eqb resolvedPath' "" then "." else resolvedPath'.

End Path.

(** ** The template renderer ([render]) *)

(** The values a data dictionary holds: plain data.  An object is a record
    of own data properties with string keys whose prototype is the built-in
    [Object.prototype]; a number is an integer; a string is a sequence of code
    units below 256.  Functions, arrays, symbols and objects of other classes
    are not values of the model. *)
#[warnings="-register-all"]
Inductive Value :=
| VUndefined
| VNull
| VBool (b : bool)
| VNum (z : Z)
| VStr (s : string)
| VObj (fields : gmap string Value).

Module Template.

(** A call returns, throws a [TypeError] (property access on [null] or
    [undefined], conversion of an object that has no callable [toString]), or
    leaves plain data: it reaches a member of a built-in prototype, or prints
    a number that is not a safe integer.  In the last case the call still ends
    without touching the data, by returning or by throwing a [TypeError]; the
    model does not say which, nor what is returned. *)
Inductive completion (A : Type) :=
| Return (a : A)
| TypeError
| Unknown.
Arguments Return {A} a.
Arguments TypeError {A}.
Arguments Unknown {A}.

(** The property names of the built-in [Object.prototype]. *)
Definition objectPrototypeKeys : list string :=
  ["constructor"; "__defineGetter__"; "__defineSetter__"; "hasOwnProperty";
   "__lookupGetter__"; "__lookupSetter__"; "isPrototypeOf"; "propertyIsEnumerable";
   "toString"; "valueOf"; "__proto__"; "toLocaleString"].

Definition inherited (key : string) : bool :=
  existsb (String.eqb key) objectPrototypeKeys.

(** The decimal form of a natural number, as an array index is written. *)
Definition indexKey (i : nat) : string :=
  DecimalString.NilZero.string_of_uint (Nat.to_uint i).

(** The own properties of a string value: [length] and the indices below
    it, each a string of one code unit. *)
Definition stringProp (s : string) (key : string) : option Value :=
  if String.eqb key "length" then Some (VNum (Z.of_nat (String.length s)))
  else
    match List.find (fun i => String.eqb key (indexKey i)) (seq 0 (String.length s)) with
    | Some i => option_map (fun c => VStr (String c EmptyString)) (String.get i s)
    | None => None
    end.

(** [node[key]].  An object answers with its own property, with
    [undefined] when it has none and [Object.prototype] has none either, and
    with a built-in member otherwise.  A string answers with its own
    properties; which other keys a string, a number or a boolean answers
    depends on the edition of the language, and is left open. *)
Definition getProp (node : Value) (key : string) : completion Value :=
  match node with
  | VUndefined | VNull => TypeError
  | VObj fields =>
      match fields !! key with
      | Some v => Return v
      | None => if inherited key then Unknown else Return VUndefined
      end
  | VStr s =>
      match stringProp s key with
      | Some v => Return v
      | None => Unknown
      end
  | VBool _ | VNum _ => Unknown
  end.

(** [Number.MAX_SAFE_INTEGER] *)
Definition maxSafeInteger : Z := 9007199254740991.

(** String conversion of the value handed back to [replace].  A safe
    integer prints in plain decimal.  An object is converted by its
    [toString] method: the inherited one prints ["[object Object]"]; an own
    property of that name is plain data, hence not callable, and neither the
    object's [valueOf] nor the inherited one yields a primitive, so the
    conversion throws. *)
Definition toString (v : Value) : completion string :=
  match v with
  | VUndefined => Return "undefined"
  | VNull => Return "null"
  | VBool true => Return "true"
  | VBool false => Return "false"
  | VNum z =>
      if (Z.abs z <=? maxSafeInteger)%Z
      then Return (DecimalString.NilZero.string_of_int (Z.to_int z))
      else Unknown
  | VStr s => Return s
  | VObj fields =>
      match fields !! "toString" with
      | Some _ => TypeError
      | None => Return "[object Object]"
      end
  end.

(** The body of the [for (let key of keys)] loop: [None] stands for the
    early [return text]. *)
Fixpoint walk (node : Value) (keys : list string) : completion (option Value) :=
  match keys with
  | [] => Return (Some node)
  | key :: rest =>
      match getProp node key with
      | TypeError => TypeError
      | Unknown => Unknown
      | Return VUndefined => Return None
      | Return node' => walk node' rest
      end
  end.

(** The replacer callback [(text, expression) => ...]. *)
Definition replacer (data : Value) (text expression : string) : completion string :=
  let keys := JS.split "." expression in
  match walk data keys with
  | TypeError => TypeError
  | Unknown => Unknown
  | Return None => Return text
  | Return (Some node) => toString node
  end.

(** The character class [[$\w.-]]. *)
Definition isExprChar (c : ascii) : bool :=
  let n := nat_of_ascii c in
  (((65 <=? n) && (n <=? 90)) || ((97 <=? n) && (n <=? 122))
   || ((48 <=? n) && (n <=? 57))
   || (n =? 95) || (n =? 36) || (n =? 46) || (n =? 45))%nat.

(** The longest run of expression characters at the head of [s], and what
    follows it. *)
Fixpoint takeExpr (s : string) : string * string :=
  match s with
  | EmptyString => (EmptyString, EmptyString)
  | String c r =>
      if isExprChar c
      then let '(e, rest) := takeExpr r in (String c e, rest)
      else (EmptyString, s)
  end.

(** A match of [/\{([$\w.-]+)\}/] starting exactly at the head of [s]: the
    class excludes both braces, so the greedy run is the only candidate. *)
Definition matchAt (s : string) : option string :=
  match s with
  | String "{" r =>
      match takeExpr r with
      | (String c e, String "}" _) => Some (String c e)
      | _ => None
      end
  | _ => None
  end.

(** What the global regular expression cuts a template into: characters
    copied as they are, and matches. *)
Inductive Piece :=
| Literal (c : ascii)
| Placeholder (expression : string).

(** The text of a piece in the template. *)
Definition pieceText (p : Piece) : string :=
  match p with
  | Literal c => String c EmptyString
  | Placeholder e => "{" +:+ e +:+ "}"
  end.

(** Left-to-right scan of successive matches; [skip] is the
    number of characters of the current match still to be passed. *)
Fixpoint scan_go (skip : nat) (s : string) : list Piece :=
  match s with
  | EmptyString => []
  | String c r =>
      match skip with
      | S k => scan_go k r
      | O =>
          match matchAt s with
          | Some e => Placeholder e :: scan_go (String.length e + 1) r
          | None => Literal c :: scan_go 0 r
          end
      end
  end.

Definition scan (template : string) : list Piece := scan_go 0 template.

(** What [replace] writes for one piece. *)
Definition substPiece (data : Value) (p : Piece) : completion string :=
  match p with
  | Literal c => Return (String c EmptyString)
  | Placeholder e => replacer data (pieceText p) e
  end.

(** What two stretches of a pass give together.  The calls of the replacer
    run in order and none of them changes the data, so the pass throws when
    one of them throws, whatever the others do; otherwise it returns the
    outputs in order, when all of them are known. *)
Definition andThen (first rest : completion string) : completion string :=
  match first, rest with
  | TypeError, _ | _, TypeError => TypeError
  | Unknown, _ | _, Unknown => Unknown
  | Return out, Return outs => Return (out +:+ outs)
  end.

Fixpoint substPieces (data : Value) (ps : list Piece) : completion string :=
  match ps with
  | [] => Return EmptyString
  | p :: rest => andThen (substPiece data p) (substPieces data rest)
  end.

(** One substitution pass: [template.replace(/\{([$\w.-]+)\}/g, replacer)]. *)
Definition pass (template : string) (data : Value) : completion string :=
  substPieces data (scan template).

(** How a call of [render] ends. *)
Inductive outcome :=
| Done (result : string)
| Raised            (* a [TypeError] escaped *)
| OutOfFuel         (* the recursion is deeper than the fuel given *)
| Undetermined.     (* a pass left plain data *)

(** [render]; the recursion need not terminate, so it is bounded by
    [fuel], the number of passes allowed. *)
Fixpoint render (fuel : nat) (template : string) (data : Value) : outcome :=
  match fuel with
  | O => OutOfFuel
  | S fuel' =>
      match pass template data with
      | TypeError => Raised
      | Unknown => Undetermined
      | Return result =>
          if String.eqb result template then Done result
          else render fuel' result data
      end
  end.

End Template.

(** ** Platforms ([src/core/configuration.ts]) *)

(** [PlatformInfo].  The dictionary of platform variables is the field
    [artifact.ts] reads as [platform.variables]. *)
Module PlatformInfo.
Record t := mk {
  name : string;
  env : option (gmap string string);
  variables : option (gmap string Value)
}.
End PlatformInfo.

Module PlatformSpecifier.
Record t := mk {
  multiplatform : option bool;
  platform : option string;
  platforms : option (list string)
}.
End PlatformSpecifier.

Module Configuration.

Record MatchedPlatformsResult := mkResult {
  platforms : list PlatformInfo.t;
  specified : bool
}.

(** [getMatchedPlatforms]; [process_platform] is Node's
    [process.platform]. *)
Definition getMatchedPlatforms (process_platform : string)
           (specifier : PlatformSpecifier.t) (platforms : list PlatformInfo.t)
  : MatchedPlatformsResult :=
  let platformNames : option (list string) :=
    match PlatformSpecifier.platforms specifier with
    | Some names => Some names            (* an array is truthy, empty or not *)
    | None =>
        match PlatformSpecifier.platform specifier with
        | Some p => if JS.truthy p then Some [p] else None
        | None => None
        end
    end in
  match platformNames with
  | Some names =>
      let platformNameSet : gset string := list_to_set names in
      mkResult (filter (fun platform => PlatformInfo.name platform ∈ platformNameSet) platforms)
               true
  | None =>
      match PlatformSpecifier.multiplatform specifier with
      | Some true => mkResult platforms true
      | _ => mkResult [PlatformInfo.mk process_platform None None] false
      end
  end.

End Configuration.

(** ** File mappings and captures ([src/core/artifact.ts]) *)

(** [Capture] of the file walker: a string for one [*] match, an array of
    strings for one [**] match ([typeof capture === 'string'] tells them
    apart). *)
Inductive Capture :=
| Segment (text : string)
| SegmentRun (segments : list string).

(** [FileMappingDescriptor]; [pattern] is declared mandatory, but
    [normalizeMapping] checks for its absence at run time, so it is optional
    here. *)
Module FileMappingDescriptor.
Record t := mk {
  pattern : option string;
  baseDir : option string;
  package : option string;
  path : option string;
  platform : option string;
  platforms : option (list string)
}.
End FileMappingDescriptor.

(** [FileMappingConfiguration = string | FileMappingDescriptor] *)
Inductive FileMappingConfiguration :=
| MappingString (s : string)
| MappingDescriptor (d : FileMappingDescriptor.t).

Module FileMapping.
Record t := mk {
  package : option string;
  baseDir : option string;
  pattern : string;
  path : string;
  platformSet : option (gset string)
}.
End FileMapping.

(** The [ExpectedError]s thrown while a mapping is normalized. *)
Inductive ExpectedError :=
| PatternRequired      (* Property `pattern` is required for mapping ... *)
| PatternIsDirectory   (* Expecting mapping pattern to match files instead of directories *)
| InvalidPathOption    (* Invalid path option *)
| MissingFiles.        (* Missing `files` field in `artifact` configuration *)

Inductive result (A : Type) :=
| Ok (a : A)
| Throw (e : ExpectedError).
Arguments Ok {A} a.
Arguments Throw {A} e.

(** ** Projects, plugins and artifact metadata

    The classes [Project] and [Plugin] are collaborators of [Artifact]; what
    [Artifact] reads of them is kept as record fields. *)

Module ArtifactMetadataItem.
Record t := mk {
  id : string;
  platform : option string;
  path : string
}.
End ArtifactMetadataItem.

Module ArtifactMetadata.
Record t := mk {
  name : string;
  version : string;
  artifacts : list ArtifactMetadataItem.t;
  extra : gmap string Value          (* [[key: string]: any] *)
}.
End ArtifactMetadata.

(** The metadata object while [generate] runs, together with the local
    array [artifacts] of [generate].  The object's [artifacts] property starts
    out as that very array.  A hook gets the object: it may change the array
    in place, or assign another array to the property, after which what
    [generate] pushes onto the local array is no longer part of the object. *)
Module MetadataObject.

Inductive Artifacts :=
| TheLocalArray
| AnotherArray (items : list ArtifactMetadataItem.t).

Record t := mk {
  name : string;
  version : string;
  artifacts : Artifacts;
  extra : gmap string Value;
  localArray : list ArtifactMetadataItem.t
}.

(** [artifacts.push(item)], for the items of a run. *)
Definition push (metadata : t) (items : list ArtifactMetadataItem.t) : t :=
  mk (name metadata) (version metadata) (artifacts metadata) (extra metadata)
     (localArray metadata ++ items).

(** What [JSON.stringify(metadata)] reads: the array the object's
    [artifacts] property refers to at that time. *)
Definition written (metadata : t) : ArtifactMetadata.t :=
  ArtifactMetadata.mk
    (name metadata) (version metadata)
    match artifacts metadata with
    | TheLocalArray => localArray metadata
    | AnotherArray items => items
    end
    (extra metadata).

End MetadataObject.

(** A plugin's optional hooks.  [processArtifactMetadata] updates the
    metadata object in place; here it returns the updated object.  The hooks,
    like the other collaborators of [generate] ([project.renderTemplate], the
    archiver and the file system), are taken to return: a run in which one of
    them throws is not described. *)
Module Plugin.
Record t := mk {
  processArtifactMetadata : option (MetadataObject.t -> MetadataObject.t);
  getDefaultArtifactId : option (option PlatformInfo.t -> string)
}.
End Plugin.

Module Project.
Record t := mk {
  name : string;
  version : string;
  distDir : string;
  plugins : list Plugin.t;
  platforms : list PlatformInfo.t;
  platformSpecified : bool;
  renderTemplate : string -> Value -> string
}.
End Project.

Module ArtifactConfiguration.
Record t := mk {
  id : option string;
  targetDir : option string;
  baseDir : option string;
  files : option (list FileMappingConfiguration)
}.
End ArtifactConfiguration.

Module Artifact.

(** The local variables of [normalizeMapping] once the configuration entry
    has been read (lines 200-214).  [pattern] and [path] may still be
    [undefined] ([None]) or empty here. *)
Record MappingLocals := mkLocals {
  packageName : option string;
  pattern : option string;
  baseDir : option string;
  path : option string;
  platformSet : option (gset string)
}.

(** [x && Path.normalize(x)] on an optional string: a falsy [x] is
    returned as it is. *)
Definition andNormalize (x : option string) : option string :=
  match x with
  | Some s => if JS.truthy s then Some (Path.normalize s) else Some s
  | None => None
  end.

Definition readMapping (config : FileMappingConfiguration) : MappingLocals :=
  match config with
  | MappingString s =>
      let pattern := Path.normalize s in
      mkLocals None (Some pattern) None (Some pattern) None
  | MappingDescriptor d =>
      let pattern := andNormalize (FileMappingDescriptor.pattern d) in
      let path :=
        match FileMappingDescriptor.path d with
        | Some p => if JS.truthy p then Some (Path.normalize p) else pattern
        | None => pattern
        end in
      let platforms :=
        match FileMappingDescriptor.platforms d with
        | Some ps => Some ps
        | None =>
            match FileMappingDescriptor.platform d with
            | Some p => if JS.truthy p then Some [p] else None
            | None => None
            end
        end in
      mkLocals (FileMappingDescriptor.package d)
               pattern
               (andNormalize (FileMappingDescriptor.baseDir d))
               path
               (match platforms with
                | Some ps => Some (list_to_set ps)
                | None => None
                end)
  end.

(** Lines 216-240: the validations and the directory-target expansion. *)
Definition checkMapping (l : MappingLocals) : result FileMapping.t :=
  match pattern l with
  | None => Throw PatternRequired
  | Some pattern =>
      if negb (JS.truthy pattern) then Throw PatternRequired
      else if JS.endsWith pattern Path.sep then Throw PatternIsDirectory
      else
        let baseName := Path.basename pattern in
        (* [path] is a string here: it is either the normalized
           [config.path] or [pattern]. *)
        let path := default pattern (path l) in
        if JS.endsWith path Path.sep then
          if String.eqb baseName "**" && String.eqb (Path.basename path) "**"
          then Throw InvalidPathOption
          else Ok (FileMapping.mk (packageName l) (baseDir l) pattern
                                  (Path.join [path; baseName]) (platformSet l))
        else Ok (FileMapping.mk (packageName l) (baseDir l) pattern path (platformSet l))
  end.

Definition normalizeMapping (config : FileMappingConfiguration) : result FileMapping.t :=
  checkMapping (readMapping config).

(** The first loop of [buildPath] (lines 259-265), entered with index [i]:
    while [i > 0] and captures are left, pop a capture and splice it in
    before index [i] when it is non-empty. *)
Fixpoint spliceGlobStars (i : nat) (parts : list string)
         (globStarsCaptures : list (list string)) : list string :=
  match i with
  | O => parts
  | S i' =>
      match JS.pop globStarsCaptures with
      | None => parts
      | Some (capture, rest) =>
          let parts' :=
            match capture with
            | [] => parts
            | _ :: _ => JS.splice i [Path.join capture] parts
            end in
          spliceGlobStars i' parts' rest
      end
  end.

(** The second loop (lines 271-273). *)
Fixpoint spliceStars (i : nat) (parts : list string)
         (starCaptures : list string) : list string :=
  match i with
  | O => parts
  | S i' =>
      match JS.pop starCaptures with
      | None => parts
      | Some (capture, rest) => spliceStars i' (JS.splice i [capture] parts) rest
      end
  end.

Definition globStarPhase (parts : list string) (caps : list (list string)) : list string :=
  if (1 <? length parts)%nat then spliceGlobStars (length parts - 1) parts caps else parts.

Definition starPhase (parts : list string) (caps : list string) : list string :=
  if (1 <? length parts)%nat then spliceStars (length parts - 1) parts caps else parts.

Definition starCapturesOf (captures : list Capture) : list string :=
  omap (fun c => match c with Segment s => Some s | SegmentRun _ => None end) captures.

Definition globStarsCapturesOf (captures : list Capture) : list (list string) :=
  omap (fun c => match c with SegmentRun l => Some l | Segment _ => None end) captures.

Definition buildPath (pattern : string) (captures : list Capture) : string :=
  let starCaptures := starCapturesOf captures in
  let globStarsCaptures := globStarsCapturesOf captures in
  let startWithSlash := JS.startsWith pattern Path.sep in
  let parts := JS.split "**" pattern in
  let parts := globStarPhase parts globStarsCaptures in
  let parts := JS.split "*" (JS.join "" parts) in
  let parts := starPhase parts starCaptures in
  let path := Path.normalize (JS.join "" parts) in
  if negb startWithSlash && JS.startsWith path Path.sep
  then JS.substr1 path
  else path.

(** *** The artifact object and [generate] *)

Record t := mk {
  config : ArtifactConfiguration.t;
  project : Project.t;
  mappings : list FileMapping.t
}.

(** [config.files.map(config => this.normalizeMapping(config))]: the first
    entry that fails aborts the construction. *)
Fixpoint normalizeMappings (files : list FileMappingConfiguration)
  : result (list FileMapping.t) :=
  match files with
  | [] => Ok []
  | file :: rest =>
      match normalizeMapping file with
      | Throw e => Throw e
      | Ok mapping =>
          match normalizeMappings rest with
          | Throw e => Throw e
          | Ok mappings => Ok (mapping :: mappings)
          end
      end
  end.

(** The constructor. *)
Definition new (config : ArtifactConfiguration.t) (project : Project.t) : result t :=
  match ArtifactConfiguration.files config with
  | None => Throw MissingFiles
  | Some files =>
      match normalizeMappings files with
      | Throw e => Throw e
      | Ok mappings => Ok (mk config project mappings)
      end
  end.

(** What [generate] does to its collaborators, in order.  Plugins are
    identified by their position in [project.plugins]. *)
Inductive Event :=
| ProcessArtifactMetadata (plugin : nat)
| GetDefaultArtifactId (plugin : nat) (platform : option PlatformInfo.t)
| RenderTemplate (template : string) (data : Value)
| Walk (mappings : list FileMapping.t) (platform : PlatformInfo.t)
| WriteArchive (path : string)
| WriteMetadata (path : string).

(** The recorded [defaultIdPlugin]: its position, and the generator that
    [defaultIdPlugin.getDefaultArtifactId!] reads back from it. *)
Definition DefaultIdPlugin : Type := nat * (option PlatformInfo.t -> string).

(** The loop over [project.plugins] (lines 127-135), from position
    [index] on. *)
Fixpoint pluginLoop (index : nat) (plugins : list Plugin.t)
         (metadata : MetadataObject.t) (defaultIdPlugin : option DefaultIdPlugin)
  : list Event * MetadataObject.t * option DefaultIdPlugin :=
  match plugins with
  | [] => ([], metadata, defaultIdPlugin)
  | plugin :: rest =>
      let '(hookEvents, metadata') :=
        match Plugin.processArtifactMetadata plugin with
        | Some hook => ([ProcessArtifactMetadata index], hook metadata)
        | None => ([], metadata)
        end in
      let defaultIdPlugin' :=
        match Plugin.getDefaultArtifactId plugin with
        | Some generator => Some (index, generator)
        | None => defaultIdPlugin
        end in
      let '(events, metadata'', defaultIdPlugin'') :=
        pluginLoop (S index) rest metadata' defaultIdPlugin' in
      (hookEvents ++ events, metadata'', defaultIdPlugin'')
  end.

(** The filter of lines 158-160. *)
Definition isActiveOn (platform : PlatformInfo.t) (mapping : FileMapping.t) : bool :=
  match FileMapping.platformSet mapping with
  | None => true
  | Some platformSet => bool_decide (PlatformInfo.name platform ∈ platformSet)
  end.

Section Generate.

(** [Path.relative], which resolves against the working directory. *)
Variable relative : string -> string -> string.
(** Whether [this.walk(mappings, platform, archiver)] returns ([true]) or
    throws; it depends on the file system and on the dependency table. *)
Variable walkReturns : list FileMapping.t -> PlatformInfo.t -> bool.

(** Lines 146-150. *)
Definition idTemplateFor (this : t) (defaultIdPlugin : option DefaultIdPlugin)
           (platform : PlatformInfo.t) : list Event * string :=
  let project := project this in
  let explicit :=
    match ArtifactConfiguration.id (config this) with
    | Some id => if JS.truthy id then Some id else None
    | None => None
    end in
  match explicit with
  | Some id => ([], id)
  | None =>
      match defaultIdPlugin with
      | Some (index, getDefaultArtifactId) =>
          let argument :=
            if Project.platformSpecified project then Some platform else None in
          ([GetDefaultArtifactId index argument], getDefaultArtifactId argument)
      | None =>
          ([], if Project.platformSpecified project
               then "{name}-{platform}" else "{name}")
      end
  end.

(** The data object of lines 152-154. *)
Definition idData (this : t) (platform : PlatformInfo.t) : Value :=
  VObj {[ "platform" :=
            if Project.platformSpecified (project this)
            then VStr (PlatformInfo.name platform) else VUndefined ]}.

(** The loop over [project.platforms] (lines 137-182): the events, and
    the items pushed onto the local array [artifacts], or [None] when a walk
    throws. *)
Fixpoint platformLoop (this : t) (defaultIdPlugin : option DefaultIdPlugin)
         (platforms : list PlatformInfo.t)
  : list Event * option (list ArtifactMetadataItem.t) :=
  match platforms with
  | [] => ([], Some [])
  | platform :: rest =>
      let project := project this in
      let '(idEvents, idTemplate) := idTemplateFor this defaultIdPlugin platform in
      let data := idData this platform in
      let id := Project.renderTemplate project idTemplate data in
      let mappings := List.filter (isActiveOn platform) (mappings this) in
      let events := idEvents ++ [RenderTemplate idTemplate data; Walk mappings platform] in
      if walkReturns mappings platform then
        let path := Path.join [Project.distDir project; id +:+ ".zip"] in
        let item :=
          ArtifactMetadataItem.mk
            id
            (if Project.platformSpecified project
             then Some (PlatformInfo.name platform) else None)
            (relative (Project.distDir project) path) in
        let '(events', items) := platformLoop this defaultIdPlugin rest in
        (events ++ [WriteArchive path] ++ events', option_map (cons item) items)
      else (events, None)
  end.

(** [generate]: the events in order, and the metadata written at the
    end, or [None] when a walk throws.  The items of the run are pushed onto
    the local array; what is written is the metadata object, whose
    [artifacts] property the hooks may have pointed elsewhere.  The calls to
    the hooks, to the generator, to [project.renderTemplate] and to the file
    system are taken to return: the one failure followed here is a walk that
    throws. *)
Definition generate (this : t) : list Event * option ArtifactMetadata.t :=
  let project := project this in
  let metadata :=
    MetadataObject.mk (Project.name project) (Project.version project)
                      MetadataObject.TheLocalArray ∅ [] in
  let '(pluginEvents, metadata, defaultIdPlugin) :=
    pluginLoop 0 (Project.plugins project) metadata None in
  let '(events, items) :=
    platformLoop this defaultIdPlugin (Project.platforms project) in
  match items with
  | Some items =>
      let metadataFilePath :=
        Path.join [Project.distDir project; Project.name project +:+ ".json"] in
      (pluginEvents ++ events ++ [WriteMetadata metadataFilePath],
       Some (MetadataObject.written (MetadataObject.push metadata items)))
  | None => (pluginEvents ++ events, None)
  end.

End Generate.

(** *** [resolveBaseDir] and [walk] *)

(** What [walk] reads beyond the fields of [Project.t]: the project's
    directory and dependency table, the working directory of the process, and
    the file walker, given by the matches it reports for a pattern under a
    base directory (path relative to it, captures). *)
Record Surroundings := mkSurroundings {
  cwd : string;
  dir : string;
  dependencyDirMap : gmap string string;
  fileWalker : string -> string -> list (string * list Capture)
}.

(** [resolveBaseDir] returns a directory or throws
    [Dependency package "..." not found]. *)
Inductive BaseDir :=
| Resolved (baseDir : string)
| DependencyNotFound (packageName : string).

(** An optional string that is truthy. *)
Definition whenTruthy (o : option string) : option string :=
  match o with
  | Some s => if JS.truthy s then Some s else None
  | None => None
  end.

Definition resolveBaseDir (env : Surroundings) (this : t)
           (mapping : FileMapping.t) (platform : string) : BaseDir :=
  let project := project this in
  match whenTruthy (FileMapping.package mapping) with
  | Some packageName =>
      let specific :=
        if Project.platformSpecified project
        then whenTruthy (dependencyDirMap env !! (packageName +:+ String (ascii_of_nat 9) platform))
        else None in
      let baseDir :=
        match specific with
        | Some d => Some d
        | None => dependencyDirMap env !! packageName
        end in
      match whenTruthy baseDir with
      | None => DependencyNotFound packageName
      | Some baseDir =>
          match whenTruthy (FileMapping.baseDir mapping) with
          | Some mappingBaseDir => Resolved (Path.resolve (cwd env) [baseDir; mappingBaseDir])
          | None => Resolved baseDir
          end
      end
  | None =>
      let dirs :=
        [dir env]
        ++ match whenTruthy (ArtifactConfiguration.baseDir (config this)) with
           | Some d => [d]
           | None => []
           end
        ++ match whenTruthy (FileMapping.baseDir mapping) with
           | Some d => [d]
           | None => []
           end in
      Resolved (Path.resolve (cwd env) dirs)
  end.

(** A file handed to the archiver: [archiver.file(source, {name})]. *)
Record ArchiveEntry := mkEntry {
  source : string;
  name : string
}.

(** The data object of [walk]:
    [Object.assign({platform: platform.name}, platform.variables)]. *)
Definition walkData (platform : PlatformInfo.t) : Value :=
  VObj (default ∅ (PlatformInfo.variables platform)
        ∪ {[ "platform" := VStr (PlatformInfo.name platform) ]}).

(** [walk]: the files handed to the archiver, in order, and the package
    whose directory was not found when the walk throws for that reason.
    [project.renderTemplate] and the file walker are taken to return: a walk
    that ends because one of them throws is not described. *)
Fixpoint walk (env : Surroundings) (this : t) (mappings : list FileMapping.t)
         (platform : PlatformInfo.t) : list ArchiveEntry * option string :=
  match mappings with
  | [] => ([], None)
  | mapping :: rest =>
      let project := project this in
      let data := walkData platform in
      match resolveBaseDir env this mapping (PlatformInfo.name platform) with
      | DependencyNotFound packageName => ([], Some packageName)
      | Resolved resolved =>
          let baseDir := Project.renderTemplate project resolved data in
          let mappingPattern := Project.renderTemplate project (FileMapping.pattern mapping) data in
          let mappingPath := Project.renderTemplate project (FileMapping.path mapping) data in
          let mappingPath :=
            match whenTruthy (ArtifactConfiguration.targetDir (config this)) with
            | Some targetDir =>
                Path.join [Project.renderTemplate project targetDir VUndefined; mappingPath]
            | None => mappingPath
            end in
          let entries :=
            map (fun '(path, captures) =>
                   mkEntry (Path.join [baseDir; path]) (buildPath mappingPath captures))
                (fileWalker env mappingPattern baseDir) in
          let '(entries', thrown) := walk env this rest platform in
          (entries ++ entries', thrown)
      end
  end.

(** Whether [walk] returns, as far as the dependency table decides it. *)
Definition walkReturns (env : Surroundings) (this : t)
           (mappings : list FileMapping.t) (platform : PlatformInfo.t) : bool :=
  match snd (walk env this mappings platform) with
  | None => true
  | Some _ => false
  end.

End Artifact.

(** ** The rest of [configuration.ts] *)

Module TaskDescriptor.
Record t := mk {
  name : string;
  args : option (list string)
}.
End TaskDescriptor.

Module CommandDescriptor.
Record t := mk {
  name : string;
  args : option (list string)
}.
End CommandDescriptor.

(** [TaskConfiguration = string | TaskDescriptor] *)
Inductive TaskConfiguration :=
| TaskName (name : string)
| TaskDetails (descriptor : TaskDescriptor.t).

(** [CommandConfiguration = string | CommandDescriptor] *)
Inductive CommandConfiguration :=
| CommandName (name : string)
| CommandDetails (descriptor : CommandDescriptor.t).

Module ProcedureConfiguration.
Record t := mk {
  description : option string;
  task : option TaskConfiguration;
  command : option CommandConfiguration;
  multiplatform : option bool;
  platform : option string;
  platforms : option (list string)
}.
End ProcedureConfiguration.

(** [PlatformConfiguration = string | PlatformInfo] *)
Inductive PlatformConfiguration :=
| PlatformName (name : string)
| PlatformDetails (info : PlatformInfo.t).

(** [DependencyConfiguration extends PlatformSpecifier] *)
Module DependencyConfiguration.
Record t := mk {
  name : string;
  specifier : PlatformSpecifier.t
}.
End DependencyConfiguration.

Module ProjectConfiguration.
Record t := mk {
  name : option string;
  version : option string;
  distDir : option string;
  dependencyDir : option string;
  plugins : option (list string);
  platform : option PlatformConfiguration;
  platforms : option (list PlatformConfiguration);
  dependencies : option (list DependencyConfiguration.t);
  procedures : option (list ProcedureConfiguration.t);
  artifact : ArtifactConfiguration.t
}.
End ProjectConfiguration.

(** ** The distribute command: which projects are distributed *)

Module Distribute.

(** The [ExpectedError]s of the command. *)
Inductive CommandError :=
| ProjectNameRequired                    (* Project name is required *)
| DuplicatedProjectName (name : string)  (* Duplicated project name "..." *)
| ProjectDoesNotExist (name : string).   (* Project "..." does not exist *)

Inductive outcome (A : Type) :=
| Selected (a : A)
| Failed (e : CommandError).
Arguments Selected {A} a.
Arguments Failed {A} e.

(** What the configuration file exports: one configuration or an array. *)
Inductive Exported :=
| OneConfig (config : ProjectConfiguration.t)
| ManyConfigs (configs : list ProjectConfiguration.t).

(** [if (!Array.isArray(configs)) configs = [configs]] *)
Definition toArray (exported : Exported) : list ProjectConfiguration.t :=
  match exported with
  | OneConfig config => [config]
  | ManyConfigs configs => configs
  end.

(** The loop that fills [projectConfigMap]. *)
Fixpoint register (configs : list ProjectConfiguration.t)
         (projectConfigMap : gmap string ProjectConfiguration.t)
  : outcome (gmap string ProjectConfiguration.t) :=
  match configs with
  | [] => Selected projectConfigMap
  | config :: rest =>
      match ProjectConfiguration.name config with
      | None => Failed ProjectNameRequired
      | Some name =>
          if negb (JS.truthy name) then Failed ProjectNameRequired
          else
            match projectConfigMap !! name with
            | Some _ => Failed (DuplicatedProjectName name)
            | None => register rest (<[name := config]> projectConfigMap)
            end
      end
  end.

(** [names.map(name => projectConfigMap.get(name) or throw)] *)
Fixpoint pick (projectConfigMap : gmap string ProjectConfiguration.t) (names : list string)
  : outcome (list ProjectConfiguration.t) :=
  match names with
  | [] => Selected []
  | name :: rest =>
      match projectConfigMap !! name with
      | None => Failed (ProjectDoesNotExist name)
      | Some config =>
          match pick projectConfigMap rest with
          | Failed e => Failed e
          | Selected configs => Selected (config :: configs)
          end
      end
  end.

(** The configurations [execute] goes on to load, clean and distribute. *)
Definition selectConfigs (exported : Exported) (names : list string)
  : outcome (list ProjectConfiguration.t) :=
  let configs := toArray exported in
  match register configs ∅ with
  | Failed e => Failed e
  | Selected projectConfigMap =>
      match names with
      | [] => Selected configs
      | _ :: _ => pick projectConfigMap names
      end
  end.

End Distribute.

(** * Vocabulary of the statements

    Definitions the properties below are stated with: what the specification
    claims, in its own words, next to closed forms of what the code does. *)

Section StringVocabulary.

(** [s.slice(n)] *)
Fixpoint sdrop (n : nat) (s : string) : string :=
  match n, s with
  | O, _ => s
  | S k, String _ r => sdrop k r
  | S _, EmptyString => EmptyString
  end.

End StringVocabulary.

Section PathVocabulary.

(** No separator occurs in the string. *)
Fixpoint noSlash (s : string) : bool :=
  match s with
  | EmptyString => true
  | String c r => negb (Ascii.eqb c "/") && noSlash r
  end.

(** A plain path segment: not empty, without separator, neither [.] nor
    [..]. *)
Definition plain (s : string) : Prop :=
  s <> "" /\ noSlash s = true /\ s <> "." /\ s <> "..".

(** The last character of a string. *)
Fixpoint lastChar (s : string) : option ascii :=
  match s with
  | EmptyString => None
  | String c r => match lastChar r with Some d => Some d | None => Some c end
  end.

End PathVocabulary.

Section RenderVocabulary.

Import Template.

(** [k] passes in a row. *)
Fixpoint passes (k : nat) (template : string) (data : Value) : completion string :=
  match k with
  | O => Return template
  | S k' =>
      match pass template data with
      | TypeError => TypeError
      | Unknown => Unknown
      | Return result => passes k' result data
      end
  end.

(** The template text a list of pieces stands for. *)
Definition textOf (ps : list Piece) : string :=
  fold_right (fun p acc => pieceText p +:+ acc) "" ps.

(** The key path of [expression] reaches [undefined]: a proper prefix of
    the keys resolves, and the next key yields [undefined]. *)
Definition reachesUndefined (data : Value) (expression : string) : Prop :=
  exists ks k rest node,
    JS.split "." expression = ks ++ k :: rest /\
    walk data ks = Return (Some node) /\
    getProp node k = Return VUndefined.

(** Every character belongs to the class [[$\w.-]]. *)
Fixpoint allExpr (s : string) : bool :=
  match s with
  | EmptyString => true
  | String c r => isExprChar c && allExpr r
  end.

End RenderVocabulary.

Section PlatformVocabulary.

Import Configuration.

(** [getMatchedPlatforms] as the specification words it: the first rule
    applies when [specifier.platforms] is non-empty. *)
Definition claimedMatchedPlatforms (process_platform : string)
           (specifier : PlatformSpecifier.t) (platforms : list PlatformInfo.t)
  : MatchedPlatformsResult :=
  let byNames (names : list string) :=
    mkResult (filter (fun platform => PlatformInfo.name platform ∈ names) platforms) true in
  match PlatformSpecifier.platforms specifier with
  | Some (name :: names) => byNames (name :: names)
  | _ =>
      match PlatformSpecifier.platform specifier with
      | Some p => byNames [p]
      | None =>
          match PlatformSpecifier.multiplatform specifier with
          | Some true => mkResult platforms true
          | _ => mkResult [PlatformInfo.mk process_platform None None] false
          end
      end
  end.

(** An optional string that is absent or empty. *)
Definition falsy (o : option string) : Prop := o = None \/ o = Some "".

End PlatformVocabulary.

Section MappingVocabulary.

Import Artifact.

(** The [pattern] a configuration entry carries, before normalization. *)
Definition rawPattern (config : FileMappingConfiguration) : option string :=
  match config with
  | MappingString s => Some s
  | MappingDescriptor d => FileMappingDescriptor.pattern d
  end.

(** The descriptor has no usable [pattern]: the field is absent or empty. *)
Definition patternMissing (config : FileMappingConfiguration) : Prop :=
  match config with
  | MappingString _ => False
  | MappingDescriptor d => falsy (FileMappingDescriptor.pattern d)
  end.

(** The normalized pattern ends in a path separator. *)
Definition patternIsDirectory (config : FileMappingConfiguration) : Prop :=
  exists pattern,
    Artifact.pattern (readMapping config) = Some pattern /\
    JS.endsWith pattern Path.sep = true.

(** The destination path ends in a separator, and the final components of
    pattern and path are both the globstar. *)
Definition globstarOntoGlobstar (config : FileMappingConfiguration) : Prop :=
  exists pattern path,
    Artifact.pattern (readMapping config) = Some pattern /\
    Artifact.path (readMapping config) = Some path /\
    JS.endsWith path Path.sep = true /\
    Path.basename pattern = "**" /\ Path.basename path = "**".

(** What the specification lists as the failures of normalization. *)
Definition claimedFailure (config : FileMappingConfiguration) : Prop :=
  patternMissing config \/ patternIsDirectory config.

Definition fails (config : FileMappingConfiguration) : Prop :=
  exists e, normalizeMapping config = Throw e.

End MappingVocabulary.

Section BuildPathVocabulary.

Import Artifact.

(** What a [**] capture contributes to the parts: nothing when it is empty,
    its segments joined by the separator otherwise. *)
Definition globStarText (capture : list string) : list string :=
  match capture with
  | [] => []
  | _ :: _ => [Path.join capture]
  end.

(** What a [*] capture contributes. *)
Definition starText (capture : string) : list string := [capture].

(** Pairing in positional order: each capture goes in front of the part
    that follows its wildcard. *)
Fixpoint weave {C} (text : C -> list string) (captures : list C) (parts : list string)
  : list string :=
  match captures, parts with
  | capture :: captures', part :: parts' => text capture ++ part :: weave text captures' parts'
  | _, _ => []
  end.

(** Both loops of [buildPath] are instances of one loop. *)
Fixpoint spliceLoop {C} (text : C -> list string) (i : nat) (parts : list string)
         (captures : list C) : list string :=
  match i with
  | O => parts
  | S i' =>
      match JS.pop captures with
      | None => parts
      | Some (capture, rest) => spliceLoop text i' (JS.splice i (text capture) parts) rest
      end
  end.

End BuildPathVocabulary.

Section GenerateVocabulary.

Import Artifact.

(** The metadata object [generate] starts from. *)
Definition initialMetadata (this : t) : MetadataObject.t :=
  MetadataObject.mk (Project.name (project this)) (Project.version (project this))
                    MetadataObject.TheLocalArray ∅ [].

(** The [defaultIdPlugin] recorded by the loop over the plugins. *)
Definition recordedPlugin (this : t) : option DefaultIdPlugin :=
  snd (pluginLoop 0 (Project.plugins (project this)) (initialMetadata this) None).

(** The argument handed to a default-id generator for [platform]. *)
Definition generatorArgument (this : t) (platform : PlatformInfo.t) : option PlatformInfo.t :=
  if Project.platformSpecified (project this) then Some platform else None.

(** The mappings walked for [platform]. *)
Definition activeMappings (this : t) (platform : PlatformInfo.t) : list FileMapping.t :=
  List.filter (isActiveOn platform) (mappings this).

(** The archive written for [platform]. *)
Definition archivePath (this : t) (d : option DefaultIdPlugin) (platform : PlatformInfo.t)
  : string :=
  Path.join [Project.distDir (project this);
             Project.renderTemplate (project this)
               (snd (idTemplateFor this d platform)) (idData this platform) +:+ ".zip"].

(** Everything [generate] can do for one platform, in order. *)
Definition platformEvents (this : t) (d : option DefaultIdPlugin) (platform : PlatformInfo.t)
  : list Event :=
  fst (idTemplateFor this d platform)
  ++ [RenderTemplate (snd (idTemplateFor this d platform)) (idData this platform);
      Walk (activeMappings this platform) platform;
      WriteArchive (archivePath this d platform)].

(** The metadata item pushed for [platform]. *)
Definition platformItem (relative : string -> string -> string)
           (this : t) (d : option DefaultIdPlugin) (platform : PlatformInfo.t)
  : ArtifactMetadataItem.t :=
  ArtifactMetadataItem.mk
    (Project.renderTemplate (project this)
       (snd (idTemplateFor this d platform)) (idData this platform))
    (if Project.platformSpecified (project this)
     then Some (PlatformInfo.name platform) else None)
    (relative (Project.distDir (project this)) (archivePath this d platform)).

(** The template priority, in terms of the project's plugin list: an
    explicit non-empty [id]; else the result of the generator of the last
    plugin that has one; else the literal for the project's mode. *)
Definition idTemplateRule (this : t) (platform : PlatformInfo.t) (template : string) : Prop :=
  (forall id,
      ArtifactConfiguration.id (config this) = Some id -> id <> "" -> template = id) /\
  (falsy (ArtifactConfiguration.id (config this)) ->
   forall before plugin after g,
     Project.plugins (project this) = before ++ plugin :: after ->
     Plugin.getDefaultArtifactId plugin = Some g ->
     (forall p, In p after -> Plugin.getDefaultArtifactId p = None) ->
     template = g (generatorArgument this platform)) /\
  (falsy (ArtifactConfiguration.id (config this)) ->
   (forall p, In p (Project.plugins (project this)) -> Plugin.getDefaultArtifactId p = None) ->
   template = if Project.platformSpecified (project this)
              then "{name}-{platform}" else "{name}").

(** The walks of a trace, in order. *)
Definition walksOf (trace : list Event) : list (list FileMapping.t * PlatformInfo.t) :=
  omap (fun e => match e with Walk ms platform => Some (ms, platform) | _ => None end) trace.

(** The data object the id template is rendered against. *)
Definition platformOnly (this : t) (platform : PlatformInfo.t) : Value :=
  VObj {[ "platform" :=
            if Project.platformSpecified (project this)
            then VStr (PlatformInfo.name platform) else VUndefined ]}.

(** The data object the specification describes:
    [{platform: name, ...platform.variables}]. *)
Definition claimedIdData (platform : PlatformInfo.t) : Value :=
  VObj (default ∅ (PlatformInfo.variables platform)
        ∪ {[ "platform" := VStr (PlatformInfo.name platform) ]}).

(** The artifact with another plugin list. *)
Definition withPlugins (this : t) (plugins : list Plugin.t) : t :=
  let project := project this in
  mk (config this)
     (Project.mk (Project.name project) (Project.version project) (Project.distDir project)
                 plugins (Project.platforms project) (Project.platformSpecified project)
                 (Project.renderTemplate project))
     (mappings this).

End GenerateVocabulary.

Section ExampleProject.

Import Artifact.

Definition linux : PlatformInfo.t :=
  PlatformInfo.mk "linux" None (Some {[ "arch" := VStr "x64" ]}).
Definition win32 : PlatformInfo.t := PlatformInfo.mk "win32" None None.

Definition genA : option PlatformInfo.t -> string := fun _ => "a-{name}".
Definition genB : option PlatformInfo.t -> string :=
  fun platform =>
    match platform with
    | Some p => "b-{name}-" +:+ PlatformInfo.name p
    | None => "b-{name}"
    end.

Definition pluginA : Plugin.t := Plugin.mk None (Some genA).
Definition pluginB : Plugin.t := Plugin.mk (Some (fun metadata => metadata)) (Some genB).
Definition pluginC : Plugin.t := Plugin.mk None None.

(** A [renderTemplate] for the example: [render] over the project's name
    and the data given. *)
Definition exampleRender (template : string) (data : Value) : string :=
  let data' :=
    match data with
    | VObj fields => VObj (fields ∪ {[ "name" := VStr "app" ]})
    | _ => VObj {[ "name" := VStr "app" ]}
    end in
  match Template.render 8 template data' with
  | Template.Done result => result
  | _ => template
  end.

Definition exampleProject (specified : bool) (plugins : list Plugin.t) : Project.t :=
  Project.mk "app" "1.0.0" "dist" plugins [linux; win32] specified exampleRender.

Definition exampleFiles : list FileMappingConfiguration :=
  [MappingString "README.md";
   MappingDescriptor
     (FileMappingDescriptor.mk (Some "bin/**") None None (Some "tools/") (Some "linux") None)].

Definition exampleConfig : ArtifactConfiguration.t :=
  ArtifactConfiguration.mk None None None (Some exampleFiles).

Definition readme : FileMapping.t := FileMapping.mk None None "README.md" "README.md" None.
Definition tools : FileMapping.t :=
  FileMapping.mk None None "bin/**" "tools/**" (Some (list_to_set ["linux"])).

Definition exampleArtifact (specified : bool) (plugins : list Plugin.t) : t :=
  mk exampleConfig (exampleProject specified plugins) [readme; tools].

Definition exampleRelative (from to : string) : string := to.
Definition exampleWalk (ms : list FileMapping.t) (platform : PlatformInfo.t) : bool := true.

(** The example project with its platforms as platform resolution leaves
    them for [specifier], on a [linux] host. *)
Definition projectFor (specifier : PlatformSpecifier.t) : Project.t :=
  let matched := Configuration.getMatchedPlatforms "linux" specifier [linux; win32] in
  Project.mk "app" "1.0.0" "dist" []
             (Configuration.platforms matched) (Configuration.specified matched)
             exampleRender.

(** [{platform: "linux"}]: one platform, specified. *)
Definition linuxOnly : t :=
  mk exampleConfig (projectFor (PlatformSpecifier.mk None (Some "linux") None))
     [readme; tools].

(** [{}]: the host platform, not specified. *)
Definition hostOnly : t :=
  mk exampleConfig (projectFor (PlatformSpecifier.mk None None None)) [readme; tools].

(** The literal the specification describes: ["{name}-{platform}"] when
    several platforms are in play, ["{name}"] otherwise. *)
Definition claimedLiteral (this : t) : string :=
  if (1 <? length (Project.platforms (project this)))%nat
  then "{name}-{platform}" else "{name}".

(** A plugin whose hook assigns a new, empty array to [metadata.artifacts]. *)
Definition pluginReplacing : Plugin.t :=
  Plugin.mk
    (Some (fun metadata =>
             MetadataObject.mk (MetadataObject.name metadata)
                               (MetadataObject.version metadata)
                               (MetadataObject.AnotherArray [])
                               (MetadataObject.extra metadata)
                               (MetadataObject.localArray metadata)))
    None.

End ExampleProject.

Section DistributeVocabulary.

(** The configuration carries a usable name. *)
Definition named (config : ProjectConfiguration.t) : Prop :=
  exists name, ProjectConfiguration.name config = Some name /\ name <> "".

(** The names of the configurations that have one, in order. *)
Definition configNames (configs : list ProjectConfiguration.t) : list string :=
  omap ProjectConfiguration.name configs.

(** The command gets as far as loading projects. *)
Definition selects (exported : Distribute.Exported) (names : list string) : Prop :=
  exists configs, Distribute.selectConfigs exported names = Distribute.Selected configs.

(** A configuration that only carries a name. *)
Definition configNamed (name : option string) : ProjectConfiguration.t :=
  ProjectConfiguration.mk name None None None None None None None None
    (ArtifactConfiguration.mk None None None (Some [])).

End DistributeVocabulary.

Section RenderExtraVocabulary.

Import Template.

(** The character [c] does not occur in [s]. *)
Fixpoint lacks (c : ascii) (s : string) : bool :=
  match s with
  | EmptyString => true
  | String x r => negb (Ascii.eqb x c) && lacks c r
  end.

(** The key path of [expression] crosses [null]: a proper prefix of the
    keys resolves to [null], and a key is left to look up in it. *)
Definition crossesNull (data : Value) (expression : string) : Prop :=
  exists ks k rest,
    JS.split "." expression = ks ++ k :: rest /\
    walk data ks = Return (Some VNull).

(** The key path of [expression] resolves to [node]. *)
Definition resolvesTo (data : Value) (expression : string) (node : Value) : Prop :=
  walk data (JS.split "." expression) = Return (Some node).

End RenderExtraVocabulary.

Section GenerateExtraVocabulary.

Import Artifact.

(** The hook calls of a plugin list whose first plugin has position
    [index]: one per plugin that has the hook, in order. *)
Definition hookCallsFrom (index : nat) (plugins : list Plugin.t) : list Event :=
  omap (fun '(i, plugin) =>
          match Plugin.processArtifactMetadata plugin with
          | Some _ => Some (ProcessArtifactMetadata i)
          | None => None
          end)
       (zip (seq index (length plugins)) plugins).

(** The metadata after every hook has run, in plugin order. *)
Definition hookedMetadata (this : t) : MetadataObject.t :=
  fold_left (fun metadata hook => hook metadata)
            (omap Plugin.processArtifactMetadata (Project.plugins (project this)))
            (initialMetadata this).

(** The archives a trace writes, in order. *)
Definition archivesOf (trace : list Event) : list string :=
  omap (fun e => match e with WriteArchive path => Some path | _ => None end) trace.

(** The events of a platform whose walk throws. *)
Definition throwingPlatformEvents (this : t) (d : option DefaultIdPlugin)
           (platform : PlatformInfo.t) : list Event :=
  fst (idTemplateFor this d platform)
  ++ [RenderTemplate (snd (idTemplateFor this d platform)) (idData this platform);
      Walk (activeMappings this platform) platform].

End GenerateExtraVocabulary.

Section WalkVocabulary.

Import Artifact.

(** The key of the platform-specific entry of the dependency table. *)
Definition platformKey (packageName platform : string) : string :=
  packageName +:+ String (ascii_of_nat 9) platform.

(** A walk that throws for [win32] only. *)
Definition throwsOnWin32 (ms : list FileMapping.t) (platform : PlatformInfo.t) : bool :=
  negb (String.eqb (PlatformInfo.name platform) "win32").

(** Surroundings for the example: a dependency table with a generic and a
    [linux] entry for the package [sdk], and a file walker that finds the
    file [README.md] and nothing else. *)
Definition exampleTable : gmap string string :=
  list_to_map [("sdk", "deps/sdk"); (platformKey "sdk" "linux", "deps/sdk-linux")].

Definition exampleEnv : Surroundings :=
  mkSurroundings "/work" "/work/app" exampleTable
    (fun pattern baseDir =>
       if String.eqb pattern "README.md" then [("README.md", [])] else []).

Definition sdk : FileMapping.t := FileMapping.mk (Some "sdk") None "lib/*" "lib/*" None.

(** A mapping of a package the table does not have. *)
Definition gone : FileMapping.t := FileMapping.mk (Some "gone") None "lib/*" "lib/*" None.

End WalkVocabulary.

(** * Properties *)

(** ** Strings *)

Section StringFacts.

Lemma append_cons (c : ascii) (s t : string) : String c s +:+ t = String c (s +:+ t).
Proof. reflexivity. Qed.

Lemma append_nil_l (t : string) : "" +:+ t = t.
Proof. reflexivity. Qed.

Lemma append_nil_r (s : string) : s +:+ "" = s.
Proof. induction s as [|c s IH]; [reflexivity | now rewrite append_cons, IH]. Qed.

Lemma append_assoc (a b c : string) : (a +:+ b) +:+ c = a +:+ b +:+ c.
Proof. induction a as [|x a IH]; [reflexivity | now rewrite !append_cons, IH]. Qed.

Lemma append_length (a b : string) :
  String.length (a +:+ b) = String.length a + String.length b.
Proof. induction a as [|x a IH]; [reflexivity | rewrite append_cons; simpl; now rewrite IH]. Qed.

Lemma sdrop_append (a b : string) : sdrop (String.length a) (a +:+ b) = b.
Proof. induction a as [|x a IH]; [reflexivity | rewrite append_cons; exact IH]. Qed.

Lemma endsWith_append (a p : string) : JS.endsWith (a +:+ p) p = true.
Proof.
  induction a as [|x a IH].
  - rewrite append_nil_l. destruct p as [|c p]; [reflexivity|].
    pose proof (String.eqb_refl (String c p)) as E. simpl in *. now rewrite E.
  - rewrite append_cons.
    change (JS.endsWith (String x (a +:+ p)) p)
      with (if String.eqb (String x (a +:+ p)) p then true else JS.endsWith (a +:+ p) p).
    destruct (String.eqb (String x (a +:+ p)) p); [reflexivity | exact IH].
Qed.

End StringFacts.

(** ** Paths made of plain segments *)

Section PathFacts.

Lemma prefix_slash c r : String.prefix "/" (String c r) = Ascii.eqb c "/".
Proof.
  change (String.prefix "/" (String c r))
    with (if ascii_dec "/" c then String.prefix "" r else false).
  destruct (ascii_dec "/" c) as [<-|H].
  - now destruct r.
  - symmetry. apply Ascii.eqb_neq. congruence.
Qed.

Lemma split_go_noSlash (seg : string) : forall cur rest,
  noSlash seg = true ->
  JS.split_go "/" 0 cur (seg +:+ rest) = JS.split_go "/" 0 (cur +:+ seg) rest.
Proof.
  induction seg as [|c seg IH]; intros cur rest H.
  - now rewrite append_nil_l, append_nil_r.
  - simpl in H. apply andb_true_iff in H. destruct H as [Hc Hs].
    apply negb_true_iff in Hc.
    rewrite append_cons.
    change (JS.split_go "/" 0 cur (String c (seg +:+ rest)))
      with (if String.prefix "/" (String c (seg +:+ rest))
            then cur :: JS.split_go "/" 0 "" (seg +:+ rest)
            else JS.split_go "/" 0 (cur +:+ String c "") (seg +:+ rest)).
    rewrite prefix_slash, Hc, IH by exact Hs.
    now rewrite append_assoc.
Qed.

Lemma split_go_slash cur rest :
  JS.split_go "/" 0 cur (String "/" rest) = cur :: JS.split_go "/" 0 "" rest.
Proof.
  change (JS.split_go "/" 0 cur (String "/" rest))
    with (if String.prefix "/" (String "/" rest)
          then cur :: JS.split_go "/" 0 "" rest
          else JS.split_go "/" 0 (cur +:+ String "/" "") rest).
  now rewrite prefix_slash.
Qed.

Lemma join_cons2 sep p q rest :
  JS.join sep (p :: q :: rest) = p +:+ sep +:+ JS.join sep (q :: rest).
Proof. reflexivity. Qed.

Lemma split_go_join (tl : list string) : forall hd cur,
  Forall (fun s => noSlash s = true) (hd :: tl) ->
  JS.split_go "/" 0 cur (JS.join "/" (hd :: tl)) = (cur +:+ hd) :: tl.
Proof.
  induction tl as [|q tl IH]; intros hd cur H; inversion H as [|? ? Hhd Htl]; subst.
  - simpl JS.join. rewrite <- (append_nil_r hd) at 1.
    now rewrite split_go_noSlash.
  - rewrite join_cons2, split_go_noSlash by exact Hhd.
    change ("/" +:+ JS.join "/" (q :: tl)) with (String "/" (JS.join "/" (q :: tl))).
    rewrite split_go_slash, IH by exact Htl. reflexivity.
Qed.

(** Splitting a joined list of separator-free pieces gives the pieces
    back. *)
Lemma split_join (segs : list string) :
  segs <> [] -> Forall (fun s => noSlash s = true) segs ->
  JS.split "/" (JS.join "/" segs) = segs.
Proof.
  destruct segs as [|hd tl]; [congruence|]. intros _ H.
  unfold JS.split. now rewrite split_go_join.
Qed.

Lemma normalizeStep_plain allow res seg :
  plain seg -> Path.normalizeStep allow res seg = seg :: res.
Proof.
  intros (H1 & _ & H2 & H3). unfold Path.normalizeStep.
  apply String.eqb_neq in H1, H2, H3. now rewrite H1, H2, H3.
Qed.

Lemma fold_normalizeStep_plain allow (segs : list string) : forall res,
  Forall (fun s => s = "" \/ plain s) segs ->
  fold_left (Path.normalizeStep allow) segs res
  = rev (filter (fun s => s <> "") segs) ++ res.
Proof.
  induction segs as [|seg segs IH]; intros res H; [reflexivity|].
  inversion H as [|? ? Hseg Hsegs]; subst. simpl fold_left.
  destruct Hseg as [->|Hp].
  - rewrite filter_cons_False by congruence. now apply IH.
  - rewrite normalizeStep_plain, filter_cons_True, IH by (try apply Hp; assumption).
    simpl. now rewrite <- app_assoc.
Qed.

Lemma lastChar_append (a b : string) :
  lastChar (a +:+ b) = match lastChar b with Some c => Some c | None => lastChar a end.
Proof.
  induction a as [|x a IH].
  - rewrite append_nil_l. now destruct (lastChar b).
  - rewrite append_cons. simpl. rewrite IH. now destruct (lastChar b), (lastChar a).
Qed.

Lemma endsWith_lastChar (s : string) :
  JS.endsWith s "/" = match lastChar s with Some c => Ascii.eqb c "/" | None => false end.
Proof.
  induction s as [|c s IH]; [reflexivity|].
  change (JS.endsWith (String c s) "/")
    with (if String.eqb (String c s) "/" then true else JS.endsWith s "/").
  rewrite IH. simpl lastChar. destruct s as [|d s].
  - change (String.eqb (String c "") "/")
      with (if Ascii.eqb c "/" then String.eqb "" "" else false).
    simpl. destruct (Ascii.eqb c "/"); reflexivity.
  - replace (String.eqb (String c (String d s)) "/") with false
      by (symmetry; apply String.eqb_neq; discriminate).
    destruct (lastChar (String d s)) eqn:E; [reflexivity|].
    simpl in E. destruct (lastChar s); discriminate.
Qed.

Lemma noSlash_lastChar (s : string) c :
  noSlash s = true -> lastChar s = Some c -> Ascii.eqb c "/" = false.
Proof.
  induction s as [|x s IH]; [discriminate|]. simpl. intros H Hl.
  apply andb_true_iff in H. destruct H as [Hx Hs]. apply negb_true_iff in Hx.
  destruct (lastChar s) as [d|]; injection Hl as <-; auto.
Qed.

Lemma lastChar_nonempty (s : string) : s <> "" -> exists c, lastChar s = Some c.
Proof.
  destruct s as [|x s]; [congruence|]. intros _. simpl.
  destruct (lastChar s); eauto.
Qed.

Lemma join_snoc sep (segs : list string) s :
  segs <> [] -> JS.join sep (segs ++ [s]) = JS.join sep segs +:+ sep +:+ s.
Proof.
  induction segs as [|p segs IH]; [congruence|]. intros _.
  destruct segs as [|q segs]; [reflexivity|].
  change ((p :: q :: segs) ++ [s]) with (p :: q :: (segs ++ [s])).
  rewrite !join_cons2.
  change (q :: segs ++ [s]) with ((q :: segs) ++ [s]).
  rewrite IH by discriminate. now rewrite !append_assoc.
Qed.

Lemma join_nonempty sep hd (l : list string) : hd <> "" -> JS.join sep (hd :: l) <> "".
Proof.
  intros Hne. destruct hd as [|c hd]; [congruence|].
  destruct l; [discriminate|]. rewrite join_cons2, append_cons. discriminate.
Qed.

(** A path joined from plain segments, possibly with empty ones in between,
    that starts and ends with a plain one, normalizes to the join of its
    plain segments. *)
Lemma normalize_segments (segs : list string) hd rest init tl :
  segs = hd :: rest -> segs = init ++ [tl] -> plain hd -> plain tl ->
  Forall (fun s => s = "" \/ plain s) segs ->
  Path.normalize (JS.join "/" segs) = JS.join "/" (filter (fun s => s <> "") segs).
Proof.
  intros Ehd Etl Hhd Htl Hall.
  assert (Hns : Forall (fun s => noSlash s = true) segs).
  { eapply Forall_impl; [exact Hall|]. intros s [->|Hs]; [reflexivity | apply Hs]. }
  assert (Hfilter : filter (fun s => s <> "") segs = hd :: filter (fun s => s <> "") rest).
  { rewrite Ehd. apply filter_cons_True, Hhd. }
  assert (Hstart : JS.startsWith (JS.join "/" segs) "/" = false).
  { unfold JS.startsWith. rewrite Ehd. destruct Hhd as (Hne & Hs & _).
    destruct hd as [|c hd]; [congruence|].
    simpl in Hs. apply andb_true_iff in Hs. destruct Hs as [Hc _].
    apply negb_true_iff in Hc.
    destruct rest as [|q r].
    - simpl JS.join. now rewrite prefix_slash.
    - rewrite join_cons2, append_cons. now rewrite prefix_slash. }
  assert (Hend : JS.endsWith (JS.join "/" segs) "/" = false).
  { rewrite endsWith_lastChar.
    destruct Htl as (Hne & Hs & _).
    destruct (lastChar_nonempty _ Hne) as [c Hc].
    assert (Hlast : lastChar (JS.join "/" segs) = Some c).
    { rewrite Etl. destruct init as [|i init].
      - exact Hc.
      - rewrite join_snoc by discriminate.
        now rewrite <- append_assoc, lastChar_append, Hc. }
    rewrite Hlast. exact (noSlash_lastChar _ _ Hs Hc). }
  unfold Path.normalize.
  destruct (String.eqb_spec (JS.join "/" segs) "") as [E|_].
  { rewrite Ehd in E. now apply join_nonempty in E; [|apply Hhd]. }
  rewrite Hstart, Hend. simpl negb.
  unfold Path.normalizeString.
  rewrite split_join by (try exact Hns; rewrite Ehd; discriminate).
  rewrite fold_normalizeStep_plain by exact Hall.
  rewrite app_nil_r, rev_involutive, Hfilter.
  destruct (String.eqb_spec (JS.join "/" (hd :: filter (fun s => s <> "") rest)) "")
    as [E|_]; [now apply join_nonempty in E; [|apply Hhd] | reflexivity].
Qed.

Lemma filter_plain (segs : list string) :
  Forall plain segs -> filter (fun s => s <> "") segs = segs.
Proof.
  induction 1 as [|s segs Hs _ IH]; [reflexivity|].
  rewrite filter_cons_True by apply Hs. now rewrite IH.
Qed.

(** [Path.join] of plain segments is their join by the separator. *)
Lemma join_plain (segs : list string) :
  segs <> [] -> Forall plain segs -> Path.join segs = JS.join "/" segs.
Proof.
  intros Hne Hall. unfold Path.join. rewrite (filter_plain _ Hall).
  destruct segs as [|hd rest]; [congruence|].
  destruct (exists_last Hne) as (init & tl & Etl).
  rewrite <- (filter_plain _ Hall) at 2.
  apply (normalize_segments _ hd rest init tl eq_refl Etl).
  - now inversion Hall.
  - rewrite Etl in Hall. apply Forall_app in Hall. destruct Hall as [_ Hall].
    now inversion Hall.
  - eapply Forall_impl; [exact Hall|]. intros s Hs. now right.
Qed.

(** Joining a directory of plain segments, written with its trailing
    separator, and a plain file name appends the name to the directory. *)
Lemma join_directory (dirs : list string) (base : string) :
  dirs <> [] -> Forall plain dirs -> plain base ->
  Path.join [JS.join "/" dirs +:+ "/"; base] = (JS.join "/" dirs +:+ "/") +:+ base.
Proof.
  intros Hne Hdirs Hbase.
  destruct dirs as [|hd rest]; [congruence|].
  assert (Hdir : JS.join "/" (hd :: rest) +:+ "/" <> "").
  { intros E. apply (f_equal String.length) in E. rewrite append_length in E.
    simpl in E. lia. }
  unfold Path.join.
  rewrite filter_cons_True by exact Hdir.
  rewrite filter_cons_True by apply Hbase.
  rewrite filter_nil.
  set (segs := (hd :: rest) ++ [""; base]).
  assert (Hjoin : JS.join "/" [JS.join "/" (hd :: rest) +:+ "/"; base] = JS.join "/" segs).
  { unfold segs. change [""; base] with ([""] ++ [base]). rewrite app_assoc.
    rewrite join_snoc by (destruct rest; discriminate).
    rewrite join_snoc by discriminate.
    rewrite join_cons2. simpl JS.join. now rewrite append_nil_r, !append_assoc. }
  rewrite Hjoin.
  rewrite (normalize_segments segs hd (rest ++ [""; base]) ((hd :: rest) ++ [""]) base).
  - unfold segs. rewrite filter_app, (filter_plain _ Hdirs).
    rewrite filter_cons_False by congruence.
    rewrite filter_cons_True by apply Hbase. rewrite filter_nil.
    rewrite join_snoc by discriminate. now rewrite !append_assoc.
  - reflexivity.
  - unfold segs. now rewrite <- app_assoc.
  - now inversion Hdirs.
  - exact Hbase.
  - unfold segs. apply Forall_app. split.
    + eapply Forall_impl; [exact Hdirs|]. intros s Hs. now right.
    + constructor; [now left|]. constructor; [now right | constructor].
Qed.

End PathFacts.

(** ** The template renderer *)

Section RenderFacts.

Import Template.

Lemma render_step fuel template data result :
  pass template data = Return result ->
  render (S fuel) template data =
    if String.eqb result template then Done result else render fuel result data.
Proof. intros H. simpl. now rewrite H. Qed.

Lemma render_done_fixed fuel : forall template data r,
  render fuel template data = Done r ->
  pass r data = Return r /\
  exists k, k < fuel /\ passes k template data = Return r.
Proof.
  induction fuel as [|fuel IH]; intros template data r H; simpl in H; [discriminate|].
  destruct (pass template data) as [result| |] eqn:Hp; [|discriminate|discriminate].
  destruct (String.eqb_spec result template) as [->|Hne].
  - injection H as <-. split; [exact Hp|]. exists 0. split; [lia | reflexivity].
  - destruct (IH _ _ _ H) as [Hfix [k [Hk Hpasses]]].
    split; [exact Hfix|]. exists (S k). split; [lia|]. simpl. now rewrite Hp.
Qed.

Lemma render_of_fixed fuel r data :
  pass r data = Return r -> render (S fuel) r data = Done r.
Proof. intros H. simpl. now rewrite H, String.eqb_refl. Qed.

(** *** Scanning *)

Lemma takeExpr_append (s : string) : forall e rest,
  takeExpr s = (e, rest) -> s = e +:+ rest.
Proof.
  induction s as [|c s IH]; intros e rest H; simpl in H.
  - now injection H as <- <-.
  - destruct (isExprChar c).
    + destruct (takeExpr s) as [e' rest'] eqn:Ht. injection H as <- <-.
      rewrite append_cons. now rewrite (IH _ _ eq_refl).
    + now injection H as <- <-.
Qed.

Lemma matchAt_inv (s e : string) :
  matchAt s = Some e ->
  exists c e' rest, e = String c e' /\ s = String "{" (e +:+ String "}" rest)
                    /\ takeExpr (e +:+ String "}" rest) = (e, String "}" rest).
Proof.
  unfold matchAt. destruct s as [|c r]; [discriminate|].
  destruct (Ascii.eqb_spec c "{") as [->|Hc].
  - destruct (takeExpr r) as [e' rest'] eqn:Ht.
    destruct e' as [|c' e']; [discriminate|].
    destruct rest' as [|c2 rest2]; [discriminate|].
    destruct (Ascii.eqb_spec c2 "}") as [->|Hc2].
    + intros H. injection H as <-. exists c', e', rest2.
      pose proof (takeExpr_append _ _ _ Ht) as ->. now rewrite Ht.
    + intros H. exfalso. revert H. clear -Hc2.
      destruct c2 as [[] [] [] [] [] [] [] []]; try discriminate. now destruct Hc2.
  - intros H. exfalso. revert H. clear -Hc.
    destruct c as [[] [] [] [] [] [] [] []]; try discriminate. now destruct Hc.
Qed.

Lemma textOf_cons p ps : textOf (p :: ps) = pieceText p +:+ textOf ps.
Proof. reflexivity. Qed.

Lemma scan_go_0 c r :
  scan_go 0 (String c r) =
    match matchAt (String c r) with
    | Some e => Placeholder e :: scan_go (String.length e + 1) r
    | None => Literal c :: scan_go 0 r
    end.
Proof. reflexivity. Qed.

Lemma scan_go_text (s : string) : forall skip, textOf (scan_go skip s) = sdrop skip s.
Proof.
  induction s as [|c r IH]; intros [|k]; try reflexivity.
  - rewrite scan_go_0.
    destruct (matchAt (String c r)) as [e|] eqn:Hm; rewrite textOf_cons, IH.
    + destruct (matchAt_inv _ _ Hm) as (c' & e' & rest & He & Hs & _).
      injection Hs as -> ->.
      replace (String.length e + 1) with (String.length (e +:+ "}"))
        by (rewrite append_length; reflexivity).
      replace (e +:+ String "}" rest) with ((e +:+ "}") +:+ rest)
        by (now rewrite append_assoc).
      rewrite sdrop_append. unfold pieceText.
      now rewrite !append_cons, append_nil_l, !append_assoc.
    + reflexivity.
  - apply IH.
Qed.

(** The pieces of a template, put back together, are the template. *)
Lemma scan_text (template : string) : textOf (scan template) = template.
Proof. apply scan_go_text. Qed.

Lemma substPieces_app data (ps qs : list Piece) :
  substPieces data (ps ++ qs) = andThen (substPieces data ps) (substPieces data qs).
Proof.
  induction ps as [|p ps IH]; simpl.
  - now destruct (substPieces data qs).
  - rewrite IH.
    destruct (substPiece data p) as [out| |], (substPieces data ps) as [a| |],
             (substPieces data qs) as [b| |]; try reflexivity.
    simpl. now rewrite append_assoc.
Qed.

Lemma andThen_return first rest out :
  andThen first rest = Return out ->
  exists a b, first = Return a /\ rest = Return b /\ out = a +:+ b.
Proof.
  destruct first as [a| |], rest as [b| |]; try discriminate.
  intros H. injection H as <-. now exists a, b.
Qed.

Lemma andThen_raises_l rest : andThen TypeError rest = TypeError.
Proof. now destruct rest. Qed.

Lemma andThen_raises_r first : andThen first TypeError = TypeError.
Proof. now destruct first. Qed.

Lemma walk_app data (ks : list string) : forall node rest,
  walk data ks = Return (Some node) -> walk data (ks ++ rest) = walk node rest.
Proof.
  revert data. induction ks as [|k ks IH]; intros data node rest H; simpl in *.
  - now injection H as ->.
  - destruct (getProp data k) as [v| |]; [|discriminate|discriminate].
    destruct v; try discriminate; now apply IH.
Qed.

Lemma walk_reachesUndefined data expression :
  reachesUndefined data expression ->
  walk data (JS.split "." expression) = Return None.
Proof.
  intros (ks & k & rest & node & -> & Hw & Hg).
  rewrite (walk_app _ _ _ _ Hw). simpl. now rewrite Hg.
Qed.

Lemma replacer_miss data text expression :
  reachesUndefined data expression -> replacer data text expression = Return text.
Proof. intros H. unfold replacer. now rewrite (walk_reachesUndefined _ _ H). Qed.

Lemma substPieces_all_miss data (ps : list Piece) :
  (forall e, In (Placeholder e) ps -> reachesUndefined data e) ->
  substPieces data ps = Return (textOf ps).
Proof.
  induction ps as [|p ps IH]; intros H; simpl; [reflexivity|].
  rewrite IH by (intros e He; apply H; now right).
  destruct p as [c|e]; simpl; [reflexivity|].
  now rewrite (replacer_miss _ _ _ (H e (or_introl eq_refl))).
Qed.

(** *** A missing placeholder survives every pass *)

Lemma takeExpr_all (s : string) : forall e rest,
  takeExpr s = (e, rest) -> allExpr e = true.
Proof.
  induction s as [|c s IH]; intros e rest H; simpl in H.
  - now injection H as <- <-.
  - destruct (isExprChar c) eqn:Hc.
    + destruct (takeExpr s) as [e' rest'] eqn:Ht. injection H as <- <-.
      simpl. now rewrite Hc, (IH _ _ eq_refl).
    + now injection H as <- <-.
Qed.

Lemma takeExpr_cons c s :
  takeExpr (String c s) =
    if isExprChar c then (String c (fst (takeExpr s)), snd (takeExpr s))
    else (EmptyString, String c s).
Proof. simpl. destruct (isExprChar c); [|reflexivity]. now destruct (takeExpr s). Qed.

(** A run followed by a character outside the class stops there. *)
Lemma takeExpr_app_stop (r : string) x X :
  isExprChar x = false ->
  takeExpr (r +:+ String x X) = (fst (takeExpr r), snd (takeExpr r) +:+ String x X).
Proof.
  intros Hx. induction r as [|c r IH].
  - rewrite append_nil_l, takeExpr_cons, Hx. reflexivity.
  - rewrite append_cons, !takeExpr_cons. destruct (isExprChar c).
    + rewrite IH. reflexivity.
    + reflexivity.
Qed.

Lemma takeExpr_exact (e : string) x X :
  allExpr e = true -> isExprChar x = false ->
  takeExpr (e +:+ String x X) = (e, String x X).
Proof.
  intros He Hx. induction e as [|c e IH].
  - rewrite append_nil_l, takeExpr_cons, Hx. reflexivity.
  - simpl in He. apply andb_true_iff in He. destruct He as [Hc He].
    rewrite append_cons, takeExpr_cons, Hc, IH by exact He. reflexivity.
Qed.

Lemma matchAt_cons c r :
  matchAt (String c r) =
    if Ascii.eqb c "{" then
      match takeExpr r with
      | (String c' e, String d _) => if Ascii.eqb d "}" then Some (String c' e) else None
      | _ => None
      end
    else None.
Proof.
  unfold matchAt. destruct (Ascii.eqb_spec c "{") as [->|Hc].
  - destruct (takeExpr r) as [[|c' e] [|d rest]]; try reflexivity.
    destruct (Ascii.eqb_spec d "}") as [->|Hd]; [reflexivity|].
    destruct d as [[] [] [] [] [] [] [] []]; try reflexivity. now destruct Hd.
  - destruct c as [[] [] [] [] [] [] [] []]; try reflexivity. now destruct Hc.
Qed.

(** The placeholders found by the scan are non-empty runs of the class. *)
Lemma scan_go_valid (s : string) : forall skip e,
  In (Placeholder e) (scan_go skip s) -> e <> "" /\ allExpr e = true.
Proof.
  induction s as [|c r IH]; intros [|k] e He; try destruct He.
  - rewrite scan_go_0 in He. destruct (matchAt (String c r)) as [e'|] eqn:Hm.
    + destruct He as [He|He]; [|now apply IH in He].
      injection He as ->.
      destruct (matchAt_inv _ _ Hm) as (c' & e'' & rest & -> & _ & Ht).
      split; [discriminate | exact (takeExpr_all _ _ _ Ht)].
    + destruct He as [He|He]; [discriminate | now apply IH in He].
  - now apply IH in He.
Qed.

(** The text of a placeholder is found again wherever it stands: a match
    that starts before it ends before it. *)
Lemma scan_go_finds (e : string) (after : string) :
  e <> "" -> allExpr e = true ->
  forall before skip,
    skip <= String.length before ->
    In (Placeholder e) (scan_go skip (before +:+ pieceText (Placeholder e) +:+ after)).
Proof.
  intros Hne Hall.
  assert (HX : pieceText (Placeholder e) +:+ after = String "{" (e +:+ String "}" after)).
  { unfold pieceText. rewrite !append_cons, append_nil_l, append_assoc. reflexivity. }
  assert (Hhere : matchAt (pieceText (Placeholder e) +:+ after) = Some e).
  { rewrite HX, matchAt_cons. simpl Ascii.eqb. cbv iota.
    rewrite takeExpr_exact by (auto; reflexivity).
    destruct e as [|c e]; [congruence | reflexivity]. }
  revert HX Hhere. generalize (e +:+ String "}" after) as X. intros X HX Hhere.
  induction before as [|c r IH]; intros skip Hskip.
  - simpl in Hskip. replace skip with 0 by lia. rewrite append_nil_l.
    rewrite HX in *. rewrite scan_go_0, Hhere. now left.
  - rewrite append_cons. destruct skip as [|k].
    + rewrite scan_go_0.
      destruct (matchAt (String c (r +:+ pieceText (Placeholder e) +:+ after))) as [e'|] eqn:Hm.
      * right. apply IH.
        rewrite matchAt_cons, HX in Hm.
        destruct (Ascii.eqb c "{"); [|discriminate].
        rewrite takeExpr_app_stop in Hm by reflexivity.
        pose proof (takeExpr_append r _ _ (surjective_pairing _)) as Hr.
        destruct (fst (takeExpr r)) as [|c' e1]; [discriminate|].
        destruct (snd (takeExpr r)) as [|d b].
        { rewrite append_nil_l in Hm. simpl in Hm. discriminate. }
        rewrite append_cons in Hm. destruct (Ascii.eqb d "}"); [|discriminate].
        injection Hm as <-. rewrite Hr, append_length. simpl. lia.
      * right. apply IH. lia.
    + simpl in Hskip. apply IH. lia.
Qed.

(** One pass keeps a missing placeholder of the template as a placeholder of
    its output. *)
Lemma pass_keeps_missing template data out e :
  pass template data = Return out ->
  In (Placeholder e) (scan template) -> reachesUndefined data e ->
  In (Placeholder e) (scan out).
Proof.
  intros Hpass Hin Hmiss.
  destruct (scan_go_valid _ _ _ Hin) as [Hne Hall].
  apply in_split in Hin. destruct Hin as (before & after & Hscan).
  unfold pass in Hpass. rewrite Hscan, substPieces_app in Hpass.
  apply andThen_return in Hpass as (o1 & rest & _ & Hrest & ->).
  simpl in Hrest. rewrite (replacer_miss _ _ _ Hmiss) in Hrest.
  apply andThen_return in Hrest as (text & o2 & Htext & _ & ->).
  injection Htext as <-.
  apply (scan_go_finds e o2 Hne Hall o1 0). lia.
Qed.

(** *** Reaching a fixed point *)

Lemma passes_fixed k r data : pass r data = Return r -> passes k r data = Return r.
Proof. intros H. induction k as [|k IH]; [reflexivity|]. simpl. now rewrite H. Qed.

(** [render] returns as soon as the passes reach a string that a pass
    leaves unchanged. *)
Lemma render_reaches_fixed k : forall fuel template data r,
  passes k template data = Return r -> pass r data = Return r -> k < fuel ->
  render fuel template data = Done r.
Proof.
  induction k as [|k IH]; intros [|fuel] template data r Hpasses Hfix Hk; try lia.
  - injection Hpasses as ->. now apply render_of_fixed.
  - simpl in Hpasses.
    destruct (pass template data) as [result| |] eqn:Hp; [|discriminate|discriminate].
    rewrite (render_step _ _ _ _ Hp).
    destruct (String.eqb_spec result template) as [->|Hne].
    + rewrite (passes_fixed k _ _ Hp) in Hpasses. now injection Hpasses as <-.
    + apply (IH fuel); [exact Hpasses | exact Hfix | lia].
Qed.

(** *** Claims *)

(** C2.  [render] repeats the substitution pass on its own output until a
    pass changes nothing, and then returns: a call returns [r] exactly when
    some number of passes in a row, within the fuel given, leads from the
    template to [r] and one more pass leaves [r] unchanged.  So rendering a
    result again returns it (idempotence, whenever the first call
    terminates), and chained placeholders resolve fully, however long the
    chain: [render("{a}", {a: "{b}", b: "x"})] returns ["x"]. *)
Theorem render_fixed_point_idempotent :
  (forall fuel template data r,
      render fuel template data = Done r <->
      exists k, k < fuel /\ passes k template data = Return r /\ pass r data = Return r) /\
  (forall fuel template data r,
      render fuel template data = Done r ->
      forall fuel', render (S fuel') r data = Done r) /\
  (forall fuel,
      render (3 + fuel) "{a}" (VObj (list_to_map [("a", VStr "{b}"); ("b", VStr "x")]))
      = Done "x").
Proof.
  split; [|split].
  - intros fuel template data r. split.
    + intros H. destruct (render_done_fixed _ _ _ _ H) as [Hfix (k & Hk & Hpasses)].
      now exists k.
    + intros (k & Hk & Hpasses & Hfix). exact (render_reaches_fixed k _ _ _ _ Hpasses Hfix Hk).
  - intros fuel template data r H fuel'.
    apply render_of_fixed. exact (proj1 (render_done_fixed _ _ _ _ H)).
  - intros fuel.
    apply (render_reaches_fixed 2); [vm_compute; reflexivity | vm_compute; reflexivity | lia].
Qed.

(** A run of C2: two passes lead from ["{a}"] to ["x"], which a third
    leaves unchanged, so three passes settle it; and the result renders to
    itself. *)
Lemma render_fixed_point_idempotent_witness :
  let data := VObj (list_to_map [("a", VStr "{b}"); ("b", VStr "x")]) in
  render 3 "{a}" data = Done "x" /\ render 1 "x" data = Done "x".
Proof.
  intros data.
  assert (H : render 3 "{a}" data = Done "x").
  { apply (proj2 (proj1 render_fixed_point_idempotent 3 "{a}" data "x")).
    exists 2. split; [lia|]. split; reflexivity. }
  split; [exact H|].
  exact (proj1 (proj2 render_fixed_point_idempotent) 3 "{a}" data "x" H 0).
Defined.

(** C3.  A placeholder whose key path reaches [undefined] is written back
    as its own text, and no error is raised for it: the replacer returns
    [text]; in one pass the placeholder's text stands in the output between
    what the pieces before and after it produce; a template all of whose
    placeholders miss is returned unchanged by [render];
    [render("{missing}", {})] returns ["{missing}"]; and whatever the other
    placeholders resolve to, a missing placeholder of the template is still
    a placeholder of the final result. *)
Theorem render_lookup_miss_passthrough :
  (forall data text expression,
      reachesUndefined data expression ->
      replacer data text expression = Return text) /\
  (forall template data before expression after out,
      scan template = before ++ Placeholder expression :: after ->
      reachesUndefined data expression ->
      pass template data = Return out ->
      exists o1 o2,
        substPieces data before = Return o1 /\
        substPieces data after = Return o2 /\
        out = o1 +:+ ("{" +:+ expression +:+ "}") +:+ o2) /\
  (forall template data,
      (forall e, In (Placeholder e) (scan template) -> reachesUndefined data e) ->
      forall fuel, render (S fuel) template data = Done template) /\
  (forall fuel, render (S fuel) "{missing}" (VObj ∅) = Done "{missing}") /\
  (forall fuel template data result expression,
      render fuel template data = Done result ->
      In (Placeholder expression) (scan template) ->
      reachesUndefined data expression ->
      In (Placeholder expression) (scan result)).
Proof.
  split; [exact replacer_miss|]. split; [|split; [|split]].
  - intros template data before e after out Hscan Hmiss Hpass.
    unfold pass in Hpass. rewrite Hscan, substPieces_app in Hpass.
    apply andThen_return in Hpass as (o1 & rest & Ho1 & Hrest & ->).
    simpl in Hrest. rewrite (replacer_miss _ _ _ Hmiss) in Hrest.
    apply andThen_return in Hrest as (text & o2 & Htext & Ho2 & ->).
    injection Htext as <-. now exists o1, o2.
  - intros template data H fuel. apply render_of_fixed.
    unfold pass. now rewrite (substPieces_all_miss _ _ H), scan_text.
  - intros fuel. apply render_of_fixed. vm_compute. reflexivity.
  - intros fuel. induction fuel as [|fuel IH]; intros template data result e H Hin Hmiss;
      simpl in H; [discriminate|].
    destruct (pass template data) as [out| |] eqn:Hp; [|discriminate|discriminate].
    pose proof (pass_keeps_missing _ _ _ _ Hp Hin Hmiss) as Hout.
    destruct (String.eqb_spec out template) as [->|_].
    + now injection H as <-.
    + exact (IH _ _ _ _ H Hout Hmiss).
Qed.

(** A run of C3: a template whose only placeholder misses, and one that
    mixes a resolved and a missing placeholder.  A key that a string or the
    built-in prototype answers is not a miss: the length of a string is
    substituted, and [toString] on an empty object finds the built-in
    function. *)
Lemma render_lookup_miss_passthrough_witness :
  let data := VObj (list_to_map [("a", VStr "1")]) in
  reachesUndefined data "b.c" /\
  replacer data "{b.c}" "b.c" = Return "{b.c}" /\
  render 1 "x{b.c}y" data = Done "x{b.c}y" /\
  render 2 "{a}-{b.c}" data = Done "1-{b.c}" /\
  In (Placeholder "b.c") (scan "1-{b.c}") /\
  replacer data "{a.length}" "a.length" = Return "1" /\
  replacer (VObj ∅) "{toString}" "toString" = Unknown.
Proof.
  intros data.
  assert (Hmiss : reachesUndefined data "b.c").
  { exists [], "b", ["c"], data. repeat split. }
  assert (Hrun : render 2 "{a}-{b.c}" data = Done "1-{b.c}") by (vm_compute; reflexivity).
  split; [exact Hmiss|]. split; [|split; [|split; [exact Hrun|split; [|split]]]].
  - exact (proj1 render_lookup_miss_passthrough data "{b.c}" "b.c" Hmiss).
  - apply (proj1 (proj2 (proj2 render_lookup_miss_passthrough)) "x{b.c}y" data).
    intros e He. vm_compute in He.
    destruct He as [He|[He|[He|[]]]]; try discriminate.
    injection He as <-. exact Hmiss.
  - apply (proj2 (proj2 (proj2 (proj2 render_lookup_miss_passthrough)))
             2 "{a}-{b.c}" data "1-{b.c}" "b.c" Hrun); [|exact Hmiss].
    vm_compute. right. right. now left.
  - vm_compute. reflexivity.
  - vm_compute. reflexivity.
Defined.

End RenderFacts.

(** ** Platform resolution *)

Section PlatformFacts.

Import Configuration.

Lemma truthy_false (s : string) : JS.truthy s = false <-> s = "".
Proof.
  unfold JS.truthy. destruct (String.eqb_spec s ""); simpl; split; congruence.
Qed.

Lemma truthy_true (s : string) : JS.truthy s = true <-> s <> "".
Proof.
  unfold JS.truthy. destruct (String.eqb_spec s ""); simpl; split; congruence.
Qed.

(** C4, as the code has it.  If [specifier.platforms] is present (empty or
    not), the result is the input list filtered to the names in it, in the
    order of the input list, with [specified = true]; otherwise, if
    [specifier.platform] is a non-empty string, the same filter applies to
    that single name, with [specified = true]; otherwise, if
    [specifier.multiplatform] is [true], the input list is returned, with
    [specified = true]; otherwise the result is one platform named after the
    host, with [specified = false], whatever the input list holds. *)
Theorem getMatchedPlatforms_precedence
        (process_platform : string) (specifier : PlatformSpecifier.t)
        (platforms : list PlatformInfo.t) :
  let result := getMatchedPlatforms process_platform specifier platforms in
  (forall names,
      PlatformSpecifier.platforms specifier = Some names ->
      Configuration.platforms result
        = filter (fun platform => PlatformInfo.name platform ∈ names) platforms /\
      sublist (Configuration.platforms result) platforms /\
      specified result = true) /\
  (forall name,
      PlatformSpecifier.platforms specifier = None ->
      PlatformSpecifier.platform specifier = Some name -> name <> "" ->
      Configuration.platforms result
        = filter (fun platform => PlatformInfo.name platform = name) platforms /\
      sublist (Configuration.platforms result) platforms /\
      specified result = true) /\
  (PlatformSpecifier.platforms specifier = None ->
   falsy (PlatformSpecifier.platform specifier) ->
   PlatformSpecifier.multiplatform specifier = Some true ->
   result = mkResult platforms true) /\
  (PlatformSpecifier.platforms specifier = None ->
   falsy (PlatformSpecifier.platform specifier) ->
   PlatformSpecifier.multiplatform specifier <> Some true ->
   result = mkResult [PlatformInfo.mk process_platform None None] false).
Proof.
  intros result. subst result. unfold getMatchedPlatforms.
  split; [|split; [|split]].
  - intros names Hps. rewrite Hps. cbn [Configuration.platforms specified].
    split; [|split; [apply sublist_filter | reflexivity]].
    apply list_filter_iff. intros x. apply elem_of_list_to_set.
  - intros name Hps Hp Hname. rewrite Hps, Hp.
    apply truthy_true in Hname. rewrite Hname.
    cbn [Configuration.platforms specified].
    split; [|split; [apply sublist_filter | reflexivity]].
    apply list_filter_iff. intros x. rewrite list_to_set_singleton_L.
    apply elem_of_singleton.
  - intros Hps [Hp|Hp] Hm; rewrite Hps, Hp, Hm; reflexivity.
  - intros Hps [Hp|Hp] Hm; rewrite Hps, Hp; simpl;
      destruct (PlatformSpecifier.multiplatform specifier) as [[]|]; congruence.
Qed.

(** A run of C4 through each of the four rules. *)
Lemma getMatchedPlatforms_precedence_witness :
  let linux := PlatformInfo.mk "linux" None None in
  let win32 := PlatformInfo.mk "win32" None None in
  let darwin := PlatformInfo.mk "darwin" None None in
  let all := [linux; win32; darwin] in
  Configuration.platforms
    (getMatchedPlatforms "freebsd"
       (PlatformSpecifier.mk None None (Some ["darwin"; "linux"])) all) = [linux; darwin] /\
  Configuration.platforms
    (getMatchedPlatforms "freebsd"
       (PlatformSpecifier.mk None (Some "win32") None) all) = [win32] /\
  getMatchedPlatforms "freebsd" (PlatformSpecifier.mk (Some true) None None) all
    = mkResult all true /\
  getMatchedPlatforms "freebsd" (PlatformSpecifier.mk None None None) [linux]
    = mkResult [PlatformInfo.mk "freebsd" None None] false.
Proof.
  intros linux win32 darwin all.
  split; [|split; [|split]].
  - rewrite (proj1 (proj1 (getMatchedPlatforms_precedence "freebsd"
       (PlatformSpecifier.mk None None (Some ["darwin"; "linux"])) all)
       ["darwin"; "linux"] eq_refl)).
    vm_compute. reflexivity.
  - rewrite (proj1 (proj1 (proj2 (getMatchedPlatforms_precedence "freebsd"
       (PlatformSpecifier.mk None (Some "win32") None) all))
       "win32" eq_refl eq_refl ltac:(discriminate))).
    vm_compute. reflexivity.
  - apply (proj1 (proj2 (proj2 (getMatchedPlatforms_precedence "freebsd"
       (PlatformSpecifier.mk (Some true) None None) all)))); [reflexivity | now left | reflexivity].
  - apply (proj2 (proj2 (proj2 (getMatchedPlatforms_precedence "freebsd"
       (PlatformSpecifier.mk None None None) [linux])))); [reflexivity | now left | discriminate].
Defined.

(** C4 as stated fails on a specifier whose [platforms] is the empty array:
    the array is truthy, so the first rule applies and nothing is selected,
    with [specified = true]; the stated precedence falls through to the host
    platform with [specified = false]. *)
Lemma getMatchedPlatforms_empty_platforms_counterexample :
  let specifier := PlatformSpecifier.mk None None (Some []) in
  let platforms := [PlatformInfo.mk "linux" None None] in
  getMatchedPlatforms "linux" specifier platforms = mkResult [] true /\
  claimedMatchedPlatforms "linux" specifier platforms
    = mkResult [PlatformInfo.mk "linux" None None] false /\
  getMatchedPlatforms "linux" specifier platforms
    <> claimedMatchedPlatforms "linux" specifier platforms.
Proof.
  intros specifier platforms. split; [|split].
  - vm_compute. reflexivity.
  - vm_compute. reflexivity.
  - vm_compute. discriminate.
Qed.

End PlatformFacts.

(** ** Mapping normalization *)

Section MappingFacts.

Import Artifact.

(** [Path.normalize] keeps a trailing separator. *)
Lemma normalize_trailing_sep (path : string) :
  JS.endsWith path "/" = true -> JS.endsWith (Path.normalize path) "/" = true.
Proof.
  intros H. unfold Path.normalize.
  destruct (String.eqb_spec path "") as [->|_]; [discriminate|].
  rewrite H.
  destruct (String.eqb (Path.normalizeString path (negb (JS.startsWith path "/"))) "").
  - now destruct (JS.startsWith path "/").
  - destruct (JS.startsWith path "/").
    + rewrite <- append_assoc. apply endsWith_append.
    + apply endsWith_append.
Qed.

Lemma normalize_nonempty (path : string) : Path.normalize path <> "".
Proof.
  unfold Path.normalize.
  destruct (String.eqb_spec path ""); [discriminate|].
  destruct (String.eqb_spec (Path.normalizeString path (negb (JS.startsWith path "/"))) "")
    as [E|E].
  - destruct (JS.startsWith path "/"); [discriminate|].
    destruct (JS.endsWith path "/"); discriminate.
  - destruct (JS.startsWith path "/"); [discriminate|].
    destruct (JS.endsWith path "/"); [|exact E].
    destruct (Path.normalizeString path _); [congruence | discriminate].
Qed.

(** The pattern read from an entry is absent or empty exactly when the
    descriptor's field is. *)
Lemma readMapping_pattern_falsy (config : FileMappingConfiguration) :
  falsy (Artifact.pattern (readMapping config)) <-> patternMissing config.
Proof.
  destruct config as [s|d]; simpl.
  - split; [|tauto]. intros [H|H]; [discriminate|].
    injection H as H. now apply normalize_nonempty in H.
  - unfold andNormalize. destruct (FileMappingDescriptor.pattern d) as [p|].
    + destruct (JS.truthy p) eqn:Ht.
      * apply truthy_true in Ht. split; intros [H|H]; try discriminate.
        -- injection H as H. now apply normalize_nonempty in H.
        -- congruence.
      * tauto.
    + tauto.
Qed.

(** How [checkMapping] ends, by cases on what was read. *)
Lemma checkMapping_cases (l : MappingLocals) :
  match pattern l with
  | None => checkMapping l = Throw PatternRequired
  | Some pattern =>
      if String.eqb pattern "" then checkMapping l = Throw PatternRequired
      else if JS.endsWith pattern Path.sep then checkMapping l = Throw PatternIsDirectory
      else
        let path := default pattern (path l) in
        if JS.endsWith path Path.sep then
          if String.eqb (Path.basename pattern) "**" && String.eqb (Path.basename path) "**"
          then checkMapping l = Throw InvalidPathOption
          else checkMapping l =
                 Ok (FileMapping.mk (packageName l) (baseDir l) pattern
                       (Path.join [path; Path.basename pattern]) (platformSet l))
        else checkMapping l =
               Ok (FileMapping.mk (packageName l) (baseDir l) pattern path (platformSet l))
  end.
Proof.
  unfold checkMapping, JS.truthy.
  destruct (pattern l) as [pattern|]; [|reflexivity].
  destruct (String.eqb pattern ""); simpl; [reflexivity|].
  destruct (JS.endsWith pattern Path.sep); [reflexivity|].
  destruct (JS.endsWith (default pattern (path l)) Path.sep); [|reflexivity].
  destruct (String.eqb (Path.basename pattern) "**" &&
            String.eqb (Path.basename (default pattern (path l))) "**"); reflexivity.
Qed.

(** When the pattern was read, so was the path. *)
Lemma readMapping_path (config : FileMappingConfiguration) pattern :
  Artifact.pattern (readMapping config) = Some pattern ->
  exists path, Artifact.path (readMapping config) = Some path.
Proof.
  destruct config as [s|d]; simpl; [eauto|].
  intros H. destruct (FileMappingDescriptor.path d) as [q|]; [|eauto].
  destruct (JS.truthy q); eauto.
Qed.

(** The four ways [normalizeMapping] can end; they exclude one another. *)
Lemma normalizeMapping_cases (config : FileMappingConfiguration) :
  (patternMissing config /\ ~ patternIsDirectory config /\
   normalizeMapping config = Throw PatternRequired) \/
  (~ patternMissing config /\ patternIsDirectory config /\
   normalizeMapping config = Throw PatternIsDirectory) \/
  (~ patternMissing config /\ ~ patternIsDirectory config /\
   globstarOntoGlobstar config /\
   normalizeMapping config = Throw InvalidPathOption) \/
  (~ patternMissing config /\ ~ patternIsDirectory config /\
   ~ globstarOntoGlobstar config /\
   exists mapping, normalizeMapping config = Ok mapping).
Proof.
  pose proof (checkMapping_cases (readMapping config)) as Hc.
  pose proof (readMapping_pattern_falsy config) as Hmiss.
  pose proof (readMapping_path config) as Hpath.
  unfold normalizeMapping, patternIsDirectory, globstarOntoGlobstar, falsy in *.
  destruct (Artifact.pattern (readMapping config)) as [pattern|] eqn:Hp.
  2:{ left. split; [apply Hmiss; now left|]. split; [|exact Hc].
      intros (? & ? & _); discriminate. }
  destruct (String.eqb_spec pattern "") as [->|Hne].
  { left. split; [apply Hmiss; now right|]. split; [|exact Hc].
    intros (? & E & F). injection E as <-. discriminate. }
  assert (NM : ~ patternMissing config).
  { intros M. apply Hmiss in M. destruct M as [M|M]; congruence. }
  right.
  destruct (JS.endsWith pattern Path.sep) eqn:Hdir.
  { left. split; [exact NM|]. split; [eauto | exact Hc]. }
  right.
  assert (ND : ~ (exists pattern0, Some pattern = Some pattern0 /\
                                   JS.endsWith pattern0 Path.sep = true)).
  { intros (? & E & F). injection E as <-. congruence. }
  destruct (Hpath _ eq_refl) as [path Hq]. rewrite Hq in *. simpl in Hc.
  destruct (JS.endsWith path Path.sep) eqn:Hqdir.
  2:{ right. repeat split; [exact NM | exact ND | | eauto].
      intros (? & ? & _ & E & F & _). injection E as <-. congruence. }
  destruct (String.eqb_spec (Path.basename pattern) "**") as [Hb1|Hb1];
    destruct (String.eqb_spec (Path.basename path) "**") as [Hb2|Hb2];
    simpl in Hc.
  - left. repeat split; [exact NM | exact ND | | exact Hc].
    exists pattern, path. auto.
  - right. repeat split; [exact NM | exact ND | | eauto].
    intros (? & ? & E1 & E2 & _ & F1 & F2).
    injection E1 as <-. injection E2 as <-. congruence.
  - right. repeat split; [exact NM | exact ND | | eauto].
    intros (? & ? & E1 & E2 & _ & F1 & F2).
    injection E1 as <-. injection E2 as <-. congruence.
  - right. repeat split; [exact NM | exact ND | | eauto].
    intros (? & ? & E1 & E2 & _ & F1 & F2).
    injection E1 as <-. injection E2 as <-. congruence.
Qed.

(** A raw pattern that ends in a separator is read as a normalized pattern
    that ends in one. *)
Lemma rawPattern_directory (config : FileMappingConfiguration) raw :
  rawPattern config = Some raw -> JS.endsWith raw Path.sep = true ->
  patternIsDirectory config.
Proof.
  intros Hr He. unfold patternIsDirectory.
  exists (Path.normalize raw). split; [|now apply normalize_trailing_sep].
  destruct config as [s|d]; simpl in *.
  - now injection Hr as ->.
  - unfold andNormalize. rewrite Hr.
    destruct (JS.truthy raw) eqn:Ht; [reflexivity|].
    apply truthy_false in Ht. subst raw. discriminate.
Qed.

(** C7, as the code has it.  Normalizing a mapping fails in exactly three
    cases: the descriptor's pattern is absent or empty; the normalized
    pattern ends in a path separator; or the destination path ends in a
    separator while the final components of pattern and path are both the
    globstar.  Each case has its own error, and a pattern that ends in a
    separator always makes normalization fail. *)
Theorem normalizeMapping_failures (config : FileMappingConfiguration) :
  (fails config <->
     patternMissing config \/ patternIsDirectory config \/ globstarOntoGlobstar config) /\
  (normalizeMapping config = Throw PatternRequired <-> patternMissing config) /\
  (normalizeMapping config = Throw PatternIsDirectory <-> patternIsDirectory config) /\
  (normalizeMapping config = Throw InvalidPathOption <->
     globstarOntoGlobstar config /\ ~ patternMissing config /\ ~ patternIsDirectory config) /\
  (forall raw,
      rawPattern config = Some raw -> JS.endsWith raw Path.sep = true ->
      normalizeMapping config = Throw PatternIsDirectory).
Proof.
  pose proof (rawPattern_directory config) as Hraw.
  unfold fails.
  destruct (normalizeMapping_cases config)
    as [(M & D & E)|[(M & D & E)|[(M & D & G & E)|(M & D & G & m & E)]]];
    rewrite E; (split; [|split; [|split; [|split]]]);
    try (split; [intros H; try discriminate; try tauto | intros H; try tauto]);
    try (now eauto);
    try (destruct H as [? H]; discriminate);
    try (intros raw Hr He; exfalso; now eauto).
Qed.

(** C7 on a directory pattern given as a bare string. *)
Lemma normalizeMapping_failures_witness :
  normalizeMapping (MappingString "src/lib/") = Throw PatternIsDirectory.
Proof.
  apply (proj2 (proj2 (proj2 (proj2 (normalizeMapping_failures (MappingString "src/lib/")))))
           "src/lib/"); reflexivity.
Defined.

(** C7 as stated fails: a descriptor whose pattern is present and does not
    end in a separator is still rejected when pattern and destination
    directory both end in the globstar. *)
Lemma normalizeMapping_third_failure_counterexample :
  let config :=
    MappingDescriptor
      (FileMappingDescriptor.mk (Some "src/**") None None (Some "out/**/") None None) in
  normalizeMapping config = Throw InvalidPathOption /\
  fails config /\ ~ claimedFailure config.
Proof.
  intros config.
  assert (E : normalizeMapping config = Throw InvalidPathOption) by (vm_compute; reflexivity).
  split; [exact E|]. split; [now exists InvalidPathOption|].
  intros [[M|M]|(pattern & Hp & Hd)]; try discriminate.
  vm_compute in Hp. injection Hp as <-. vm_compute in Hd. discriminate.
Qed.

(** The directory-target expansion, for a descriptor whose pattern has
    passed validation. *)
Lemma normalizeMapping_directory d p q :
  FileMappingDescriptor.pattern d = Some p -> p <> "" ->
  FileMappingDescriptor.path d = Some q -> q <> "" ->
  JS.endsWith (Path.normalize p) Path.sep = false ->
  JS.endsWith (Path.normalize q) Path.sep = true ->
  normalizeMapping (MappingDescriptor d) =
    if String.eqb (Path.basename (Path.normalize p)) "**"
       && String.eqb (Path.basename (Path.normalize q)) "**"
    then Throw InvalidPathOption
    else Ok (FileMapping.mk
               (FileMappingDescriptor.package d)
               (andNormalize (FileMappingDescriptor.baseDir d))
               (Path.normalize p)
               (Path.join [Path.normalize q; Path.basename (Path.normalize p)])
               (Artifact.platformSet (readMapping (MappingDescriptor d)))).
Proof.
  intros Hp Hpne Hq Hqne Hfile Hdir.
  pose proof (checkMapping_cases (readMapping (MappingDescriptor d))) as Hc.
  unfold normalizeMapping.
  apply truthy_true in Hpne, Hqne.
  assert (Ep : Artifact.pattern (readMapping (MappingDescriptor d))
               = Some (Path.normalize p)).
  { simpl. unfold andNormalize. now rewrite Hp, Hpne. }
  assert (Eq : Artifact.path (readMapping (MappingDescriptor d))
               = Some (Path.normalize q)).
  { simpl. now rewrite Hq, Hqne. }
  rewrite Ep, Eq in Hc. cbn [default from_option id] in Hc.
  destruct (String.eqb_spec (Path.normalize p) "") as [E|_];
    [now apply normalize_nonempty in E|].
  rewrite Hfile in Hc. cbv zeta in Hc. rewrite Hdir in Hc.
  destruct (String.eqb (Path.basename (Path.normalize p)) "**" &&
            String.eqb (Path.basename (Path.normalize q)) "**"); exact Hc.
Qed.

(** C6.  For a descriptor with a pattern and a destination path, once the
    pattern has passed validation: when the normalized path ends in a
    separator, the mapping's path is the normalized path joined with the
    pattern's final component, unless that component and the path's final
    component are both the globstar, in which case normalization fails.
    Normalizing [{pattern: "a/b.txt", path: "out/"}] yields
    [path = "out/b.txt"].  When the normalized path is a directory of plain
    segments and the pattern's final component is plain, the join is the
    path with the component appended to it, character for character. *)
Theorem normalizeMapping_directory_target :
  (forall d p q,
      FileMappingDescriptor.pattern d = Some p -> p <> "" ->
      FileMappingDescriptor.path d = Some q -> q <> "" ->
      let pattern := Path.normalize p in
      let path := Path.normalize q in
      JS.endsWith pattern Path.sep = false ->
      JS.endsWith path Path.sep = true ->
      normalizeMapping (MappingDescriptor d) =
        if String.eqb (Path.basename pattern) "**" && String.eqb (Path.basename path) "**"
        then Throw InvalidPathOption
        else Ok (FileMapping.mk
                   (FileMappingDescriptor.package d)
                   (andNormalize (FileMappingDescriptor.baseDir d))
                   pattern
                   (Path.join [path; Path.basename pattern])
                   (Artifact.platformSet (readMapping (MappingDescriptor d))))) /\
  normalizeMapping
    (MappingDescriptor
       (FileMappingDescriptor.mk (Some "a/b.txt") None None (Some "out/") None None))
  = Ok (FileMapping.mk None None "a/b.txt" "out/b.txt" None) /\
  normalizeMapping
    (MappingDescriptor
       (FileMappingDescriptor.mk (Some "src/**") None None (Some "dist/**/") None None))
  = Throw InvalidPathOption /\
  (forall d p q dirs,
      FileMappingDescriptor.pattern d = Some p -> p <> "" ->
      FileMappingDescriptor.path d = Some q -> q <> "" ->
      let pattern := Path.normalize p in
      let path := Path.normalize q in
      JS.endsWith pattern Path.sep = false ->
      path = JS.join "/" dirs +:+ "/" -> dirs <> [] -> Forall plain dirs ->
      plain (Path.basename pattern) ->
      Path.basename pattern <> "**" \/ Path.basename path <> "**" ->
      exists mapping,
        normalizeMapping (MappingDescriptor d) = Ok mapping /\
        FileMapping.pattern mapping = pattern /\
        FileMapping.path mapping = path +:+ Path.basename pattern).
Proof.
  split; [exact normalizeMapping_directory|].
  split; [vm_compute; reflexivity|]. split; [vm_compute; reflexivity|].
  intros d p q dirs Hp Hpne Hq Hqne pattern path Hfile Hpath Hne Hdirs Hbase Hstar.
  assert (Hdir : JS.endsWith path Path.sep = true).
  { rewrite Hpath. apply endsWith_append. }
  rewrite (normalizeMapping_directory d p q Hp Hpne Hq Hqne Hfile Hdir).
  fold pattern. fold path.
  replace (String.eqb (Path.basename pattern) "**" && String.eqb (Path.basename path) "**")
    with false.
  - eexists. split; [reflexivity|]. split; [reflexivity|].
    cbn [FileMapping.path]. rewrite Hpath. now apply join_directory.
  - symmetry. apply andb_false_iff.
    destruct Hstar as [H|H]; [left | right]; now apply String.eqb_neq.
Qed.

(** C6 on a destination directory several levels deep: the join, and the
    same path read as the directory with the file name appended. *)
Lemma normalizeMapping_directory_target_witness :
  let d :=
    FileMappingDescriptor.mk (Some "./src//**/*.js") None (Some "dep") (Some "lib/js/")
      None (Some ["linux"]) in
  normalizeMapping (MappingDescriptor d)
  = Ok (FileMapping.mk (Some "dep") None "src/**/*.js" "lib/js/*.js"
          (Some (list_to_set ["linux"]))) /\
  exists mapping,
    normalizeMapping (MappingDescriptor d) = Ok mapping /\
    FileMapping.pattern mapping = "src/**/*.js" /\
    FileMapping.path mapping = "lib/js/" +:+ "*.js".
Proof.
  intros d. split.
  - rewrite (proj1 normalizeMapping_directory_target d
               "./src//**/*.js" "lib/js/" eq_refl ltac:(discriminate)
               eq_refl ltac:(discriminate) eq_refl eq_refl).
    reflexivity.
  - apply (proj2 (proj2 (proj2 normalizeMapping_directory_target)) d
             "./src//**/*.js" "lib/js/" ["lib"; "js"]);
      try reflexivity; try discriminate.
    + repeat constructor; discriminate.
    + repeat constructor; discriminate.
    + left. discriminate.
Defined.

End MappingFacts.

(** ** Path reconstruction *)

Section BuildPathFacts.

Import Artifact.

Lemma splice_nil {A} i (arr : list A) : JS.splice i [] arr = arr.
Proof. unfold JS.splice. simpl. apply take_drop. Qed.

Lemma spliceGlobStars_loop i : forall parts captures,
  spliceGlobStars i parts captures = spliceLoop globStarText i parts captures.
Proof.
  induction i as [|i IH]; intros parts captures; simpl; [reflexivity|].
  destruct (JS.pop captures) as [[capture rest]|]; [|reflexivity].
  rewrite IH. destruct capture; simpl; [now rewrite splice_nil | reflexivity].
Qed.

Lemma spliceStars_loop i : forall parts captures,
  spliceStars i parts captures = spliceLoop starText i parts captures.
Proof.
  induction i as [|i IH]; intros parts captures; simpl; [reflexivity|].
  destruct (JS.pop captures) as [[capture rest]|]; [|reflexivity].
  now rewrite IH.
Qed.

Lemma pop_snoc {A} (l : list A) x : JS.pop (l ++ [x]) = Some (x, l).
Proof. unfold JS.pop. rewrite rev_app_distr. simpl. now rewrite rev_involutive. Qed.

Lemma splice_app_l {A} i (xs arr tail : list A) :
  i <= length arr -> JS.splice i xs (arr ++ tail) = JS.splice i xs arr ++ tail.
Proof.
  intros H. unfold JS.splice.
  rewrite take_app_le, drop_app_le by exact H. now rewrite <- !app_assoc.
Qed.

Lemma splice_length {A} i (xs arr : list A) :
  length (JS.splice i xs arr) = length xs + length arr.
Proof.
  unfold JS.splice. rewrite !length_app, length_take, length_drop. lia.
Qed.

Lemma splice_end {A} (xs arr : list A) : JS.splice (length arr) xs arr = arr ++ xs.
Proof. unfold JS.splice. now rewrite firstn_all, drop_all, app_nil_r. Qed.

Section Loop.

Context {C : Type} (text : C -> list string).

(** Splices at positions inside [parts] leave what follows [parts] alone. *)
Lemma spliceLoop_app_tail i : forall parts tail (captures : list C),
  i < length parts ->
  spliceLoop text i (parts ++ tail) captures = spliceLoop text i parts captures ++ tail.
Proof.
  induction i as [|i IH]; intros parts tail captures Hi; simpl; [reflexivity|].
  destruct (JS.pop captures) as [[capture rest]|]; [|reflexivity].
  rewrite splice_app_l by lia. apply IH. rewrite splice_length. lia.
Qed.

Lemma weave_snoc (captures : list C) : forall parts capture part,
  length captures = length parts ->
  weave text (captures ++ [capture]) (parts ++ [part])
  = weave text captures parts ++ text capture ++ [part].
Proof.
  induction captures as [|c cs IH]; intros [|p ps] capture part Hlen;
    simpl in *; try discriminate.
  - reflexivity.
  - rewrite IH by lia. now rewrite <- !app_assoc.
Qed.

(** The loop in closed form.  [pre] holds the parts up to the leftmost
    wildcard that is served, [suf] the parts after each served wildcard;
    [extra] holds leftmost captures for which no wildcard is left, which can
    only be when [pre] is the single part before the first wildcard. *)
Lemma spliceLoop_closed (suf : list string) : forall pre extra (captures : list C),
  pre <> [] -> length captures = length suf ->
  extra = [] \/ length pre = 1 ->
  spliceLoop text (length (pre ++ suf) - 1) (pre ++ suf) (extra ++ captures)
  = pre ++ weave text captures suf.
Proof.
  induction suf as [|part suf IH] using rev_ind; intros pre extra captures Hpre Hlen Hextra.
  - destruct captures; [|discriminate]. rewrite !app_nil_r. simpl.
    destruct Hextra as [->|H1].
    + destruct (length pre - 1); reflexivity.
    + rewrite H1. reflexivity.
  - destruct captures as [|c cs _] using rev_ind;
      [rewrite length_app in Hlen; simpl in Hlen; lia|].
    rewrite !length_app in Hlen. simpl in Hlen.
    assert (Hn : length (pre ++ suf) <> 0).
    { rewrite length_app. destruct pre; [congruence | simpl; lia]. }
    rewrite !app_assoc.
    replace (length ((pre ++ suf) ++ [part]) - 1) with (S (length (pre ++ suf) - 1))
      by (rewrite (length_app (pre ++ suf)); simpl; lia).
    simpl. rewrite pop_snoc.
    replace (S (length (pre ++ suf) - 1)) with (length (pre ++ suf)) by lia.
    rewrite splice_app_l, splice_end by lia.
    rewrite <- (app_assoc (pre ++ suf)).
    rewrite spliceLoop_app_tail by lia.
    rewrite IH by (try assumption; lia).
    rewrite weave_snoc by lia. now rewrite <- !app_assoc.
Qed.

End Loop.

Lemma globStarPhase_loop parts captures :
  globStarPhase parts captures
  = spliceLoop globStarText (length parts - 1) parts captures.
Proof.
  unfold globStarPhase. rewrite spliceGlobStars_loop.
  destruct (Nat.ltb_spec 1 (length parts)) as [H|H]; [reflexivity|].
  replace (length parts - 1) with 0 by lia. reflexivity.
Qed.

Lemma starPhase_loop parts captures :
  starPhase parts captures = spliceLoop starText (length parts - 1) parts captures.
Proof.
  unfold starPhase. rewrite spliceStars_loop.
  destruct (Nat.ltb_spec 1 (length parts)) as [H|H]; [reflexivity|].
  replace (length parts - 1) with 0 by lia. reflexivity.
Qed.

(** C1.  The two round trips of the specification: the captures of
    ["src/*/file.js"] on ["src/foo/file.js"] rebuild ["dist/foo/out.js"] from
    ["dist/*/out.js"], and the captures of ["src/**/*.js"] on
    ["src/a/b/c.js"] rebuild ["lib/a/b/c.js"] from ["lib/**/*.js"]. *)
Theorem buildPath_round_trips :
  buildPath "dist/*/out.js" [Segment "foo"] = "dist/foo/out.js" /\
  buildPath "lib/**/*.js" [SegmentRun ["a"; "b"]; Segment "c"] = "lib/a/b/c.js".
Proof. split; vm_compute; reflexivity. Qed.

(** C8.  Wildcards and captures are paired from the right.  With the parts
    of the template written [pre ++ suf], one part of [suf] after each
    wildcard that has a capture, the [**] loop leaves [pre] as it is (the
    leftmost, surplus wildcards get nothing) and puts each capture, when
    non-empty, joined by the separator, in front of its part of [suf], the
    last capture in front of the last part; the [*] loop does the same with
    the [*] captures.  Captures beyond the wildcards are dropped from the
    left.  A run of plain segments is spliced as the segments joined by the
    separator.  No case raises an error. *)
Theorem buildPath_pairs_right_to_left :
  (forall pre suf captures,
      pre <> [] -> length captures = length suf ->
      globStarPhase (pre ++ suf) captures = pre ++ weave globStarText captures suf) /\
  (forall pre suf captures,
      pre <> [] -> length captures = length suf ->
      starPhase (pre ++ suf) captures = pre ++ weave starText captures suf) /\
  (forall part suf extra captures,
      length captures = length suf ->
      globStarPhase (part :: suf) (extra ++ captures)
      = part :: weave globStarText captures suf) /\
  (forall part suf extra captures,
      length captures = length suf ->
      starPhase (part :: suf) (extra ++ captures) = part :: weave starText captures suf) /\
  buildPath "a/**/b/**/c" [SegmentRun ["x"; "y"]] = "a/b/x/y/c" /\
  buildPath "out/*-*.js" [Segment "f"] = "out/-f.js" /\
  buildPath "a/**/b" [SegmentRun []] = "a/b" /\
  globStarText [] = [] /\
  (forall capture,
      capture <> [] -> Forall plain capture ->
      globStarText capture = [JS.join Path.sep capture]).
Proof.
  split; [|split; [|split; [|split]]].
  - intros pre suf captures Hpre Hlen. rewrite globStarPhase_loop.
    apply (spliceLoop_closed globStarText suf pre [] captures); auto.
  - intros pre suf captures Hpre Hlen. rewrite starPhase_loop.
    apply (spliceLoop_closed starText suf pre [] captures); auto.
  - intros part suf extra captures Hlen. rewrite globStarPhase_loop.
    apply (spliceLoop_closed globStarText suf [part] extra captures); auto; discriminate.
  - intros part suf extra captures Hlen. rewrite starPhase_loop.
    apply (spliceLoop_closed starText suf [part] extra captures); auto; discriminate.
  - split; [vm_compute; reflexivity|]. split; [vm_compute; reflexivity|].
    split; [vm_compute; reflexivity|]. split; [reflexivity|].
    intros capture Hne Hall. unfold globStarText.
    destruct capture as [|c cs]; [congruence|]. f_equal. now apply join_plain.
Qed.

(** C8 on a template with three [**] and one capture, and on one with two
    [*] and one capture. *)
Lemma buildPath_pairs_right_to_left_witness :
  globStarPhase (JS.split "**" "a/**/b/**/c/**/d") [["x"; "y"]]
    = ["a/"; "/b/"; "/c/"; "x/y"; "/d"] /\
  starPhase (JS.split "*" "out/*-*.js") ["f"] = ["out/"; "-"; "f"; ".js"].
Proof.
  split.
  - change (JS.split "**" "a/**/b/**/c/**/d") with (["a/"; "/b/"; "/c/"] ++ ["/d"]).
    rewrite (proj1 buildPath_pairs_right_to_left ["a/"; "/b/"; "/c/"] ["/d"] [["x"; "y"]]
               ltac:(discriminate) eq_refl).
    reflexivity.
  - change (JS.split "*" "out/*-*.js") with (["out/"; "-"] ++ [".js"]).
    rewrite (proj1 (proj2 buildPath_pairs_right_to_left) ["out/"; "-"] [".js"] ["f"]
               ltac:(discriminate) eq_refl).
    reflexivity.
Defined.

End BuildPathFacts.

(** ** Archive assembly *)

Section GenerateFacts.

Import Artifact.

Variable relative : string -> string -> string.
Variable walkReturns : list FileMapping.t -> PlatformInfo.t -> bool.

Local Abbreviation platformLoop := (Artifact.platformLoop relative walkReturns).
Local Abbreviation generate := (Artifact.generate relative walkReturns).

Lemma platformLoop_cons this d platform rest :
  platformLoop this d (platform :: rest) =
    if walkReturns (activeMappings this platform) platform
    then (platformEvents this d platform ++ fst (platformLoop this d rest),
          option_map (cons (platformItem relative this d platform)) (snd (platformLoop this d rest)))
    else (fst (idTemplateFor this d platform)
          ++ [RenderTemplate (snd (idTemplateFor this d platform)) (idData this platform);
              Walk (activeMappings this platform) platform], None).
Proof.
  unfold platformEvents, platformItem, archivePath, activeMappings. simpl.
  destruct (idTemplateFor this d platform) as [idEvents idTemplate]. simpl.
  destruct (walkReturns _ platform); [|reflexivity].
  destruct (Artifact.platformLoop relative walkReturns this d rest) as [events items].
  simpl. now rewrite <- !app_assoc.
Qed.

(** Every event of the platform loop belongs to one of the platforms. *)
Lemma platformLoop_events this d (platforms : list PlatformInfo.t) : forall e,
  In e (fst (platformLoop this d platforms)) ->
  exists platform, In platform platforms /\ In e (platformEvents this d platform).
Proof.
  induction platforms as [|platform rest IH]; intros e He; [destruct He|].
  rewrite platformLoop_cons in He.
  destruct (walkReturns (activeMappings this platform) platform); simpl in He.
  - apply in_app_or in He. destruct He as [He|He].
    + exists platform. split; [now left | exact He].
    + destruct (IH e He) as (p & Hp & Hin). exists p. split; [now right | exact Hin].
  - exists platform. split; [now left|]. unfold platformEvents.
    apply in_app_or in He. apply in_or_app. destruct He as [He|He]; [now left | right].
    simpl in *. tauto.
Qed.

(** When no walk throws, every platform is served, in order. *)
Lemma platformLoop_complete this d (platforms : list PlatformInfo.t) :
  (forall platform, In platform platforms ->
                    walkReturns (activeMappings this platform) platform = true) ->
  platformLoop this d platforms
  = (flat_map (platformEvents this d) platforms,
     Some (map (platformItem relative this d) platforms)).
Proof.
  induction platforms as [|platform rest IH]; intros H; [reflexivity|].
  rewrite platformLoop_cons, (H platform (or_introl eq_refl)).
  rewrite IH by (intros p Hp; apply H; now right). reflexivity.
Qed.

(** When the loop completes, it has pushed one item per platform. *)
Lemma platformLoop_items this d (platforms : list PlatformInfo.t) : forall items,
  snd (platformLoop this d platforms) = Some items ->
  items = map (platformItem relative this d) platforms /\
  fst (platformLoop this d platforms) = flat_map (platformEvents this d) platforms.
Proof.
  induction platforms as [|platform rest IH]; intros items H.
  - injection H as <-. split; reflexivity.
  - rewrite platformLoop_cons in *.
    destruct (walkReturns (activeMappings this platform) platform); [|discriminate].
    simpl in *.
    destruct (snd (platformLoop this d rest)) as [items'|]; [|discriminate].
    injection H as <-. destruct (IH _ eq_refl) as [-> ->]. split; reflexivity.
Qed.

(** *** The plugin loop *)

Lemma pluginLoop_none (plugins : list Plugin.t) : forall index metadata d,
  (forall p, In p plugins -> Plugin.getDefaultArtifactId p = None) ->
  snd (pluginLoop index plugins metadata d) = d.
Proof.
  induction plugins as [|plugin rest IH]; intros index metadata d H; [reflexivity|].
  simpl. rewrite (H plugin (or_introl eq_refl)).
  destruct (Plugin.processArtifactMetadata plugin) as [hook|];
    match goal with
    | |- context [pluginLoop ?i rest ?m d] =>
        specialize (IH i m d (fun p Hp => H p (or_intror Hp)));
        destruct (pluginLoop i rest m d) as [[events m'] d']
    end; exact IH.
Qed.

(** The plugin recorded is the last one in the list that has a generator. *)
Lemma pluginLoop_last (before : list Plugin.t) : forall index metadata d plugin after g,
  Plugin.getDefaultArtifactId plugin = Some g ->
  (forall p, In p after -> Plugin.getDefaultArtifactId p = None) ->
  snd (pluginLoop index (before ++ plugin :: after) metadata d)
  = Some (index + length before, g).
Proof.
  induction before as [|b before IH]; intros index metadata d plugin after g Hg Hafter.
  - simpl. rewrite Hg.
    destruct (Plugin.processArtifactMetadata plugin) as [hook|];
      match goal with
      | |- context [pluginLoop ?i after ?m ?d0] =>
          pose proof (pluginLoop_none after i m d0 Hafter) as Hn;
          destruct (pluginLoop i after m d0) as [[events m'] d']
      end; simpl in *; rewrite Hn; f_equal; f_equal; lia.
  - simpl.
    destruct (Plugin.processArtifactMetadata b) as [hook|];
      match goal with
      | |- context [pluginLoop ?i (before ++ plugin :: after) ?m ?d0] =>
          pose proof (IH i m d0 plugin after g Hg Hafter) as Hn;
          destruct (pluginLoop i (before ++ plugin :: after) m d0) as [[events m'] d']
      end; simpl in *; rewrite Hn; f_equal; f_equal; lia.
Qed.

(** The plugin loop calls hooks only. *)
Lemma pluginLoop_events (plugins : list Plugin.t) : forall index metadata d e,
  In e (fst (fst (pluginLoop index plugins metadata d))) ->
  exists i, e = ProcessArtifactMetadata i.
Proof.
  induction plugins as [|plugin rest IH]; intros index metadata d e He; [destruct He|].
  simpl in He.
  destruct (Plugin.processArtifactMetadata plugin) as [hook|];
    match type of He with
    | context [pluginLoop ?i rest ?m ?d0] =>
        specialize (IH i m d0 e); destruct (pluginLoop i rest m d0) as [[events m'] d']
    end; simpl in *.
  - destruct He as [<-|He]; eauto.
  - eauto.
Qed.

(** *** The id template *)

Lemma idTemplateFor_cases this d platform :
  (exists id,
      ArtifactConfiguration.id (config this) = Some id /\ id <> "" /\
      idTemplateFor this d platform = ([], id)) \/
  (falsy (ArtifactConfiguration.id (config this)) /\
   exists i g,
     d = Some (i, g) /\
     idTemplateFor this d platform
     = ([GetDefaultArtifactId i (generatorArgument this platform)],
        g (generatorArgument this platform))) \/
  (falsy (ArtifactConfiguration.id (config this)) /\ d = None /\
   idTemplateFor this d platform
   = ([], if Project.platformSpecified (project this)
          then "{name}-{platform}" else "{name}")).
Proof.
  unfold idTemplateFor, generatorArgument, falsy.
  destruct (ArtifactConfiguration.id (config this)) as [id|].
  - destruct (JS.truthy id) eqn:Ht.
    + left. exists id. apply truthy_true in Ht. auto.
    + apply truthy_false in Ht. subst id. right.
      destruct d as [[i g]|]; [left | right]; eauto 8.
  - right. destruct d as [[i g]|]; [left | right]; eauto 8.
Qed.

Lemma falsy_not (o : option string) id : o = Some id -> id <> "" -> ~ falsy o.
Proof. intros -> Hne [H|H]; congruence. Qed.

Lemma idTemplateFor_rule this platform :
  idTemplateRule this platform (snd (idTemplateFor this (recordedPlugin this) platform)).
Proof.
  unfold idTemplateRule, recordedPlugin.
  destruct (idTemplateFor_cases this (recordedPlugin this) platform)
    as [(id & Hid & Hne & E)|[(Hf & i & g & Hd & E)|(Hf & Hd & E)]];
    unfold recordedPlugin in *; rewrite E; simpl.
  - split; [|split].
    + intros id' Hid' _. congruence.
    + intros Hf. destruct (falsy_not _ _ Hid Hne Hf).
    + intros Hf. destruct (falsy_not _ _ Hid Hne Hf).
  - split; [|split].
    + intros id Hid Hne. destruct (falsy_not _ _ Hid Hne Hf).
    + intros _ before plugin after g' Hplugins Hg Hafter.
      rewrite Hplugins, (pluginLoop_last before 0 _ None plugin after g' Hg Hafter) in Hd.
      injection Hd as _ ->. reflexivity.
    + intros _ Hnone. rewrite (pluginLoop_none _ 0 _ None Hnone) in Hd. discriminate.
  - split; [|split].
    + intros id Hid Hne. destruct (falsy_not _ _ Hid Hne Hf).
    + intros _ before plugin after g' Hplugins Hg Hafter.
      rewrite Hplugins, (pluginLoop_last before 0 _ None plugin after g' Hg Hafter) in Hd.
      discriminate.
    + reflexivity.
Qed.

(** *** The trace of [generate] *)

Lemma generate_unfold this :
  generate this =
    let hooked := fst (pluginLoop 0 (Project.plugins (project this)) (initialMetadata this) None) in
    let looped := platformLoop this (recordedPlugin this) (Project.platforms (project this)) in
    match snd looped with
    | Some items =>
        (fst hooked ++ fst looped
         ++ [WriteMetadata (Path.join [Project.distDir (project this);
                                       Project.name (project this) +:+ ".json"])],
         Some (MetadataObject.written (MetadataObject.push (snd hooked) items)))
    | None => (fst hooked ++ fst looped, None)
    end.
Proof.
  unfold Artifact.generate, recordedPlugin, initialMetadata.
  destruct (pluginLoop 0 _ _ None) as [[pluginEvents metadata] d]. simpl.
  destruct (Artifact.platformLoop relative walkReturns this d _) as [events items].
  reflexivity.
Qed.

(** An event of [generate] is a hook call, an event of one of the
    project's platforms, or the final metadata file. *)
Lemma generate_events this e :
  In e (fst (generate this)) ->
  (exists i, e = ProcessArtifactMetadata i) \/
  (exists platform,
      In platform (Project.platforms (project this)) /\
      In e (platformEvents this (recordedPlugin this) platform)) \/
  (exists path, e = WriteMetadata path).
Proof.
  rewrite generate_unfold. cbv zeta.
  destruct (snd (platformLoop this _ _)); simpl; intros He;
    apply in_app_or in He; destruct He as [He|He].
  - left. eapply pluginLoop_events, He.
  - apply in_app_or in He. destruct He as [He|[<-|[]]].
    + right. left. now apply platformLoop_events.
    + right. right. eauto.
  - left. eapply pluginLoop_events, He.
  - right. left. now apply platformLoop_events.
Qed.

Lemma idTemplateFor_events this d platform e :
  In e (fst (idTemplateFor this d platform)) ->
  exists i g, d = Some (i, g) /\ e = GetDefaultArtifactId i (generatorArgument this platform).
Proof.
  destruct (idTemplateFor_cases this d platform)
    as [(id & _ & _ & E)|[(_ & i & g & Hd & E)|(_ & _ & E)]]; rewrite E; simpl;
    intros He; try tauto.
  destruct He as [<-|[]]. eauto.
Qed.

(** Every rendering of [generate] is the id rendering of one of the
    project's platforms. *)
Lemma generate_renders this template data :
  In (RenderTemplate template data) (fst (generate this)) ->
  exists platform,
    In platform (Project.platforms (project this)) /\
    data = idData this platform /\
    template = snd (idTemplateFor this (recordedPlugin this) platform).
Proof.
  intros He.
  destruct (generate_events _ _ He) as [[i Hi]|[(platform & Hp & Hin)|[path Hpath]]];
    try discriminate.
  exists platform. split; [exact Hp|].
  unfold platformEvents in Hin. apply in_app_or in Hin. destruct Hin as [Hin|Hin].
  - destruct (idTemplateFor_events _ _ _ _ Hin) as (i & g & _ & Hi). discriminate.
  - destruct Hin as [Hin|[Hin|[Hin|[]]]]; try discriminate.
    injection Hin as <- <-. split; reflexivity.
Qed.

Lemma omap_none {A B} (f : A -> option B) (l : list A) :
  (forall x, In x l -> f x = None) -> omap f l = [].
Proof.
  induction l as [|x l IH]; intros H; [reflexivity|].
  simpl. rewrite (H x (or_introl eq_refl)). apply IH. intros y Hy. apply H. now right.
Qed.

Lemma walksOf_app (a b : list Event) : walksOf (a ++ b) = walksOf a ++ walksOf b.
Proof. apply omap_app. Qed.

Lemma walksOf_platformEvents this d platform :
  walksOf (platformEvents this d platform) = [(activeMappings this platform, platform)].
Proof.
  unfold walksOf, platformEvents. rewrite omap_app, omap_none; [reflexivity|].
  intros e He. destruct (idTemplateFor_events _ _ _ _ He) as (i & g & _ & ->). reflexivity.
Qed.

Lemma walksOf_flat_map this d (platforms : list PlatformInfo.t) :
  walksOf (flat_map (platformEvents this d) platforms)
  = map (fun platform => (activeMappings this platform, platform)) platforms.
Proof.
  induction platforms as [|platform rest IH]; [reflexivity|].
  simpl. now rewrite walksOf_app, IH, walksOf_platformEvents.
Qed.

(** *** Hooks and archives *)

Lemma hookCallsFrom_cons index plugin (rest : list Plugin.t) :
  hookCallsFrom index (plugin :: rest)
  = match Plugin.processArtifactMetadata plugin with
    | Some _ => [ProcessArtifactMetadata index]
    | None => []
    end ++ hookCallsFrom (S index) rest.
Proof.
  unfold hookCallsFrom. simpl.
  now destruct (Plugin.processArtifactMetadata plugin).
Qed.

(** The plugin loop in closed form: the hook calls, and the metadata folded
    through the hooks. *)
Lemma pluginLoop_hooked (plugins : list Plugin.t) : forall index metadata d,
  fst (pluginLoop index plugins metadata d)
  = (hookCallsFrom index plugins,
     fold_left (fun metadata hook => hook metadata)
               (omap Plugin.processArtifactMetadata plugins) metadata).
Proof.
  induction plugins as [|plugin rest IH]; intros index metadata d; [reflexivity|].
  rewrite hookCallsFrom_cons. simpl.
  destruct (Plugin.processArtifactMetadata plugin) as [hook|];
    match goal with
    | |- context [pluginLoop ?i rest ?m ?d0] =>
        specialize (IH i m d0); destruct (pluginLoop i rest m d0) as [[events m'] d']
    end; simpl in *; now injection IH as -> ->.
Qed.

Lemma generate_hooked this :
  fst (pluginLoop 0 (Project.plugins (project this)) (initialMetadata this) None)
  = (hookCallsFrom 0 (Project.plugins (project this)), hookedMetadata this).
Proof. apply pluginLoop_hooked. Qed.

Lemma archivesOf_app (a b : list Event) : archivesOf (a ++ b) = archivesOf a ++ archivesOf b.
Proof. apply omap_app. Qed.

Lemma archivesOf_idTemplate this d platform :
  archivesOf (fst (idTemplateFor this d platform)) = [].
Proof.
  apply omap_none. intros e He.
  destruct (idTemplateFor_events _ _ _ _ He) as (i & g & _ & ->). reflexivity.
Qed.

Lemma archivesOf_platformEvents this d platform :
  archivesOf (platformEvents this d platform) = [archivePath this d platform].
Proof.
  unfold platformEvents. now rewrite archivesOf_app, archivesOf_idTemplate.
Qed.

Lemma archivesOf_flat_map this d (platforms : list PlatformInfo.t) :
  archivesOf (flat_map (platformEvents this d) platforms)
  = map (archivePath this d) platforms.
Proof.
  induction platforms as [|platform rest IH]; [reflexivity|].
  simpl. now rewrite archivesOf_app, IH, archivesOf_platformEvents.
Qed.

Lemma archivesOf_hookCalls index (plugins : list Plugin.t) :
  archivesOf (hookCallsFrom index plugins) = [].
Proof.
  revert index. induction plugins as [|plugin rest IH]; intros index; [reflexivity|].
  rewrite hookCallsFrom_cons, archivesOf_app, IH.
  now destruct (Plugin.processArtifactMetadata plugin).
Qed.

(** C5, as the code has it.  For each platform processed, the artifact id
    is [project.renderTemplate] of an id template and a data object whose
    only entry is [platform]: the platform's name when the project is
    platform-specified, [undefined] otherwise (the platform's variables are
    not part of it).  The template is the explicit non-empty [id] of the
    artifact configuration; else the result of the default-id generator of
    the last plugin that has one; else ["{name}-{platform}"] when the project
    is platform-specified and ["{name}"] otherwise.  The id so computed names
    the archive written for the platform, [distDir/id.zip]; and it is the id
    of the item of the platform in the metadata written, when the hooks have
    left the [artifacts] property of the metadata object to the array
    [generate] pushes the items onto. *)
Theorem generate_artifact_id (this : t) :
  (forall template data,
      In (RenderTemplate template data) (fst (generate this)) ->
      exists platform,
        In platform (Project.platforms (project this)) /\
        data = platformOnly this platform /\
        idTemplateRule this platform template) /\
  (forall metadata,
      snd (generate this) = Some metadata ->
      Forall2
        (fun platform archive =>
           exists template,
             idTemplateRule this platform template /\
             In (RenderTemplate template (platformOnly this platform))
                (fst (generate this)) /\
             archive
             = Path.join [Project.distDir (project this);
                          Project.renderTemplate (project this) template
                            (platformOnly this platform) +:+ ".zip"])
        (Project.platforms (project this)) (archivesOf (fst (generate this)))) /\
  (forall metadata,
      snd (generate this) = Some metadata ->
      MetadataObject.artifacts (hookedMetadata this) = MetadataObject.TheLocalArray ->
      exists items,
        ArtifactMetadata.artifacts metadata
        = MetadataObject.localArray (hookedMetadata this) ++ items /\
        Forall2
          (fun platform item =>
             exists template,
               idTemplateRule this platform template /\
               ArtifactMetadataItem.id item
               = Project.renderTemplate (project this) template
                   (platformOnly this platform))
          (Project.platforms (project this)) items).
Proof.
  split; [|split].
  - intros template data He.
    destruct (generate_renders _ _ _ He) as (platform & Hp & -> & ->).
    exists platform. split; [exact Hp|]. split; [reflexivity | apply idTemplateFor_rule].
  - intros metadata Hm.
    assert (Hrendered : forall platform,
               In platform (Project.platforms (project this)) ->
               In (RenderTemplate (snd (idTemplateFor this (recordedPlugin this) platform))
                                  (platformOnly this platform))
                  (fst (generate this))).
    { intros platform Hp. rewrite generate_unfold in *. cbv zeta in *.
      destruct (snd (platformLoop this _ _)) as [items|] eqn:Hitems; [|discriminate].
      destruct (platformLoop_items _ _ _ _ Hitems) as [_ Hevents].
      cbn [fst]. apply in_or_app. right. apply in_or_app. left.
      rewrite Hevents. apply in_flat_map. exists platform. split; [exact Hp|].
      unfold platformEvents. apply in_or_app. right. now left. }
    assert (Harchives : archivesOf (fst (generate this))
                        = map (archivePath this (recordedPlugin this))
                              (Project.platforms (project this))).
    { rewrite generate_unfold in *. cbv zeta in *. rewrite generate_hooked in *.
      destruct (snd (platformLoop this _ _)) as [items|] eqn:Hitems; [|discriminate].
      destruct (platformLoop_items _ _ _ _ Hitems) as [_ Hevents].
      cbn [fst snd]. rewrite Hevents.
      rewrite !archivesOf_app, archivesOf_hookCalls, archivesOf_flat_map.
      simpl. now rewrite app_nil_r. }
    rewrite Harchives.
    apply Forall2_fmap_r, Forall_Forall2_diag, Forall_forall.
    intros platform Hp. apply list_elem_of_In in Hp.
    exists (snd (idTemplateFor this (recordedPlugin this) platform)).
    split; [apply idTemplateFor_rule|]. split; [now apply Hrendered | reflexivity].
  - intros metadata Hm Hlocal. rewrite generate_unfold in Hm. cbv zeta in Hm.
    rewrite generate_hooked in Hm. cbn [fst snd] in Hm.
    destruct (snd (platformLoop this _ _)) as [items|] eqn:Hitems; [|discriminate].
    injection Hm as <-. unfold MetadataObject.written, MetadataObject.push.
    cbn [ArtifactMetadata.artifacts MetadataObject.artifacts MetadataObject.localArray].
    rewrite Hlocal. exists items. split; [reflexivity|].
    destruct (platformLoop_items _ _ _ _ Hitems) as [-> _].
    apply Forall2_fmap_r, Forall_Forall2_diag, Forall_forall.
    intros platform _.
    exists (snd (idTemplateFor this (recordedPlugin this) platform)).
    split; [apply idTemplateFor_rule | reflexivity].
Qed.

(** C9.  Every walk of [generate] is for a platform of the project, over
    exactly the normalized mappings, in their order, that have no
    [platformSet] or whose [platformSet] holds the platform's name; a mapping
    without [platformSet] is walked for every platform; and a run that
    completes has walked every platform, in order (it completes when no walk
    throws). *)
Theorem generate_walks_active_mappings (this : t) :
  (forall ms platform,
      In (Walk ms platform) (fst (generate this)) ->
      In platform (Project.platforms (project this)) /\
      ms = List.filter (isActiveOn platform) (mappings this) /\
      forall mapping,
        In mapping ms <->
        In mapping (mappings this) /\
        (FileMapping.platformSet mapping = None \/
         exists platformSet,
           FileMapping.platformSet mapping = Some platformSet /\
           PlatformInfo.name platform ∈ platformSet)) /\
  (forall mapping platform,
      In mapping (mappings this) -> FileMapping.platformSet mapping = None ->
      In mapping (List.filter (isActiveOn platform) (mappings this))) /\
  (forall metadata,
      snd (generate this) = Some metadata ->
      walksOf (fst (generate this))
      = map (fun platform => (List.filter (isActiveOn platform) (mappings this), platform))
            (Project.platforms (project this))) /\
  ((forall platform,
       In platform (Project.platforms (project this)) ->
       walkReturns (List.filter (isActiveOn platform) (mappings this)) platform = true) ->
   exists metadata, snd (generate this) = Some metadata).
Proof.
  split; [|split; [|split]].
  - intros ms platform He.
    destruct (generate_events _ _ He) as [[i Hi]|[(p & Hp & Hin)|[path Hpath]]];
      try discriminate.
    unfold platformEvents in Hin. apply in_app_or in Hin. destruct Hin as [Hin|Hin].
    { destruct (idTemplateFor_events _ _ _ _ Hin) as (i & g & _ & Hi). discriminate. }
    destruct Hin as [Hin|[Hin|[Hin|[]]]]; try discriminate.
    injection Hin as <- <-. split; [exact Hp|]. split; [reflexivity|].
    intros mapping. unfold activeMappings. rewrite filter_In. unfold isActiveOn.
    destruct (FileMapping.platformSet mapping) as [set|].
    + rewrite bool_decide_eq_true. split.
      * intros [Hm Hin]. split; [exact Hm|]. right. eauto.
      * intros [Hm [Hn|(set' & Hs & Hin)]]; [discriminate|].
        injection Hs as <-. auto.
    + split; [intros [Hm _]; auto | intros [Hm _]; auto].
  - intros mapping platform Hm Hnone. apply filter_In. split; [exact Hm|].
    unfold isActiveOn. now rewrite Hnone.
  - intros metadata Hm. rewrite generate_unfold in *. cbv zeta in *.
    destruct (snd (platformLoop this _ _)) as [items|] eqn:Hitems; [|discriminate].
    destruct (platformLoop_items _ _ _ _ Hitems) as [_ Hevents].
    cbn [fst]. rewrite !walksOf_app, Hevents, walksOf_flat_map.
    unfold walksOf at 1. rewrite omap_none.
    + simpl. now rewrite app_nil_r.
    + intros e He. destruct (pluginLoop_events _ _ _ _ _ He) as [i ->]. reflexivity.
  - intros Hwalks. rewrite generate_unfold. cbv zeta.
    rewrite (platformLoop_complete _ _ _ Hwalks). cbn [snd]. eauto.
Qed.

(** Non-interference of the plugin loop: events and metadata depend on the
    hooks only. *)
Lemma pluginLoop_hooks (plugins : list Plugin.t) : forall plugins' index metadata d d',
  map Plugin.processArtifactMetadata plugins = map Plugin.processArtifactMetadata plugins' ->
  fst (pluginLoop index plugins metadata d) = fst (pluginLoop index plugins' metadata d').
Proof.
  induction plugins as [|plugin rest IH]; intros [|plugin' rest'] index metadata d d' H;
    try discriminate; [reflexivity|].
  simpl in H. injection H as Hhook Hrest. simpl. rewrite <- Hhook.
  destruct (Plugin.processArtifactMetadata plugin) as [hook|];
    match goal with
    | |- context [pluginLoop ?i rest ?m ?d1] =>
        match goal with
        | |- context [pluginLoop i rest' m ?d2] =>
            specialize (IH rest' i m d1 d2 Hrest);
            destruct (pluginLoop i rest m d1) as [[ev1 m1] dd1];
            destruct (pluginLoop i rest' m d2) as [[ev2 m2] dd2]
        end
    end; simpl in *; now injection IH as -> ->.
Qed.

Lemma platformLoop_withPlugins this plugins d (platforms : list PlatformInfo.t) :
  platformLoop (withPlugins this plugins) d platforms = platformLoop this d platforms.
Proof.
  induction platforms as [|platform rest IH]; [reflexivity|].
  simpl. rewrite IH. reflexivity.
Qed.

(** C10.  When the plugin list is [before ++ plugin :: after], [plugin] has
    a default-id generator and no plugin of [after] has one, [generate]
    records [plugin], whatever [before] holds: every generator call of the
    run is a call of [plugin]'s; when no explicit id is configured, every id
    template is the result of [plugin]'s generator, which is called for the
    first platform; and replacing the generators of the plugins of [before]
    by anything at all leaves the whole run unchanged. *)
Theorem generate_uses_last_default_id_plugin
        (this : t) (before after : list Plugin.t) (plugin : Plugin.t)
        (g : option PlatformInfo.t -> string) :
  Project.plugins (project this) = before ++ plugin :: after ->
  Plugin.getDefaultArtifactId plugin = Some g ->
  (forall p, In p after -> Plugin.getDefaultArtifactId p = None) ->
  recordedPlugin this = Some (length before, g) /\
  (forall i argument,
      In (GetDefaultArtifactId i argument) (fst (generate this)) ->
      i = length before /\
      exists platform,
        In platform (Project.platforms (project this)) /\
        argument = generatorArgument this platform) /\
  (falsy (ArtifactConfiguration.id (config this)) ->
   forall template data,
     In (RenderTemplate template data) (fst (generate this)) ->
     exists platform,
       In platform (Project.platforms (project this)) /\
       template = g (generatorArgument this platform)) /\
  (falsy (ArtifactConfiguration.id (config this)) ->
   forall platform rest,
     Project.platforms (project this) = platform :: rest ->
     In (GetDefaultArtifactId (length before) (generatorArgument this platform))
        (fst (generate this))) /\
  (forall before',
      map Plugin.processArtifactMetadata before' = map Plugin.processArtifactMetadata before ->
      generate (withPlugins this (before' ++ plugin :: after)) = generate this).
Proof.
  intros Hplugins Hg Hafter.
  assert (Hrec : recordedPlugin this = Some (length before, g)).
  { unfold recordedPlugin. rewrite Hplugins.
    apply (pluginLoop_last before 0 _ None plugin after g Hg Hafter). }
  split; [exact Hrec|]. split; [|split; [|split]].
  - intros i argument He.
    destruct (generate_events _ _ He) as [[j Hj]|[(p & Hp & Hin)|[path Hpath]]];
      try discriminate.
    unfold platformEvents in Hin. apply in_app_or in Hin. destruct Hin as [Hin|Hin].
    + destruct (idTemplateFor_events _ _ _ _ Hin) as (j & g' & Hd & Hj).
      rewrite Hrec in Hd. injection Hd as <- <-. injection Hj as -> ->. eauto.
    + destruct Hin as [Hin|[Hin|[Hin|[]]]]; discriminate.
  - intros Hf template data He.
    destruct (generate_renders _ _ _ He) as (platform & Hp & _ & ->).
    exists platform. split; [exact Hp|].
    exact (proj1 (proj2 (idTemplateFor_rule this platform))
             Hf before plugin after g Hplugins Hg Hafter).
  - intros Hf platform rest Hplatforms.
    assert (Hin : In (GetDefaultArtifactId (length before) (generatorArgument this platform))
                     (fst (platformLoop this (recordedPlugin this) (platform :: rest)))).
    { rewrite platformLoop_cons.
      assert (Hid : In (GetDefaultArtifactId (length before) (generatorArgument this platform))
                       (fst (idTemplateFor this (recordedPlugin this) platform))).
      { destruct (idTemplateFor_cases this (recordedPlugin this) platform)
          as [(id & Hid & Hne & E)|[(_ & i & g' & Hd & E)|(_ & Hd & E)]].
        - destruct (falsy_not _ _ Hid Hne Hf).
        - rewrite Hrec in Hd. injection Hd as <- <-. rewrite E. now left.
        - rewrite Hrec in Hd. discriminate. }
      destruct (walkReturns _ platform); cbn [fst]; unfold platformEvents;
        rewrite <- ?app_assoc; apply in_or_app; now left. }
    rewrite <- Hplatforms in Hin.
    rewrite generate_unfold. cbv zeta.
    destruct (snd (platformLoop this _ _)); cbn [fst];
      apply in_or_app; right; [apply in_or_app; left|]; exact Hin.
  - intros before' Hhooks.
    assert (Hloop : pluginLoop 0 (before' ++ plugin :: after) (initialMetadata this) None
                    = pluginLoop 0 (Project.plugins (project this)) (initialMetadata this) None).
    { rewrite Hplugins.
      apply injective_projections.
      - apply pluginLoop_hooks. rewrite !map_app. now rewrite Hhooks.
      - rewrite !(pluginLoop_last _ 0 _ None plugin after g Hg Hafter).
        f_equal. f_equal. f_equal.
        rewrite <- (length_map Plugin.processArtifactMetadata before'), Hhooks.
        apply length_map. }
    set (this' := withPlugins this (before' ++ plugin :: after)).
    assert (E1 : recordedPlugin this' = recordedPlugin this)
      by exact (f_equal snd Hloop).
    assert (E2 : fst (pluginLoop 0 (Project.plugins (project this'))
                                 (initialMetadata this') None)
                 = fst (pluginLoop 0 (Project.plugins (project this))
                                   (initialMetadata this) None))
      by exact (f_equal fst Hloop).
    rewrite !generate_unfold. cbv zeta. rewrite E1, E2.
    unfold this'. rewrite platformLoop_withPlugins. reflexivity.
Qed.

End GenerateFacts.

(** ** A worked project *)

Section Example.

Import Artifact.

Lemma exampleArtifact_new specified plugins :
  new exampleConfig (exampleProject specified plugins) = Ok (exampleArtifact specified plugins).
Proof. reflexivity. Qed.

End Example.

Section GenerateRuns.

Import Artifact.

Local Abbreviation run := (Artifact.generate exampleRelative exampleWalk).

(** C5 on the example without plugins: the id of the first platform is
    rendered from the literal for platform-specified projects. *)
Lemma generate_artifact_id_witness :
  let this := exampleArtifact true [] in
  In (RenderTemplate "{name}-{platform}" (VObj {[ "platform" := VStr "linux" ]}))
     (fst (run this)) /\
  exists platform,
    In platform [linux; win32] /\
    VObj {[ "platform" := VStr "linux" ]} = platformOnly this platform /\
    idTemplateRule this platform "{name}-{platform}".
Proof.
  intros this.
  assert (Hin : In (RenderTemplate "{name}-{platform}" (VObj {[ "platform" := VStr "linux" ]}))
                   (fst (run this))) by (vm_compute; now left).
  split; [exact Hin|].
  exact (proj1 (generate_artifact_id exampleRelative exampleWalk this) _ _ Hin).
Defined.

(** C5 as stated fails on a project with the single platform [linux],
    specified: the data object holds the platform's name and none of its
    variables, and the literal is ["{name}-{platform}"] although only one
    platform is in play.  On a project left to the host platform the data
    object binds [platform] to [undefined], not to the platform's name. *)
Lemma generate_id_data_counterexample :
  Project.platforms (project linuxOnly) = [linux] /\
  Project.platformSpecified (project linuxOnly) = true /\
  fst (run linuxOnly)
  = [RenderTemplate "{name}-{platform}" (VObj {[ "platform" := VStr "linux" ]});
     Walk [readme; tools] linux;
     WriteArchive "dist/app-linux.zip";
     WriteMetadata "dist/app.json"] /\
  claimedLiteral linuxOnly = "{name}" /\
  VObj {[ "platform" := VStr "linux" ]} <> claimedIdData linux /\
  ~ (forall template data,
        In (RenderTemplate template data) (fst (run linuxOnly)) ->
        exists platform,
          In platform (Project.platforms (project linuxOnly)) /\
          data = claimedIdData platform) /\
  ~ (forall template data,
        In (RenderTemplate template data) (fst (run linuxOnly)) ->
        template = claimedLiteral linuxOnly) /\
  Project.platforms (project hostOnly) = [PlatformInfo.mk "linux" None None] /\
  Project.platformSpecified (project hostOnly) = false /\
  ~ (forall template data,
        In (RenderTemplate template data) (fst (run hostOnly)) ->
        exists platform,
          In platform (Project.platforms (project hostOnly)) /\
          data = claimedIdData platform).
Proof.
  assert (Hne : VObj {[ "platform" := VStr "linux" ]} <> claimedIdData linux).
  { intros H. apply (f_equal (fun x => Template.getProp x "arch")) in H.
    vm_compute in H. discriminate. }
  assert (Hlinux : In (RenderTemplate "{name}-{platform}" (VObj {[ "platform" := VStr "linux" ]}))
                      (fst (run linuxOnly))) by (vm_compute; now left).
  split; [reflexivity|]. split; [reflexivity|]. split; [vm_compute; reflexivity|].
  split; [reflexivity|]. split; [exact Hne|]. split; [|split].
  - intros H. destruct (H _ _ Hlinux) as (platform & [<-|[]] & Hd). exact (Hne Hd).
  - intros H. specialize (H _ _ Hlinux). discriminate.
  - split; [reflexivity|]. split; [reflexivity|].
    intros H.
    destruct (H "{name}" (VObj {[ "platform" := VUndefined ]})) as (platform & [<-|[]] & Hd).
    { vm_compute. now left. }
    apply (f_equal (fun x => Template.getProp x "platform")) in Hd.
    vm_compute in Hd. discriminate.
Qed.

(** C9 on the example: the mapping restricted to [linux] is walked for
    [linux] only, the unrestricted one for both platforms. *)
Lemma generate_walks_active_mappings_witness :
  walksOf (fst (run (exampleArtifact true [])))
  = [([readme; tools], linux); ([readme], win32)].
Proof.
  pose proof (generate_walks_active_mappings exampleRelative exampleWalk
                (exampleArtifact true [])) as (_ & _ & Hall & Hdone).
  destruct (Hdone (fun _ _ => eq_refl)) as [metadata Hm].
  rewrite (Hall metadata Hm). vm_compute. reflexivity.
Defined.

(** C10 on the example: of the two plugins with a generator, the second is
    recorded and called. *)
Lemma generate_uses_last_default_id_plugin_witness :
  let this := exampleArtifact true [pluginA; pluginB; pluginC] in
  recordedPlugin this = Some (1, genB) /\
  In (GetDefaultArtifactId 1 (Some linux)) (fst (run this)) /\
  run (withPlugins this [pluginC; pluginB; pluginC]) = run this.
Proof.
  intros this.
  pose proof (generate_uses_last_default_id_plugin exampleRelative exampleWalk
                this [pluginA] [pluginC] pluginB genB eq_refl eq_refl) as H.
  destruct H as (Hrec & _ & _ & Hcall & Hsame).
  { intros p [<-|[]]. reflexivity. }
  split; [exact Hrec|]. split.
  - exact (Hcall (or_introl eq_refl) linux [win32] eq_refl).
  - exact (Hsame [pluginC] eq_refl).
Defined.

End GenerateRuns.

(** ** The distribute command *)

Section DistributeFacts.

Import Distribute.

Lemma configNames_cons config configs name :
  ProjectConfiguration.name config = Some name ->
  configNames (config :: configs) = name :: configNames configs.
Proof. intros H. unfold configNames. simpl. now rewrite H. Qed.

(** What a successful registration leaves in the map, and what it has
    checked. *)
Lemma register_selected (configs : list ProjectConfiguration.t) : forall m m',
  register configs m = Selected m' ->
  Forall named configs /\
  NoDup (configNames configs) /\
  (forall name, In name (configNames configs) -> m !! name = None) /\
  (forall name config,
      m' !! name = Some config <->
      m !! name = Some config \/
      (In config configs /\ ProjectConfiguration.name config = Some name)).
Proof.
  induction configs as [|c rest IH]; intros m m' H.
  - injection H as <-. repeat split; try constructor; try tauto.
    + intros name [].
    + intros [H|[[] _]]; exact H.
  - simpl in H.
    destruct (ProjectConfiguration.name c) as [n|] eqn:Hn; [|discriminate].
    destruct (JS.truthy n) eqn:Ht; [|discriminate]. simpl in H.
    destruct (m !! n) as [old|] eqn:Hm; [discriminate|].
    destruct (IH _ _ H) as (Hnamed & Hnodup & Hfresh & Hmap).
    apply truthy_true in Ht.
    rewrite (configNames_cons _ _ _ Hn).
    split; [constructor; [exists n; auto | exact Hnamed]|].
    assert (Hnotin : ~ In n (configNames rest)).
    { intros Hin. specialize (Hfresh n Hin). now rewrite lookup_insert_eq in Hfresh. }
    split; [apply NoDup_cons; split; [now rewrite list_elem_of_In | exact Hnodup]|].
    split.
    + intros name [<-|Hin]; [exact Hm|].
      specialize (Hfresh name Hin).
      destruct (decide (n = name)) as [<-|Hne]; [tauto|].
      now rewrite lookup_insert_ne in Hfresh.
    + intros name config. rewrite Hmap. split.
      * intros [Hl|[Hin Hname]].
        -- destruct (decide (n = name)) as [<-|Hne].
           ++ rewrite lookup_insert_eq in Hl. injection Hl as <-. right. split; [now left | exact Hn].
           ++ rewrite lookup_insert_ne in Hl by exact Hne. now left.
        -- right. split; [now right | exact Hname].
      * intros [Hl|[[<-|Hin] Hname]].
        -- left. destruct (decide (n = name)) as [<-|Hne]; [congruence|].
           now rewrite lookup_insert_ne.
        -- left. rewrite Hn in Hname. injection Hname as <-. apply lookup_insert_eq.
        -- right. split; assumption.
Qed.

(** Registration succeeds on named configurations with fresh, distinct
    names. *)
Lemma register_succeeds (configs : list ProjectConfiguration.t) : forall m,
  Forall named configs -> NoDup (configNames configs) ->
  (forall name, In name (configNames configs) -> m !! name = None) ->
  exists m', register configs m = Selected m'.
Proof.
  induction configs as [|c rest IH]; intros m Hnamed Hnodup Hfresh; [simpl; eauto|].
  inversion Hnamed as [|? ? (n & Hn & Hne) Hrest]; subst.
  rewrite (configNames_cons _ _ _ Hn) in *.
  apply NoDup_cons in Hnodup. destruct Hnodup as [Hnotin Hnodup].
  simpl. rewrite Hn. apply truthy_true in Hne. rewrite Hne. simpl.
  rewrite (Hfresh n (or_introl eq_refl)).
  apply IH; [exact Hrest | exact Hnodup|].
  intros name Hin. rewrite lookup_insert_ne.
  - apply Hfresh. now right.
  - intros <-. apply Hnotin. now apply list_elem_of_In.
Qed.

(** Why a registration fails. *)
Lemma register_failed (configs : list ProjectConfiguration.t) : forall m e,
  register configs m = Failed e ->
  (e = ProjectNameRequired /\
   exists config, In config configs /\ ~ named config) \/
  (exists name config,
      e = DuplicatedProjectName name /\ In config configs /\
      ProjectConfiguration.name config = Some name /\
      (is_Some (m !! name) \/
       exists before other between after,
         configs = before ++ other :: between ++ config :: after /\
         ProjectConfiguration.name other = Some name)).
Proof.
  induction configs as [|c rest IH]; intros m e H; [discriminate|].
  simpl in H.
  destruct (ProjectConfiguration.name c) as [n|] eqn:Hn.
  2:{ injection H as <-. left. split; [reflexivity|]. exists c. split; [now left|].
      intros (n & Hn' & _). congruence. }
  destruct (JS.truthy n) eqn:Ht; simpl in H.
  2:{ injection H as <-. left. split; [reflexivity|]. exists c. split; [now left|].
      intros (n' & Hn' & Hne). apply truthy_false in Ht. congruence. }
  destruct (m !! n) as [old|] eqn:Hm.
  { injection H as <-. right. exists n, c. repeat split; [now left | exact Hn | left; eauto]. }
  destruct (IH _ _ H) as [(-> & config & Hin & Hnot)|(name & config & -> & Hin & Hname & Hdup)].
  - left. split; [reflexivity|]. exists config. split; [now right | exact Hnot].
  - right. exists name, config. repeat split; [now right | exact Hname|].
    destruct Hdup as [Hsome|(before & other & between & after & -> & Hother)].
    + destruct (decide (n = name)) as [<-|Hne].
      * right. apply in_split in Hin. destruct Hin as (l1 & l2 & ->).
        exists [], c, l1, l2. split; [reflexivity | exact Hn].
      * rewrite lookup_insert_ne in Hsome by exact Hne. now left.
    + right. exists (c :: before), other, between, after. split; [reflexivity | exact Hother].
Qed.

Lemma pick_selected m (names : list string) : forall configs,
  pick m names = Selected configs <->
  Forall2 (fun name config => m !! name = Some config) names configs.
Proof.
  induction names as [|n rest IH]; intros configs; simpl.
  - split; [intros H; injection H as <-; constructor | intros H; now inversion H].
  - destruct (m !! n) as [c|] eqn:Hm.
    + destruct (pick m rest) as [sel|e] eqn:Hp.
      * split.
        -- intros H. injection H as <-. constructor; [exact Hm | now apply IH].
        -- intros H. inversion H as [|? c' ? sel' Hc Hsel]; subst.
           apply IH in Hsel. congruence.
      * split; [discriminate|]. intros H. inversion H as [|? c' ? sel' Hc Hsel]; subst.
        apply IH in Hsel. discriminate.
    + split; [discriminate|]. intros H. inversion H; congruence.
Qed.

Lemma pick_failed m (names : list string) : forall e,
  pick m names = Failed e ->
  exists name, e = ProjectDoesNotExist name /\ In name names /\ m !! name = None.
Proof.
  induction names as [|n rest IH]; intros e H; simpl in H; [discriminate|].
  destruct (m !! n) as [c|] eqn:Hm.
  - destruct (pick m rest) as [sel|e'] eqn:Hp; [discriminate|].
    injection H as <-. destruct (IH _ eq_refl) as (name & -> & Hin & Hnone).
    exists name. split; [reflexivity|]. split; [now right | exact Hnone].
  - injection H as <-. exists n. split; [reflexivity|]. split; [now left | exact Hm].
Qed.

(** X1.  When the command selects, it selects every configuration of the
    file, in file order, if no name is given; and otherwise one configuration
    per given name, in the order of the names, each a configuration of the
    file that carries that name. *)
Theorem selectConfigs_selected exported (names : list string) selected :
  selectConfigs exported names = Selected selected ->
  (names = [] -> selected = toArray exported) /\
  (names <> [] ->
   Forall2 (fun name config =>
              In config (toArray exported) /\
              ProjectConfiguration.name config = Some name)
           names selected).
Proof.
  unfold selectConfigs. intros H.
  destruct (register (toArray exported) ∅) as [m|e] eqn:Hr; [|discriminate].
  destruct (register_selected _ _ _ Hr) as (_ & _ & _ & Hmap).
  destruct names as [|n rest].
  - injection H as <-. split; [reflexivity | congruence].
  - split; [discriminate|]. intros _.
    apply pick_selected in H.
    eapply Forall2_impl; [exact H|].
    intros name config Hl. apply Hmap in Hl.
    destruct Hl as [Hl|Hl]; [now rewrite lookup_empty in Hl | exact Hl].
Qed.

(** X1 on a file of two projects, asked for in the other order and one of
    them twice. *)
Lemma selectConfigs_selected_witness :
  let a := configNamed (Some "a") in
  let b := configNamed (Some "b") in
  selectConfigs (ManyConfigs [a; b]) ["b"; "a"; "b"] = Selected [b; a; b] /\
  Forall2 (fun name config =>
             In config [a; b] /\ ProjectConfiguration.name config = Some name)
          ["b"; "a"; "b"] [b; a; b].
Proof.
  intros a b.
  assert (H : selectConfigs (ManyConfigs [a; b]) ["b"; "a"; "b"] = Selected [b; a; b])
    by (vm_compute; reflexivity).
  split; [exact H|].
  exact (proj2 (selectConfigs_selected _ _ _ H) ltac:(discriminate)).
Defined.

(** X2.  The command selects exactly when every configuration of the file,
    requested or not, has a non-empty name, no two share a name, and every
    requested name is the name of a configuration. *)
Theorem selectConfigs_selects_iff exported (names : list string) :
  selects exported names <->
  Forall named (toArray exported) /\
  NoDup (configNames (toArray exported)) /\
  (forall name, In name names ->
                exists config, In config (toArray exported) /\
                               ProjectConfiguration.name config = Some name).
Proof.
  unfold selects, selectConfigs. split.
  - intros [selected H].
    destruct (register (toArray exported) ∅) as [m|e] eqn:Hr; [|discriminate].
    destruct (register_selected _ _ _ Hr) as (Hnamed & Hnodup & _ & Hmap).
    split; [exact Hnamed|]. split; [exact Hnodup|].
    intros name Hin. destruct names as [|n rest]; [destruct Hin|].
    apply pick_selected in H.
    apply list_elem_of_In, list_elem_of_lookup in Hin. destruct Hin as [i Hi].
    destruct (Forall2_lookup_l _ _ _ _ _ H Hi) as (config & _ & Hl).
    apply Hmap in Hl. destruct Hl as [Hl|Hl]; [now rewrite lookup_empty in Hl|].
    exists config. exact Hl.
  - intros (Hnamed & Hnodup & Hexists).
    destruct (register_succeeds (toArray exported) ∅ Hnamed Hnodup) as [m Hr].
    { intros name _. apply lookup_empty. }
    rewrite Hr. destruct names as [|n rest]; [eauto|].
    destruct (register_selected _ _ _ Hr) as (_ & _ & _ & Hmap).
    destruct (pick m (n :: rest)) as [selected|e] eqn:Hp; [eauto|].
    destruct (pick_failed _ _ _ Hp) as (name & _ & Hin & Hnone).
    destruct (Hexists name Hin) as (config & Hc & Hname).
    assert (Hl : m !! name = Some config) by (apply Hmap; right; auto).
    congruence.
Qed.

(** X2 on a file whose second, unrequested project has no name. *)
Lemma selectConfigs_selects_iff_witness :
  ~ selects (ManyConfigs [configNamed (Some "a"); configNamed None]) ["a"].
Proof.
  intros H.
  apply (proj1 (selectConfigs_selects_iff _ _)) in H.
  destruct H as (Hnamed & _). inversion Hnamed as [|? ? _ Hrest]; subst.
  inversion Hrest as [|? ? (name & Hname & _) _]; subst. discriminate.
Defined.

(** X3.  What each error of the command means: a missing name is the
    missing or empty name of a configuration of the file; a duplicated name
    is carried by two configurations of the file; a project that does not
    exist is a requested name that no configuration carries, in a file that is
    otherwise well named. *)
Theorem selectConfigs_failed exported (names : list string) e :
  selectConfigs exported names = Failed e ->
  match e with
  | ProjectNameRequired =>
      exists config, In config (toArray exported) /\ ~ named config
  | DuplicatedProjectName name =>
      exists before other between config after,
        toArray exported = before ++ other :: between ++ config :: after /\
        ProjectConfiguration.name other = Some name /\
        ProjectConfiguration.name config = Some name
  | ProjectDoesNotExist name =>
      In name names /\
      (forall config, In config (toArray exported) ->
                      ProjectConfiguration.name config <> Some name) /\
      Forall named (toArray exported) /\
      NoDup (configNames (toArray exported))
  end.
Proof.
  unfold selectConfigs. intros H.
  destruct (register (toArray exported) ∅) as [m|e'] eqn:Hr.
  - destruct (register_selected _ _ _ Hr) as (Hnamed & Hnodup & _ & Hmap).
    destruct names as [|n rest]; [discriminate|].
    destruct (pick_failed _ _ _ H) as (name & -> & Hin & Hnone).
    split; [exact Hin|]. split; [|split; assumption].
    intros config Hc Hname.
    assert (Hl : m !! name = Some config) by (apply Hmap; right; auto).
    congruence.
  - injection H as <-.
    destruct (register_failed _ _ _ Hr)
      as [(-> & config & Hin & Hnot)|(name & config & -> & Hin & Hname & Hdup)].
    + eauto.
    + destruct Hdup as [[old Hold]|(before & other & between & after & Heq & Hother)].
      * now rewrite lookup_empty in Hold.
      * exists before, other, between, config, after. auto.
Qed.

(** X3 on a file with the same name twice. *)
Lemma selectConfigs_failed_witness :
  let a := configNamed (Some "a") in
  exists before other between config after,
    [a; configNamed (Some "b"); a] = before ++ other :: between ++ config :: after /\
    ProjectConfiguration.name other = Some "a" /\
    ProjectConfiguration.name config = Some "a".
Proof.
  intros a.
  exact (selectConfigs_failed (ManyConfigs [a; configNamed (Some "b"); a]) []
           (DuplicatedProjectName "a") eq_refl).
Defined.

End DistributeFacts.

(** ** The mappings an artifact holds *)

Section ArtifactMappingFacts.

Import Artifact.

(** What a successful normalization returns, field by field. *)
Lemma normalizeMapping_ok config mapping :
  normalizeMapping config = Ok mapping ->
  Artifact.pattern (readMapping config) = Some (FileMapping.pattern mapping) /\
  FileMapping.pattern mapping <> "" /\
  JS.endsWith (FileMapping.pattern mapping) Path.sep = false /\
  FileMapping.package mapping = Artifact.packageName (readMapping config) /\
  FileMapping.baseDir mapping = Artifact.baseDir (readMapping config) /\
  FileMapping.platformSet mapping = Artifact.platformSet (readMapping config).
Proof.
  unfold normalizeMapping. intros H.
  pose proof (checkMapping_cases (readMapping config)) as Hc.
  destruct (Artifact.pattern (readMapping config)) as [pat|]; [|congruence].
  destruct (String.eqb_spec pat "") as [E|Hne]; [congruence|].
  destruct (JS.endsWith pat Path.sep) eqn:Hdir; [congruence|].
  cbv zeta in Hc.
  destruct (JS.endsWith (default pat (path (readMapping config))) Path.sep).
  - destruct (String.eqb (Path.basename pat) "**" &&
              String.eqb (Path.basename (default pat (path (readMapping config)))) "**");
      [congruence|].
    rewrite Hc in H. injection H as <-. simpl. repeat split; auto.
  - rewrite Hc in H. injection H as <-. simpl. repeat split; auto.
Qed.

Lemma normalizeMappings_ok (files : list FileMappingConfiguration) : forall mappings,
  normalizeMappings files = Ok mappings <->
  Forall2 (fun file mapping => normalizeMapping file = Ok mapping) files mappings.
Proof.
  induction files as [|file rest IH]; intros mappings; simpl.
  - split; [intros H; injection H as <-; constructor | intros H; now inversion H].
  - destruct (normalizeMapping file) as [m|e] eqn:Hm.
    + destruct (normalizeMappings rest) as [ms|e] eqn:Hr.
      * split.
        -- intros H. injection H as <-. constructor; [exact Hm | now apply IH].
        -- intros H. inversion H as [|? m' ? ms' Hm' Hms']; subst.
           apply IH in Hms'. congruence.
      * split; [discriminate|]. intros H. inversion H as [|? m' ? ms' Hm' Hms']; subst.
        apply IH in Hms'. discriminate.
    + split; [discriminate|]. intros H. inversion H; congruence.
Qed.

Lemma normalizeMappings_cons file rest :
  normalizeMappings (file :: rest) =
    match normalizeMapping file with
    | Throw e => Throw e
    | Ok mapping =>
        match normalizeMappings rest with
        | Throw e => Throw e
        | Ok mappings => Ok (mapping :: mappings)
        end
    end.
Proof. reflexivity. Qed.

Lemma normalizeMappings_throw (files : list FileMappingConfiguration) : forall e,
  normalizeMappings files = Throw e <->
  exists before file after,
    files = before ++ file :: after /\
    Forall (fun f => exists mapping, normalizeMapping f = Ok mapping) before /\
    normalizeMapping file = Throw e.
Proof.
  induction files as [|file rest IH]; intros e.
  - split; [discriminate|]. intros (before & f & after & H & _). now destruct before.
  - rewrite normalizeMappings_cons. split.
    + intros H. destruct (normalizeMapping file) as [m|e'] eqn:Hm.
      * destruct (normalizeMappings rest) as [ms|e''] eqn:Hr; [discriminate|].
        injection H as ->.
        destruct (proj1 (IH e) eq_refl) as (before & f & after & -> & Hbefore & Hf).
        exists (file :: before), f, after. split; [reflexivity|]. split; [|exact Hf].
        constructor; [eauto | exact Hbefore].
      * injection H as ->. exists [], file, rest.
        split; [reflexivity|]. split; [constructor | exact Hm].
    + intros (before & f & after & Heq & Hbefore & Hf).
      destruct before as [|b before]; simpl in Heq; injection Heq as <- ->.
      * now rewrite Hf.
      * inversion Hbefore as [|? ? [m Hm] Hrest]; subst. rewrite Hm.
        assert (Hr : normalizeMappings (before ++ f :: after) = Throw e)
          by (apply IH; eauto 6).
        now rewrite Hr.
Qed.

(** X4.  A constructed artifact holds one mapping per configured entry, in
    order, each the normalization of its entry; none of them has an empty
    pattern or a pattern that ends in a path separator. *)
Theorem new_mappings_invariant config project this :
  new config project = Ok this ->
  Artifact.config this = config /\ Artifact.project this = project /\
  exists files,
    ArtifactConfiguration.files config = Some files /\
    Forall2 (fun file mapping => normalizeMapping file = Ok mapping) files (mappings this) /\
    Forall (fun mapping =>
              FileMapping.pattern mapping <> "" /\
              JS.endsWith (FileMapping.pattern mapping) Path.sep = false)
           (mappings this).
Proof.
  unfold new. intros H.
  destruct (ArtifactConfiguration.files config) as [files|]; [|discriminate].
  destruct (normalizeMappings files) as [ms|e] eqn:Hn; [|discriminate].
  injection H as <-. split; [reflexivity|]. split; [reflexivity|].
  exists files. split; [reflexivity|].
  apply normalizeMappings_ok in Hn. split; [exact Hn|]. simpl.
  clear -Hn. induction Hn as [|file m files ms Hm _ IH]; constructor; [|exact IH].
  destruct (normalizeMapping_ok _ _ Hm) as (_ & H1 & H2 & _). auto.
Qed.

(** X4 on the example project. *)
Lemma new_mappings_invariant_witness :
  Forall (fun mapping =>
            FileMapping.pattern mapping <> "" /\
            JS.endsWith (FileMapping.pattern mapping) Path.sep = false)
         [readme; tools].
Proof.
  destruct (new_mappings_invariant exampleConfig (exampleProject true [])
              (exampleArtifact true []) eq_refl) as (_ & _ & files & _ & _ & H).
  exact H.
Defined.

(** X5.  The constructor throws in exactly two ways: for a configuration
    without [files], with the missing-files error; and for the first entry
    whose normalization throws, with that entry's error, all entries before
    it being normalized without error. *)
Theorem new_throws config project e :
  new config project = Throw e <->
  (ArtifactConfiguration.files config = None /\ e = MissingFiles) \/
  (exists before file after,
      ArtifactConfiguration.files config = Some (before ++ file :: after) /\
      Forall (fun f => exists mapping, normalizeMapping f = Ok mapping) before /\
      normalizeMapping file = Throw e).
Proof.
  unfold new.
  destruct (ArtifactConfiguration.files config) as [files|].
  - destruct (normalizeMappings files) as [ms|e'] eqn:Hn.
    + split; [discriminate|].
      intros [[H _]|(before & file & after & Heq & Hbefore & Hf)]; [discriminate|].
      injection Heq as ->.
      assert (H : normalizeMappings (before ++ file :: after) = Throw e)
        by (apply normalizeMappings_throw; eauto 6).
      congruence.
    + split.
      * intros H. injection H as ->. right.
        apply normalizeMappings_throw in Hn.
        destruct Hn as (before & file & after & -> & Hbefore & Hf). eauto 6.
      * intros [[H _]|(before & file & after & Heq & Hbefore & Hf)]; [discriminate|].
        injection Heq as ->.
        assert (H : normalizeMappings (before ++ file :: after) = Throw e)
          by (apply normalizeMappings_throw; eauto 6).
        congruence.
  - split.
    + intros H. injection H as <-. now left.
    + intros [[_ ->]|(before & file & after & Heq & _)]; [reflexivity | discriminate].
Qed.

(** X5 on a list whose second entry is a directory pattern. *)
Lemma new_throws_witness :
  new (ArtifactConfiguration.mk None None None
         (Some [MappingString "a.txt"; MappingString "lib/"; MappingString "b.txt"]))
      (exampleProject true [])
  = Throw PatternIsDirectory.
Proof.
  apply new_throws. right. exists [MappingString "a.txt"], (MappingString "lib/"),
    [MappingString "b.txt"].
  split; [reflexivity|]. split; [|reflexivity].
  constructor; [|constructor]. eexists. reflexivity.
Defined.

(** X6.  A bare string entry is shorthand for the descriptor that has it
    as its only field, [pattern]: both normalize to the same mapping or throw
    the same error.  The empty string is the one exception: as a bare entry
    it is normalized to the pattern ["."], as a descriptor's pattern it is
    rejected as missing. *)
Theorem normalizeMapping_shorthand (s : string) :
  (s <> "" ->
   normalizeMapping (MappingString s)
   = normalizeMapping
       (MappingDescriptor (FileMappingDescriptor.mk (Some s) None None None None None))) /\
  normalizeMapping (MappingString "") = Ok (FileMapping.mk None None "." "." None) /\
  normalizeMapping
    (MappingDescriptor (FileMappingDescriptor.mk (Some "") None None None None None))
  = Throw PatternRequired.
Proof.
  split; [|split; reflexivity].
  intros Hne. apply truthy_true in Hne.
  unfold normalizeMapping, readMapping, andNormalize. simpl. now rewrite Hne.
Qed.

(** X6 on a nested file pattern. *)
Lemma normalizeMapping_shorthand_witness :
  normalizeMapping
    (MappingDescriptor
       (FileMappingDescriptor.mk (Some "./bin/../lib/*.js") None None None None None))
  = Ok (FileMapping.mk None None "lib/*.js" "lib/*.js" None).
Proof.
  rewrite <- (proj1 (normalizeMapping_shorthand "./bin/../lib/*.js") ltac:(discriminate)).
  reflexivity.
Defined.

(** X7.  On which platforms a normalized descriptor is active: when the
    descriptor lists [platforms], on exactly the platforms named in the list,
    whatever its [platform] field says (on none when the list is empty);
    otherwise, when [platform] is a non-empty string, on exactly the platforms
    of that name; otherwise on every platform.  A bare string entry is active
    on every platform. *)
Theorem normalized_mapping_active_on config mapping (target : PlatformInfo.t) :
  normalizeMapping config = Ok mapping ->
  (isActiveOn target mapping = true <->
   match config with
   | MappingString _ => True
   | MappingDescriptor d =>
       match FileMappingDescriptor.platforms d with
       | Some names => In (PlatformInfo.name target) names
       | None =>
           match FileMappingDescriptor.platform d with
           | Some name => name = "" \/ PlatformInfo.name target = name
           | None => True
           end
       end
   end).
Proof.
  intros H. destruct (normalizeMapping_ok _ _ H) as (_ & _ & _ & _ & _ & Hset).
  unfold isActiveOn. rewrite Hset. destruct config as [s|d]; simpl.
  - tauto.
  - destruct (FileMappingDescriptor.platforms d) as [names|].
    + rewrite bool_decide_eq_true, elem_of_list_to_set. apply list_elem_of_In.
    + destruct (FileMappingDescriptor.platform d) as [name|]; [|tauto].
      destruct (JS.truthy name) eqn:Ht.
      * apply truthy_true in Ht.
        rewrite bool_decide_eq_true, elem_of_list_to_set, list_elem_of_In. simpl.
        split; [intros [<-|[]]; now right | intros [E|<-]; [congruence | now left]].
      * apply truthy_false in Ht. split; [now left | reflexivity].
Qed.

(** X7 on a descriptor that gives both fields: [platforms] wins. *)
Lemma normalized_mapping_active_on_witness :
  let d :=
    FileMappingDescriptor.mk (Some "bin/*") None None None
      (Some "win32") (Some ["linux"; "darwin"]) in
  let mapping :=
    FileMapping.mk None None "bin/*" "bin/*" (Some (list_to_set ["linux"; "darwin"])) in
  normalizeMapping (MappingDescriptor d) = Ok mapping /\
  isActiveOn linux mapping = true /\ isActiveOn win32 mapping = false.
Proof.
  intros d mapping.
  assert (H : normalizeMapping (MappingDescriptor d) = Ok mapping) by reflexivity.
  split; [exact H|]. split.
  - apply (normalized_mapping_active_on _ _ linux H). simpl. now left.
  - apply not_true_is_false. intros Ha.
    apply (normalized_mapping_active_on _ _ win32 H) in Ha. simpl in Ha.
    destruct Ha as [Ha|[Ha|[]]]; discriminate.
Defined.

End ArtifactMappingFacts.

(** ** More on platform resolution *)

Section PlatformResolutionFacts.

Import Configuration.

Lemma filter_idempotent {A} (P : A -> Prop) `{!forall x, Decision (P x)} (l : list A) :
  filter P (filter P l) = filter P l.
Proof.
  rewrite list_filter_filter. apply list_filter_iff. intros x. tauto.
Qed.

(** X8.  When [specifier.platforms] is given, the result depends on it only
    as a set of names: specifiers whose lists hold the same names, in any
    order and any number of times, and whatever their [platform] and
    [multiplatform] fields, resolve alike. *)
Theorem getMatchedPlatforms_names_as_set
        (process_platform : string) (specifier specifier' : PlatformSpecifier.t)
        (names names' : list string) (platforms : list PlatformInfo.t) :
  PlatformSpecifier.platforms specifier = Some names ->
  PlatformSpecifier.platforms specifier' = Some names' ->
  (forall name, In name names <-> In name names') ->
  getMatchedPlatforms process_platform specifier platforms
  = getMatchedPlatforms process_platform specifier' platforms.
Proof.
  intros H H' Hsame. unfold getMatchedPlatforms. rewrite H, H'. f_equal.
  apply list_filter_iff. intros x.
  rewrite !elem_of_list_to_set, !list_elem_of_In. apply Hsame.
Qed.

(** X8 on two orders of the same names, with and without repetition. *)
Lemma getMatchedPlatforms_names_as_set_witness :
  getMatchedPlatforms "freebsd"
    (PlatformSpecifier.mk None None (Some ["win32"; "linux"; "win32"])) [linux; win32]
  = getMatchedPlatforms "freebsd"
      (PlatformSpecifier.mk (Some true) (Some "darwin") (Some ["linux"; "win32"]))
      [linux; win32].
Proof.
  apply (getMatchedPlatforms_names_as_set "freebsd" _ _
           ["win32"; "linux"; "win32"] ["linux"; "win32"]); try reflexivity.
  intros name. simpl. tauto.
Defined.

(** X9.  A specified result holds platforms of the input list only, and
    resolving the same specifier against the result gives the result again;
    an unspecified result is the host platform alone, bare of environment and
    variables, and is the same for every input list. *)
Theorem getMatchedPlatforms_stable
        (process_platform : string) (specifier : PlatformSpecifier.t)
        (platforms : list PlatformInfo.t) :
  let result := getMatchedPlatforms process_platform specifier platforms in
  (specified result = true ->
   (forall platform, In platform (Configuration.platforms result) -> In platform platforms) /\
   getMatchedPlatforms process_platform specifier (Configuration.platforms result) = result) /\
  (specified result = false ->
   Configuration.platforms result = [PlatformInfo.mk process_platform None None] /\
   forall platforms',
     getMatchedPlatforms process_platform specifier platforms' = result).
Proof.
  unfold getMatchedPlatforms.
  set (platformNames :=
         match PlatformSpecifier.platforms specifier with
         | Some names => Some names
         | None =>
             match PlatformSpecifier.platform specifier with
             | Some p => if JS.truthy p then Some [p] else None
             | None => None
             end
         end).
  destruct platformNames as [names|].
  - simpl. split; [|discriminate]. intros _. split.
    + intros platform Hin. apply list_elem_of_In in Hin.
      apply list_elem_of_filter in Hin. apply list_elem_of_In. tauto.
    + now rewrite filter_idempotent.
  - destruct (PlatformSpecifier.multiplatform specifier) as [[|]|]; simpl.
    + split; [|discriminate]. intros _. split; [tauto | reflexivity].
    + split; [discriminate|]. intros _. split; reflexivity.
    + split; [discriminate|]. intros _. split; reflexivity.
Qed.

(** X9 on a specifier that selects one platform, and on the empty
    specifier. *)
Lemma getMatchedPlatforms_stable_witness :
  getMatchedPlatforms "freebsd" (PlatformSpecifier.mk None (Some "linux") None) [linux]
  = getMatchedPlatforms "freebsd" (PlatformSpecifier.mk None (Some "linux") None)
      [win32; linux] /\
  getMatchedPlatforms "freebsd" (PlatformSpecifier.mk None None None) [linux; win32]
  = getMatchedPlatforms "freebsd" (PlatformSpecifier.mk None None None) [].
Proof.
  split.
  - exact (proj2 (proj1 (getMatchedPlatforms_stable "freebsd"
                           (PlatformSpecifier.mk None (Some "linux") None) [win32; linux])
                    eq_refl)).
  - exact (proj2 (proj2 (getMatchedPlatforms_stable "freebsd"
                           (PlatformSpecifier.mk None None None) [])
                    eq_refl) [linux; win32]).
Defined.

End PlatformResolutionFacts.

(** ** More on the template renderer *)

Section RenderMoreFacts.

Import Template.

Lemma lacks_append c (a b : string) : lacks c (a +:+ b) = lacks c a && lacks c b.
Proof.
  induction a as [|x a IH]; [reflexivity|].
  rewrite append_cons. simpl. rewrite IH. now rewrite andb_assoc.
Qed.

Lemma matchAt_not_open c r : Ascii.eqb c "{" = false -> matchAt (String c r) = None.
Proof. intros H. now rewrite matchAt_cons, H. Qed.

(** Text without an opening brace is scanned into literals only. *)
Lemma scan_go_lacks (s : string) : forall skip e,
  lacks "{" s = true -> ~ In (Placeholder e) (scan_go skip s).
Proof.
  induction s as [|c r IH]; intros [|k] e H Hin; try destruct Hin.
  - simpl in H. apply andb_true_iff in H. destruct H as [Hc Hr].
    apply negb_true_iff in Hc.
    rewrite scan_go_0, (matchAt_not_open _ _ Hc) in Hin.
    destruct Hin as [Hin|Hin]; [discriminate | exact (IH _ _ Hr Hin)].
  - simpl in H. apply andb_true_iff in H. destruct H as [_ Hr].
    exact (IH _ _ Hr Hin).
Qed.

(** X10.  A template without an opening brace is returned as it is after
    one pass, for every data value: nothing is looked up, so nothing can
    raise. *)
Theorem render_without_braces (template : string) (data : Value) (fuel : nat) :
  lacks "{" template = true -> render (S fuel) template data = Done template.
Proof.
  intros H. apply render_of_fixed. unfold pass.
  rewrite substPieces_all_miss, scan_text; [reflexivity|].
  intros e He. destruct (scan_go_lacks _ _ _ H He).
Qed.

(** X10 on a closing brace without its opening one, over the data [null]. *)
Lemma render_without_braces_witness :
  render 1 "dist/app}-1.0.zip" VNull = Done "dist/app}-1.0.zip".
Proof. apply render_without_braces. reflexivity. Defined.

(** *** One resolved placeholder *)

Lemma scan_go_skip (a : string) : forall X,
  scan_go (String.length a) (a +:+ X) = scan_go 0 X.
Proof.
  induction a as [|c a IH]; intros X; [reflexivity|].
  rewrite append_cons. simpl. apply IH.
Qed.

(** The scan of a placeholder between two stretches of text without an
    opening brace. *)
Lemma scan_around (pre key suf : string) :
  lacks "{" pre = true -> key <> "" -> allExpr key = true ->
  scan (pre +:+ pieceText (Placeholder key) +:+ suf)
  = scan pre ++ Placeholder key :: scan suf.
Proof.
  intros Hpre Hne Hall. unfold scan.
  induction pre as [|c pre IH].
  - rewrite append_nil_l.
    assert (HX : pieceText (Placeholder key) +:+ suf = String "{" (key +:+ String "}" suf)).
    { unfold pieceText. rewrite !append_cons, append_nil_l, append_assoc. reflexivity. }
    rewrite HX, scan_go_0, matchAt_cons. simpl Ascii.eqb. cbv iota.
    rewrite takeExpr_exact by (auto; reflexivity).
    destruct key as [|k key]; [congruence|].
    simpl Ascii.eqb. cbv iota. simpl app. f_equal.
    replace (String.length (String k key) + 1)
      with (String.length (String k key +:+ "}")) by (rewrite append_length; reflexivity).
    replace (String k key +:+ String "}" suf) with ((String k key +:+ "}") +:+ suf)
      by (now rewrite append_assoc).
    apply scan_go_skip.
  - simpl in Hpre. apply andb_true_iff in Hpre. destruct Hpre as [Hc Hpre].
    apply negb_true_iff in Hc.
    rewrite append_cons, !scan_go_0, !(matchAt_not_open _ _ Hc).
    simpl app. f_equal. now apply IH.
Qed.

Lemma substPieces_lacks data (s : string) :
  lacks "{" s = true -> substPieces data (scan s) = Return s.
Proof.
  intros H. rewrite substPieces_all_miss, scan_text; [reflexivity|].
  intros e He. destruct (scan_go_lacks _ _ _ H He).
Qed.

(** One pass over a single resolved placeholder. *)
Lemma pass_around (pre key suf text : string) data node :
  lacks "{" pre = true -> lacks "{" suf = true ->
  key <> "" -> allExpr key = true -> resolvesTo data key node ->
  toString node = Return text ->
  pass (pre +:+ pieceText (Placeholder key) +:+ suf) data
  = Return (pre +:+ text +:+ suf).
Proof.
  intros Hpre Hsuf Hne Hall Hnode Htext. unfold pass.
  rewrite scan_around by assumption.
  rewrite substPieces_app, (substPieces_lacks _ _ Hpre).
  simpl substPieces. unfold replacer. unfold resolvesTo in Hnode. rewrite Hnode, Htext.
  now rewrite (substPieces_lacks _ _ Hsuf).
Qed.

(** X11.  A placeholder that stands between two stretches of text without
    an opening brace, and whose key path resolves to a value that has a string
    form without an opening brace, is replaced by that string form; the text
    around it is kept, and the second pass settles the result.  The string
    forms are those of the language: a safe integer in plain decimal, an
    object without a [toString] of its own as ["[object Object]"]; and a
    string is looked up by [length] and by index like an object by key. *)
Theorem render_substitutes (pre key suf text : string) (data node : Value) (fuel : nat) :
  lacks "{" pre = true -> lacks "{" suf = true ->
  key <> "" -> allExpr key = true ->
  resolvesTo data key node -> toString node = Return text -> lacks "{" text = true ->
  render (2 + fuel) (pre +:+ "{" +:+ key +:+ "}" +:+ suf) data
  = Done (pre +:+ text +:+ suf).
Proof.
  intros Hpre Hsuf Hne Hall Hnode Htext Hvalue.
  assert (Hpass := pass_around pre key suf text data node Hpre Hsuf Hne Hall Hnode Htext).
  assert (Hout : lacks "{" (pre +:+ text +:+ suf) = true).
  { rewrite !lacks_append, Hpre, Hvalue, Hsuf. reflexivity. }
  assert (E : pre +:+ "{" +:+ key +:+ "}" +:+ suf
              = pre +:+ pieceText (Placeholder key) +:+ suf).
  { unfold pieceText. now rewrite !append_assoc. }
  rewrite E.
  change (2 + fuel) with (S (S fuel)).
  rewrite (render_step _ _ _ _ Hpass).
  destruct (String.eqb_spec (pre +:+ text +:+ suf)
                            (pre +:+ pieceText (Placeholder key) +:+ suf)) as [_|_].
  - reflexivity.
  - now apply render_without_braces.
Qed.

(** X11 on a nested key and a number, and on the length of a string. *)
Lemma render_substitutes_witness :
  render 2 "v{pkg.major}.zip"
         (VObj {[ "pkg" := VObj {[ "major" := VNum 12 ]} ]})
  = Done "v12.zip" /\
  render 2 "{name.length} letters" (VObj {[ "name" := VStr "xyz" ]}) = Done "3 letters".
Proof.
  split.
  - apply (render_substitutes "v" "pkg.major" ".zip" "12" _ (VNum 12) 0);
      try reflexivity; discriminate.
  - apply (render_substitutes "" "name.length" " letters" "3" _ (VNum 3) 0);
      try reflexivity; discriminate.
Defined.

(** *** A path through [null] *)

Lemma substPieces_raises data (ps : list Piece) e :
  In (Placeholder e) ps -> walk data (JS.split "." e) = TypeError ->
  substPieces data ps = TypeError.
Proof.
  intros Hin Hw. apply in_split in Hin. destruct Hin as (before & after & ->).
  rewrite substPieces_app. simpl. unfold replacer. rewrite Hw.
  now rewrite andThen_raises_l, andThen_raises_r.
Qed.

Lemma walk_crossesNull data e : crossesNull data e -> walk data (JS.split "." e) = TypeError.
Proof.
  intros (ks & k & rest & -> & Hw). now rewrite (walk_app _ _ _ _ Hw).
Qed.

(** X12.  A placeholder whose key path crosses [null] makes [render] raise:
    [null] is not [undefined], so the walk goes on and the next property
    access throws.  This holds wherever the placeholder stands in the
    template and whatever the other placeholders are. *)
Theorem render_raises_on_null (template : string) (data : Value) expression (fuel : nat) :
  In (Placeholder expression) (scan template) ->
  crossesNull data expression ->
  render (S fuel) template data = Raised.
Proof.
  intros Hin Hnull. simpl. unfold pass.
  now rewrite (substPieces_raises _ _ _ Hin (walk_crossesNull _ _ Hnull)).
Qed.

(** X12 next to a placeholder that resolves. *)
Lemma render_raises_on_null_witness :
  render 1 "{name}-{os.arch}"
         (VObj (list_to_map [("name", VStr "app"); ("os", VNull)]))
  = Raised.
Proof.
  apply (render_raises_on_null _ _ "os.arch").
  - vm_compute. right. right. now left.
  - exists ["os"], "arch", []. split; vm_compute; reflexivity.
Defined.

(** *** A value that refers to itself *)

Lemma split_go_lacks c sep (seg : string) : forall cur,
  lacks c seg = true ->
  JS.split_go (String c sep) 0 cur seg = [cur +:+ seg].
Proof.
  induction seg as [|x seg IH]; intros cur H.
  - now rewrite append_nil_r.
  - simpl in H. apply andb_true_iff in H. destruct H as [Hx Hs].
    apply negb_true_iff in Hx.
    change (JS.split_go (String c sep) 0 cur (String x seg))
      with (if String.prefix (String c sep) (String x seg)
            then cur :: JS.split_go (String c sep) (String.length (String c sep) - 1) "" seg
            else JS.split_go (String c sep) 0 (cur +:+ String x "") seg).
    change (String.prefix (String c sep) (String x seg))
      with (if ascii_dec c x then String.prefix sep seg else false).
    destruct (ascii_dec c x) as [<-|Hne]; [now rewrite Ascii.eqb_refl in Hx|].
    rewrite IH by exact Hs. now rewrite append_assoc.
Qed.

(** A key without a dot is looked up in the data object itself. *)
Lemma resolvesTo_own (fields : gmap string Value) key node :
  lacks "." key = true -> fields !! key = Some node -> node <> VUndefined ->
  resolvesTo (VObj fields) key node.
Proof.
  intros Hkey Hl Hnode. unfold resolvesTo, JS.split.
  rewrite split_go_lacks by exact Hkey. rewrite append_nil_l. simpl. rewrite Hl. simpl.
  now destruct node.
Qed.

(** X13.  No cycle is detected: when the value of a key is the key's own
    placeholder followed by some text, rendering that placeholder never
    returns; every pass makes the template longer. *)
Theorem render_self_reference_diverges
        (fields : gmap string Value) (key tail : string) (fuel : nat) :
  key <> "" -> allExpr key = true -> lacks "." key = true ->
  tail <> "" -> lacks "{" tail = true ->
  fields !! key = Some (VStr ("{" +:+ key +:+ "}" +:+ tail)) ->
  render fuel ("{" +:+ key +:+ "}") (VObj fields) = OutOfFuel.
Proof.
  intros Hne Hall Hdot Htail Hlacks Hl.
  assert (Hnode : resolvesTo (VObj fields) key (VStr ("{" +:+ key +:+ "}" +:+ tail))).
  { apply resolvesTo_own; [exact Hdot | exact Hl | discriminate]. }
  assert (Hgrow : forall fuel suf,
             lacks "{" suf = true ->
             render fuel (pieceText (Placeholder key) +:+ suf) (VObj fields) = OutOfFuel).
  { clear fuel. induction fuel as [|fuel IH]; intros suf Hsuf; [reflexivity|].
    pose proof (pass_around "" key suf _ _ _ eq_refl Hsuf Hne Hall Hnode eq_refl) as Hpass.
    rewrite !append_nil_l in Hpass.
    rewrite (render_step _ _ _ _ Hpass).
    assert (E : ("{" +:+ key +:+ "}" +:+ tail) +:+ suf
                = pieceText (Placeholder key) +:+ (tail +:+ suf)).
    { unfold pieceText. now rewrite !append_assoc. }
    rewrite E.
    destruct (String.eqb_spec (pieceText (Placeholder key) +:+ tail +:+ suf)
                              (pieceText (Placeholder key) +:+ suf)) as [Heq|_].
    - exfalso. apply (f_equal String.length) in Heq.
      rewrite !append_length in Heq.
      destruct tail; [congruence | simpl in Heq; lia].
    - apply IH. now rewrite lacks_append, Hlacks, Hsuf. }
  specialize (Hgrow fuel "" eq_refl). unfold pieceText in Hgrow.
  now rewrite append_nil_r in Hgrow.
Qed.

(** X13 on a version string that builds on itself. *)
Lemma render_self_reference_diverges_witness :
  render 50 "{version}" (VObj {[ "version" := VStr "{version}-beta" ]}) = OutOfFuel.
Proof.
  apply (render_self_reference_diverges _ "version" "-beta");
    try reflexivity; discriminate.
Defined.

End RenderMoreFacts.

(** ** More on path reconstruction *)

Section BuildPathMoreFacts.

Import Artifact.

(** A kept segment: not empty and without separator. *)
Local Abbreviation kept := (fun s : string => s <> "" /\ noSlash s = true).

Lemma noSlash_append (a b : string) : noSlash (a +:+ b) = noSlash a && noSlash b.
Proof.
  induction a as [|x a IH]; [reflexivity|].
  rewrite append_cons. simpl. rewrite IH. now rewrite andb_assoc.
Qed.

(** The pieces of a split on the separator hold no separator. *)
Lemma split_go_pieces (s : string) : forall cur,
  noSlash cur = true -> Forall (fun piece => noSlash piece = true) (JS.split_go "/" 0 cur s).
Proof.
  induction s as [|c r IH]; intros cur Hcur.
  - constructor; [exact Hcur | constructor].
  - change (JS.split_go "/" 0 cur (String c r))
      with (if String.prefix "/" (String c r)
            then cur :: JS.split_go "/" 0 "" r
            else JS.split_go "/" 0 (cur +:+ String c "") r).
    rewrite prefix_slash. destruct (Ascii.eqb c "/") eqn:Hc.
    + constructor; [exact Hcur | now apply IH].
    + apply IH. rewrite noSlash_append, Hcur. simpl. now rewrite Hc.
Qed.

Lemma normalizeStep_kept allow (res : list string) seg :
  Forall kept res -> noSlash seg = true ->
  Forall kept (Path.normalizeStep allow res seg).
Proof.
  intros Hres Hseg. unfold Path.normalizeStep.
  destruct (String.eqb_spec seg "") as [_|Hne]; [exact Hres|].
  destruct (String.eqb_spec seg ".") as [_|_]; [exact Hres|].
  destruct (String.eqb_spec seg "..") as [_|_].
  - destruct res as [|last res']; [destruct allow; repeat constructor; discriminate|].
    destruct (String.eqb last "..").
    + constructor; [split; [discriminate | reflexivity] | exact Hres].
    + now inversion Hres.
  - constructor; [split; assumption | exact Hres].
Qed.

Lemma fold_normalizeStep_kept allow (segs : list string) : forall res,
  Forall kept res -> Forall (fun piece => noSlash piece = true) segs ->
  Forall kept (fold_left (Path.normalizeStep allow) segs res).
Proof.
  induction segs as [|seg segs IH]; intros res Hres Hsegs; [exact Hres|].
  inversion Hsegs; subst. simpl. apply IH; [|assumption].
  now apply normalizeStep_kept.
Qed.

Lemma join_kept_start (segs : list string) :
  Forall kept segs -> JS.startsWith (JS.join "/" segs) "/" = false.
Proof.
  intros H. unfold JS.startsWith. destruct segs as [|hd rest]; [reflexivity|].
  inversion H as [|? ? [Hne Hs] _]; subst.
  destruct hd as [|c hd]; [congruence|].
  simpl in Hs. apply andb_true_iff in Hs. destruct Hs as [Hc _].
  apply negb_true_iff in Hc.
  destruct rest as [|q r].
  - simpl JS.join. now rewrite prefix_slash.
  - rewrite join_cons2, append_cons. now rewrite prefix_slash.
Qed.

(** The output of [normalizeString] never starts with a separator. *)
Lemma normalizeString_start path allow :
  JS.startsWith (Path.normalizeString path allow) "/" = false.
Proof.
  unfold Path.normalizeString. apply join_kept_start.
  apply Forall_rev, fold_normalizeStep_kept; [constructor|].
  apply split_go_pieces. reflexivity.
Qed.

Lemma startsWith_cons c s : JS.startsWith (String c s) "/" = Ascii.eqb c "/".
Proof. unfold JS.startsWith. apply prefix_slash. Qed.

(** A normalized relative path is relative. *)
Lemma normalize_relative path :
  JS.startsWith path "/" = false -> JS.startsWith (Path.normalize path) "/" = false.
Proof.
  intros H. unfold Path.normalize. rewrite H. simpl negb.
  destruct (String.eqb path ""); [reflexivity|].
  pose proof (normalizeString_start path true) as Hs.
  destruct (String.eqb_spec (Path.normalizeString path true) "") as [_|Hne].
  - now destruct (JS.endsWith path "/").
  - destruct (JS.endsWith path "/"); [|exact Hs].
    destruct (Path.normalizeString path true) as [|c r]; [congruence|].
    rewrite append_cons, startsWith_cons. now rewrite startsWith_cons in Hs.
Qed.

(** A normalized absolute path is one separator followed by a relative
    path. *)
Lemma normalize_absolute path :
  JS.startsWith path "/" = true ->
  exists rest, Path.normalize path = String "/" rest /\ JS.startsWith rest "/" = false.
Proof.
  intros H. unfold Path.normalize. rewrite H. simpl negb.
  destruct (String.eqb_spec path "") as [->|_]; [discriminate|].
  pose proof (normalizeString_start path false) as Hs.
  destruct (String.eqb_spec (Path.normalizeString path false) "") as [_|Hne].
  - exists "". split; reflexivity.
  - destruct (JS.endsWith path "/").
    + exists (Path.normalizeString path false +:+ "/"). split; [reflexivity|].
      destruct (Path.normalizeString path false) as [|c r]; [congruence|].
      rewrite append_cons, startsWith_cons. now rewrite startsWith_cons in Hs.
    + exists (Path.normalizeString path false). split; [reflexivity | exact Hs].
Qed.

(** X14.  A destination pattern without [*] is not changed by captures:
    whatever was captured, the result is the normalized pattern. *)
Theorem buildPath_without_wildcards (pattern : string) (captures : list Capture) :
  lacks "*" pattern = true -> buildPath pattern captures = Path.normalize pattern.
Proof.
  intros H. unfold buildPath, JS.split.
  rewrite (split_go_lacks "*" "*" pattern "" H), append_nil_l.
  unfold globStarPhase. simpl JS.join.
  rewrite (split_go_lacks "*" "" pattern "" H), append_nil_l.
  unfold starPhase. simpl JS.join.
  destruct (JS.startsWith pattern Path.sep) eqn:Hs; [reflexivity|].
  unfold Path.sep in *. now rewrite (normalize_relative _ Hs).
Qed.

(** X14 on a fixed destination with captures of both kinds. *)
Lemma buildPath_without_wildcards_witness :
  buildPath "docs//README.md" [SegmentRun ["a"; "b"]; Segment "c"] = "docs/README.md".
Proof.
  rewrite buildPath_without_wildcards by reflexivity. reflexivity.
Defined.

(** *** Rooted results *)

(** The first piece of a split starts with what was pending. *)
Lemma split_go_head sep (s : string) : forall skip cur,
  exists x rest, JS.split_go sep skip cur s = (cur +:+ x) :: rest.
Proof.
  induction s as [|c r IH]; intros skip cur.
  - exists "", []. now rewrite append_nil_r.
  - destruct skip as [|k]; [|apply IH].
    change (JS.split_go sep 0 cur (String c r))
      with (if String.prefix sep (String c r)
            then cur :: JS.split_go sep (String.length sep - 1) "" r
            else JS.split_go sep 0 (cur +:+ String c "") r).
    destruct (String.prefix sep (String c r)).
    + exists "". eexists. now rewrite append_nil_r.
    + destruct (IH 0 (cur +:+ String c "")) as (x & rest & ->).
      exists (String c x), rest. now rewrite append_assoc.
Qed.

(** Splitting a rooted string on stars leaves a rooted first piece. *)
Lemma split_star_rooted sep (r : string) :
  exists x rest, JS.split (String "*" sep) (String "/" r) = String "/" x :: rest.
Proof.
  unfold JS.split.
  change (JS.split_go (String "*" sep) 0 "" (String "/" r))
    with (if String.prefix (String "*" sep) (String "/" r)
          then "" :: JS.split_go (String "*" sep) (String.length (String "*" sep) - 1) "" r
          else JS.split_go (String "*" sep) 0 ("" +:+ String "/" "") r).
  change (String.prefix (String "*" sep) (String "/" r))
    with (if ascii_dec "*" "/" then String.prefix sep r else false).
  destruct (ascii_dec "*" "/") as [E|_]; [discriminate|].
  destruct (split_go_head (String "*" sep) r 0 ("" +:+ String "/" "")) as (x & rest & ->).
  exists x, rest. reflexivity.
Qed.

(** The loops never splice in front of the first part. *)
Lemma spliceLoop_head {C} (text : C -> list string) i : forall hd tl (captures : list C),
  exists tl', spliceLoop text i (hd :: tl) captures = hd :: tl'.
Proof.
  induction i as [|i IH]; intros hd tl captures; simpl; [eauto|].
  destruct (JS.pop captures) as [[capture rest]|]; [|eauto].
  unfold JS.splice. simpl. apply IH.
Qed.

Lemma join_empty_cons hd (tl : list string) : JS.join "" (hd :: tl) = hd +:+ JS.join "" tl.
Proof. destruct tl; [now rewrite append_nil_r | reflexivity]. Qed.

(** X15.  The result is rooted exactly when the destination pattern is:
    whatever the captures hold, a leading separator is neither lost nor
    gained. *)
Theorem buildPath_rooted (pattern : string) (captures : list Capture) :
  JS.startsWith (buildPath pattern captures) Path.sep = JS.startsWith pattern Path.sep.
Proof.
  unfold buildPath, Path.sep.
  set (joined := JS.join "" (starPhase _ _)).
  destruct (JS.startsWith pattern "/") eqn:Hp; simpl negb; cbv iota.
  - simpl andb. cbv iota.
    assert (Hj : JS.startsWith joined "/" = true).
    { unfold joined. destruct pattern as [|c r]; [discriminate|].
      rewrite startsWith_cons in Hp. apply Ascii.eqb_eq in Hp. subst c.
      destruct (split_star_rooted "*" r) as (x & rest & ->).
      rewrite globStarPhase_loop.
      destruct (spliceLoop_head globStarText (length (String "/" x :: rest) - 1)
                  (String "/" x) rest (globStarsCapturesOf captures)) as (tl & ->).
      rewrite join_empty_cons, append_cons.
      destruct (split_star_rooted "" (x +:+ JS.join "" tl)) as (y & rest' & ->).
      rewrite starPhase_loop.
      destruct (spliceLoop_head starText (length (String "/" y :: rest') - 1)
                  (String "/" y) rest' (starCapturesOf captures)) as (tl' & ->).
      rewrite join_empty_cons, append_cons. apply startsWith_cons. }
    destruct (normalize_absolute _ Hj) as (rest & -> & _). apply startsWith_cons.
  - destruct (JS.startsWith joined "/") eqn:Hj.
    + destruct (normalize_absolute _ Hj) as (rest & -> & Hrest).
      rewrite startsWith_cons. simpl. exact Hrest.
    + rewrite (normalize_relative _ Hj). simpl. exact (normalize_relative _ Hj).
Qed.

(** X15 on a relative pattern whose first wildcard captures nothing, and on
    a rooted one. *)
Lemma buildPath_rooted_witness :
  buildPath "**/lib/*.js" [SegmentRun []; Segment "a"] = "lib/a.js" /\
  JS.startsWith (buildPath "/opt/**/*.js" [SegmentRun ["x"]; Segment "a"]) "/" = true.
Proof.
  split; [reflexivity|].
  exact (buildPath_rooted "/opt/**/*.js" [SegmentRun ["x"]; Segment "a"]).
Defined.

End BuildPathMoreFacts.

(** ** More on archive assembly *)

Section GenerateMoreFacts.

Import Artifact.

Variable relative : string -> string -> string.
Variable walkReturns : list FileMapping.t -> PlatformInfo.t -> bool.

Local Abbreviation platformLoop := (Artifact.platformLoop relative walkReturns).
Local Abbreviation generate := (Artifact.generate relative walkReturns).

Lemma platformEvents_no_hook this d platform i :
  ~ In (ProcessArtifactMetadata i) (platformEvents this d platform).
Proof.
  unfold platformEvents. intros Hin. apply in_app_or in Hin. destruct Hin as [Hin|Hin].
  - destruct (idTemplateFor_events relative _ _ _ _ Hin) as (j & g & _ & Hj). discriminate.
  - destruct Hin as [Hin|[Hin|[Hin|[]]]]; discriminate.
Qed.

(** X16.  Every plugin that has the metadata hook is called once, in
    plugin order, before anything is done for a platform, also when a walk
    throws later on.  A completed run writes the metadata object as the hooks
    left it.  Its artifacts are those of the array the [artifacts] property
    refers to: when that is still the array [generate] pushes onto, what the
    hooks left in it followed by one item per platform; when a hook has
    assigned another array to the property, that array alone, without any
    item of the run. *)
Theorem generate_hooks_first (this : t) :
  exists rest,
    fst (generate this) = hookCallsFrom 0 (Project.plugins (project this)) ++ rest /\
    (forall i, ~ In (ProcessArtifactMetadata i) rest) /\
    (forall metadata,
        snd (generate this) = Some metadata ->
        ArtifactMetadata.name metadata = MetadataObject.name (hookedMetadata this) /\
        ArtifactMetadata.version metadata = MetadataObject.version (hookedMetadata this) /\
        ArtifactMetadata.extra metadata = MetadataObject.extra (hookedMetadata this) /\
        match MetadataObject.artifacts (hookedMetadata this) with
        | MetadataObject.TheLocalArray =>
            exists items,
              ArtifactMetadata.artifacts metadata
              = MetadataObject.localArray (hookedMetadata this) ++ items /\
              length items = length (Project.platforms (project this))
        | MetadataObject.AnotherArray others =>
            ArtifactMetadata.artifacts metadata = others
        end).
Proof.
  rewrite generate_unfold. cbv zeta. rewrite generate_hooked. cbn [fst snd].
  assert (Hno : forall i,
             ~ In (ProcessArtifactMetadata i)
                  (fst (platformLoop this (recordedPlugin this)
                          (Project.platforms (project this))))).
  { intros i Hin. apply platformLoop_events in Hin.
    destruct Hin as (platform & _ & Hin). exact (platformEvents_no_hook _ _ _ _ Hin). }
  destruct (snd (platformLoop this _ _)) as [items|] eqn:Hitems.
  - eexists. split; [reflexivity|]. split.
    + intros i Hin. apply in_app_or in Hin. destruct Hin as [Hin|[Hin|[]]];
        [exact (Hno i Hin) | discriminate].
    + intros metadata H. injection H as <-.
      unfold MetadataObject.written, MetadataObject.push. cbn.
      repeat split.
      destruct (MetadataObject.artifacts (hookedMetadata this)); [|reflexivity].
      exists items. split; [reflexivity|].
      destruct (platformLoop_items _ _ _ _ _ _ Hitems) as [-> _]. apply length_map.
  - eexists. split; [reflexivity|]. split; [exact Hno | discriminate].
Qed.

(** The platform loop up to the first walk that throws. *)
Lemma platformLoop_throws this d (before : list PlatformInfo.t) failing after :
  (forall platform, In platform before ->
                    walkReturns (activeMappings this platform) platform = true) ->
  walkReturns (activeMappings this failing) failing = false ->
  platformLoop this d (before ++ failing :: after)
  = (flat_map (platformEvents this d) before ++ throwingPlatformEvents this d failing, None).
Proof.
  intros Hbefore Hfail. induction before as [|platform rest IH].
  - simpl app. rewrite platformLoop_cons, Hfail. reflexivity.
  - change ((platform :: rest) ++ failing :: after)
      with (platform :: (rest ++ failing :: after)).
    rewrite platformLoop_cons, (Hbefore platform (or_introl eq_refl)).
    rewrite IH by (intros p Hp; apply Hbefore; now right).
    simpl. now rewrite <- app_assoc.
Qed.

(** X17.  A walk that throws ends the run there: the platforms before it
    have their archives written, nothing is written for the platform that
    throws nor done for the platforms after it, and no metadata file is
    written. *)
Theorem generate_stops_at_throwing_walk
        (this : t) (before after : list PlatformInfo.t) (failing : PlatformInfo.t) :
  Project.platforms (project this) = before ++ failing :: after ->
  (forall platform, In platform before ->
                    walkReturns (activeMappings this platform) platform = true) ->
  walkReturns (activeMappings this failing) failing = false ->
  snd (generate this) = None /\
  fst (generate this)
  = hookCallsFrom 0 (Project.plugins (project this))
    ++ flat_map (platformEvents this (recordedPlugin this)) before
    ++ throwingPlatformEvents this (recordedPlugin this) failing /\
  archivesOf (fst (generate this)) = map (archivePath this (recordedPlugin this)) before /\
  (forall path, ~ In (WriteMetadata path) (fst (generate this))).
Proof.
  intros Hplatforms Hbefore Hfail.
  assert (Htrace : generate this
                   = (hookCallsFrom 0 (Project.plugins (project this))
                      ++ flat_map (platformEvents this (recordedPlugin this)) before
                      ++ throwingPlatformEvents this (recordedPlugin this) failing, None)).
  { rewrite generate_unfold. cbv zeta. rewrite generate_hooked, Hplatforms.
    rewrite (platformLoop_throws _ _ _ _ _ Hbefore Hfail). reflexivity. }
  rewrite Htrace. cbn [fst snd].
  split; [reflexivity|]. split; [reflexivity|]. split.
  - rewrite !archivesOf_app, archivesOf_hookCalls, (archivesOf_flat_map relative).
    unfold throwingPlatformEvents. rewrite archivesOf_app, (archivesOf_idTemplate relative).
    simpl. now rewrite app_nil_r.
  - intros path Hin.
    assert (Hg : In (WriteMetadata path) (fst (generate this)))
      by (rewrite Htrace; exact Hin).
    clear Hin. rewrite generate_unfold in Hg. cbv zeta in Hg.
    rewrite Hplatforms, (platformLoop_throws _ _ _ _ _ Hbefore Hfail) in Hg.
    cbn [fst snd] in Hg. apply in_app_or in Hg. destruct Hg as [Hg|Hg].
    + destruct (pluginLoop_events _ _ _ _ _ Hg) as [i Hi]. discriminate.
    + apply in_app_or in Hg. destruct Hg as [Hg|Hg].
      * apply in_flat_map in Hg. destruct Hg as (platform & _ & Hg).
        unfold platformEvents in Hg. apply in_app_or in Hg. destruct Hg as [Hg|Hg].
        -- destruct (idTemplateFor_events relative _ _ _ _ Hg) as (i & g & _ & Hi).
           discriminate.
        -- destruct Hg as [Hg|[Hg|[Hg|[]]]]; discriminate.
      * unfold throwingPlatformEvents in Hg. apply in_app_or in Hg.
        destruct Hg as [Hg|Hg].
        -- destruct (idTemplateFor_events relative _ _ _ _ Hg) as (i & g & _ & Hi).
           discriminate.
        -- destruct Hg as [Hg|[Hg|[]]]; discriminate.
Qed.

Lemma platformLoop_some this d (platforms : list PlatformInfo.t) : forall items,
  snd (platformLoop this d platforms) = Some items ->
  forall platform, In platform platforms ->
                   walkReturns (activeMappings this platform) platform = true.
Proof.
  induction platforms as [|p rest IH]; intros items H platform Hin; [destruct Hin|].
  rewrite platformLoop_cons in H.
  destruct (walkReturns (activeMappings this p) p) eqn:Hp; [|discriminate].
  destruct Hin as [<-|Hin]; [exact Hp|].
  simpl in H. destruct (snd (platformLoop this d rest)) as [items'|] eqn:Hr; [|discriminate].
  exact (IH _ eq_refl _ Hin).
Qed.

Lemma generate_completed_walks this metadata :
  snd (generate this) = Some metadata ->
  forall platform, In platform (Project.platforms (project this)) ->
                   walkReturns (activeMappings this platform) platform = true.
Proof.
  rewrite generate_unfold. cbv zeta. intros H.
  destruct (snd (platformLoop this _ _)) as [items|] eqn:Hitems; [|discriminate].
  exact (platformLoop_some _ _ _ _ Hitems).
Qed.

(** X18.  A completed run has called the hooks, then served every
    platform in order, writing one archive for each, and then written the
    metadata file [distDir/name.json].  It has pushed one item per platform
    onto its array: the item names the platform when the project is
    platform-specified, and its path is the path of the archive written for
    the platform, [distDir/id.zip], relative to [distDir].  The items are part
    of the metadata written when the [artifacts] property of the metadata
    object is still that array after the hooks. *)
Theorem generate_completed_run (this : t) (metadata : ArtifactMetadata.t) :
  snd (generate this) = Some metadata ->
  fst (generate this)
  = hookCallsFrom 0 (Project.plugins (project this))
    ++ flat_map (platformEvents this (recordedPlugin this))
                (Project.platforms (project this))
    ++ [WriteMetadata (Path.join [Project.distDir (project this);
                                  Project.name (project this) +:+ ".json"])] /\
  exists items,
    metadata = MetadataObject.written (MetadataObject.push (hookedMetadata this) items) /\
    (MetadataObject.artifacts (hookedMetadata this) = MetadataObject.TheLocalArray ->
     ArtifactMetadata.artifacts metadata
     = MetadataObject.localArray (hookedMetadata this) ++ items) /\
    Forall2
      (fun archive item =>
         archive = Path.join [Project.distDir (project this);
                              ArtifactMetadataItem.id item +:+ ".zip"] /\
         ArtifactMetadataItem.path item
         = relative (Project.distDir (project this)) archive)
      (archivesOf (fst (generate this))) items /\
    Forall2
      (fun platform item =>
         ArtifactMetadataItem.platform item
         = if Project.platformSpecified (project this)
           then Some (PlatformInfo.name platform) else None)
      (Project.platforms (project this)) items.
Proof.
  intros H.
  rewrite generate_unfold in *. cbv zeta in *.
  rewrite generate_hooked in *. cbn [fst snd] in *.
  destruct (snd (platformLoop this _ _)) as [items|] eqn:Hitems; [|discriminate].
  destruct (platformLoop_items _ _ _ _ _ _ Hitems) as [-> Hevents].
  injection H as <-. cbn [fst]. rewrite Hevents.
  split; [reflexivity|].
  eexists. split; [reflexivity|]. split.
  { intros Hlocal. unfold MetadataObject.written, MetadataObject.push.
    cbn [ArtifactMetadata.artifacts MetadataObject.artifacts MetadataObject.localArray].
    now rewrite Hlocal. }
  rewrite !archivesOf_app, archivesOf_hookCalls, (archivesOf_flat_map relative).
  simpl. rewrite app_nil_r. split.
  - apply Forall2_fmap, Forall_Forall2_diag, Forall_forall.
    intros platform _. split; reflexivity.
  - apply Forall2_fmap_r, Forall_Forall2_diag, Forall_forall.
    intros platform _. reflexivity.
Qed.

End GenerateMoreFacts.

Section GenerateMoreRuns.

Import Artifact.

Local Abbreviation run := (Artifact.generate exampleRelative exampleWalk).

(** X16 on the example with three plugins, of which the second has the
    hook; and with a plugin whose hook assigns another array to
    [metadata.artifacts]: no item of the run is written. *)
Lemma generate_hooks_first_witness :
  (exists rest,
      fst (run (exampleArtifact true [pluginA; pluginB; pluginC]))
      = [ProcessArtifactMetadata 1] ++ rest /\
      forall i, ~ In (ProcessArtifactMetadata i) rest) /\
  (forall metadata,
      snd (run (exampleArtifact true [pluginReplacing])) = Some metadata ->
      ArtifactMetadata.artifacts metadata = []).
Proof.
  split.
  - destruct (generate_hooks_first exampleRelative exampleWalk
                (exampleArtifact true [pluginA; pluginB; pluginC]))
      as (rest & Htrace & Hno & _).
    exists rest. split; [exact Htrace | exact Hno].
  - intros metadata H.
    destruct (generate_hooks_first exampleRelative exampleWalk
                (exampleArtifact true [pluginReplacing]))
      as (rest & _ & _ & Hmetadata).
    exact (proj2 (proj2 (proj2 (Hmetadata metadata H)))).
Defined.

(** X17 on the example, with a walk that throws for the second platform. *)
Lemma generate_stops_at_throwing_walk_witness :
  let this := exampleArtifact true [] in
  snd (Artifact.generate exampleRelative throwsOnWin32 this) = None /\
  archivesOf (fst (Artifact.generate exampleRelative throwsOnWin32 this))
  = ["dist/app-linux.zip"].
Proof.
  intros this.
  destruct (generate_stops_at_throwing_walk exampleRelative throwsOnWin32 this
              [linux] [] win32 eq_refl) as (Hnone & _ & Harchives & _).
  - intros platform [<-|[]]. reflexivity.
  - reflexivity.
  - split; [exact Hnone|]. rewrite Harchives. vm_compute. reflexivity.
Defined.

(** X18 on the example. *)
Lemma generate_completed_run_witness :
  exists metadata,
    snd (run (exampleArtifact true [])) = Some metadata /\
    map ArtifactMetadataItem.platform (ArtifactMetadata.artifacts metadata)
    = [Some "linux"; Some "win32"] /\
    archivesOf (fst (run (exampleArtifact true [])))
    = map (fun item => Path.join ["dist"; ArtifactMetadataItem.id item +:+ ".zip"])
          (ArtifactMetadata.artifacts metadata).
Proof.
  destruct (snd (run (exampleArtifact true []))) as [metadata|] eqn:H;
    [|vm_compute in H; discriminate].
  exists metadata. split; [reflexivity|].
  destruct (generate_completed_run exampleRelative exampleWalk _ _ H)
    as (_ & items & _ & Hlocal & Harchives & _).
  specialize (Hlocal eq_refl). simpl in Hlocal. rewrite Hlocal. split.
  - subst items. vm_compute in H. injection H as <-. reflexivity.
  - clear -Harchives. induction Harchives as [|archive item archives items [-> _] _ IH];
      [reflexivity|]. simpl. now rewrite IH.
Defined.

End GenerateMoreRuns.

(** ** Base directories and the walk *)

Section WalkFacts.

Import Artifact.

Lemma whenTruthy_some (o : option string) s :
  whenTruthy o = Some s <-> o = Some s /\ s <> "".
Proof.
  unfold whenTruthy. destruct o as [x|]; [|split; [discriminate | intros [H _]; discriminate]].
  destruct (JS.truthy x) eqn:Ht.
  - apply truthy_true in Ht. split.
    + intros H. injection H as <-. auto.
    + intros [H _]. exact H.
  - apply truthy_false in Ht. subst x. split; [discriminate|].
    intros [H Hne]. injection H as <-. congruence.
Qed.

Lemma whenTruthy_none (o : option string) : whenTruthy o = None <-> falsy o.
Proof.
  unfold whenTruthy, falsy. destruct o as [x|]; [|tauto].
  destruct (JS.truthy x) eqn:Ht.
  - apply truthy_true in Ht. split; [discriminate|]. intros [H|H]; congruence.
  - apply truthy_false in Ht. subst x. tauto.
Qed.

(** X19.  For a mapping of a dependency package: in a platform-specified
    project a non-empty platform-specific entry of the dependency table is
    used, whatever the generic entry holds; in a project that is not
    platform-specified the platform plays no part; and the lookup fails
    exactly when the generic entry is missing or empty and the
    platform-specific one is missing, empty or not consulted. *)
Theorem resolveBaseDir_dependency
        (env : Surroundings) (this : t) (mapping : FileMapping.t)
        (platform packageName : string) :
  FileMapping.package mapping = Some packageName -> packageName <> "" ->
  (Project.platformSpecified (project this) = true ->
   forall specific,
     dependencyDirMap env !! platformKey packageName platform = Some specific ->
     specific <> "" ->
     resolveBaseDir env this mapping platform
     = match whenTruthy (FileMapping.baseDir mapping) with
       | Some mappingBaseDir => Resolved (Path.resolve (cwd env) [specific; mappingBaseDir])
       | None => Resolved specific
       end) /\
  (Project.platformSpecified (project this) = false ->
   forall platform',
     resolveBaseDir env this mapping platform' = resolveBaseDir env this mapping platform) /\
  (forall missing,
      resolveBaseDir env this mapping platform = DependencyNotFound missing <->
      missing = packageName /\
      falsy (dependencyDirMap env !! packageName) /\
      (Project.platformSpecified (project this) = true ->
       falsy (dependencyDirMap env !! platformKey packageName platform))).
Proof.
  intros Hpkg Hne.
  assert (Hw : whenTruthy (FileMapping.package mapping) = Some packageName)
    by (apply whenTruthy_some; auto).
  unfold resolveBaseDir, platformKey. rewrite Hw.
  split; [|split].
  - intros Hs specific Hl Hsne. rewrite Hs, Hl.
    assert (E : whenTruthy (Some specific) = Some specific) by (apply whenTruthy_some; auto).
    rewrite E, E. reflexivity.
  - intros Hs platform'. rewrite Hs. reflexivity.
  - intros missing.
    destruct (Project.platformSpecified (project this)).
    + destruct (whenTruthy (dependencyDirMap env !! (packageName +:+ String (ascii_of_nat 9) platform)))
        as [d|] eqn:Hd.
      * pose proof Hd as Hd'. apply whenTruthy_some in Hd'. destruct Hd' as [Hl Hdne].
        assert (E : whenTruthy (Some d) = Some d) by (apply whenTruthy_some; auto).
        rewrite E. split.
        -- destruct (whenTruthy (FileMapping.baseDir mapping)); discriminate.
        -- intros (_ & _ & Hf). specialize (Hf eq_refl). apply whenTruthy_none in Hf.
           congruence.
      * apply whenTruthy_none in Hd.
        destruct (whenTruthy (dependencyDirMap env !! packageName)) as [g|] eqn:Hg.
        -- split.
           ++ destruct (whenTruthy (FileMapping.baseDir mapping)); discriminate.
           ++ intros (_ & Hf & _). apply whenTruthy_none in Hf. congruence.
        -- apply whenTruthy_none in Hg. split.
           ++ intros H. injection H as <-. auto.
           ++ intros (-> & _). reflexivity.
    + destruct (whenTruthy (dependencyDirMap env !! packageName)) as [g|] eqn:Hg.
      * split.
        -- destruct (whenTruthy (FileMapping.baseDir mapping)); discriminate.
        -- intros (_ & Hf & _). apply whenTruthy_none in Hf. congruence.
      * apply whenTruthy_none in Hg. split.
        -- intros H. injection H as <-. split; [reflexivity|]. split; [exact Hg | discriminate].
        -- intros (-> & _). reflexivity.
Qed.

(** X19 on a table with a generic and a [linux] entry for one package. *)
Lemma resolveBaseDir_dependency_witness :
  resolveBaseDir exampleEnv (exampleArtifact true []) sdk "linux" = Resolved "deps/sdk-linux" /\
  resolveBaseDir exampleEnv (exampleArtifact false []) sdk "linux"
  = resolveBaseDir exampleEnv (exampleArtifact false []) sdk "win32".
Proof.
  destruct (resolveBaseDir_dependency exampleEnv (exampleArtifact true []) sdk "linux" "sdk"
              eq_refl ltac:(discriminate)) as (Hspecific & _ & _).
  destruct (resolveBaseDir_dependency exampleEnv (exampleArtifact false []) sdk "win32" "sdk"
              eq_refl ltac:(discriminate)) as (_ & Hgeneric & _).
  split.
  - exact (Hspecific eq_refl "deps/sdk-linux" eq_refl ltac:(discriminate)).
  - exact (Hgeneric eq_refl "linux").
Defined.

(** *** Project-local mappings *)

Lemma startsWith_nonempty s : JS.startsWith s "/" = true -> s <> "".
Proof. intros H ->. discriminate. Qed.

Lemma resolveLoop_reaches_cwd (paths : list string) cwd : forall resolvedPath,
  JS.startsWith cwd "/" = true ->
  snd (Path.resolveLoop (paths ++ [cwd]) resolvedPath) = true.
Proof.
  intros resolvedPath Hcwd. revert resolvedPath.
  induction paths as [|path rest IH]; intros resolvedPath; simpl.
  - destruct (String.eqb_spec cwd "") as [->|_]; [discriminate|]. now rewrite Hcwd.
  - destruct (String.eqb path ""); [apply IH|].
    destruct (JS.startsWith path "/"); [reflexivity | apply IH].
Qed.

(** Resolving against an absolute working directory gives an absolute
    path. *)
Lemma resolve_absolute cwd (args : list string) :
  JS.startsWith cwd "/" = true -> JS.startsWith (Path.resolve cwd args) "/" = true.
Proof.
  intros Hcwd. unfold Path.resolve.
  pose proof (resolveLoop_reaches_cwd (rev args) cwd "" Hcwd) as H.
  destruct (Path.resolveLoop (rev args ++ [cwd]) "") as [resolvedPath absolute].
  simpl in H. subst absolute.
  rewrite append_cons. apply startsWith_cons.
Qed.

(** An absolute last argument makes everything before it irrelevant. *)
Lemma resolve_last_absolute cwd (init : list string) last :
  JS.startsWith last "/" = true ->
  Path.resolve cwd (init ++ [last]) = Path.resolve "/" [last].
Proof.
  intros H. unfold Path.resolve. rewrite rev_app_distr. simpl.
  destruct (String.eqb_spec last "") as [->|_]; [discriminate|].
  now rewrite H.
Qed.

(** X20.  A mapping that names no dependency package always has a base
    directory: it is resolved from the project directory, the artifact's
    [baseDir] and the mapping's [baseDir], does not depend on the platform,
    and is absolute when the working directory is.  An absolute [baseDir] of
    the mapping stands for itself: the project directory, the artifact's
    [baseDir] and the working directory no longer matter. *)
Theorem resolveBaseDir_local
        (env : Surroundings) (this : t) (mapping : FileMapping.t) (platform : string) :
  falsy (FileMapping.package mapping) ->
  (exists baseDir,
      resolveBaseDir env this mapping platform = Resolved baseDir /\
      (JS.startsWith (cwd env) "/" = true -> JS.startsWith baseDir "/" = true)) /\
  (forall platform',
      resolveBaseDir env this mapping platform' = resolveBaseDir env this mapping platform) /\
  (forall mappingBaseDir,
      FileMapping.baseDir mapping = Some mappingBaseDir ->
      JS.startsWith mappingBaseDir "/" = true ->
      resolveBaseDir env this mapping platform
      = Resolved (Path.resolve "/" [mappingBaseDir])).
Proof.
  intros Hpkg. apply whenTruthy_none in Hpkg.
  unfold resolveBaseDir. rewrite Hpkg. split; [|split].
  - eexists. split; [reflexivity|]. apply resolve_absolute.
  - reflexivity.
  - intros b Hb Habs.
    assert (E : whenTruthy (FileMapping.baseDir mapping) = Some b).
    { apply whenTruthy_some. split; [exact Hb | now apply startsWith_nonempty]. }
    rewrite E, app_assoc. f_equal. now apply resolve_last_absolute.
Qed.

(** X20 on a mapping with a relative and one with an absolute [baseDir]. *)
Lemma resolveBaseDir_local_witness :
  let env := mkSurroundings "/work" "app" ∅ (fun _ _ => []) in
  resolveBaseDir env (exampleArtifact true [])
    (FileMapping.mk None (Some "out/../bin") "*" "*" None) "linux"
  = Resolved "/work/app/bin" /\
  resolveBaseDir env (exampleArtifact true [])
    (FileMapping.mk None (Some "/opt/tools/") "*" "*" None) "linux"
  = Resolved "/opt/tools".
Proof.
  intros env. split; [reflexivity|].
  exact (proj2 (proj2 (resolveBaseDir_local env (exampleArtifact true [])
                         (FileMapping.mk None (Some "/opt/tools/") "*" "*" None) "linux"
                         (or_introl eq_refl)))
           "/opt/tools/" eq_refl eq_refl).
Defined.

(** *** The walk *)

Lemma walk_cons env this mapping (rest : list FileMapping.t) platform :
  walk env this (mapping :: rest) platform =
    match snd (walk env this [mapping] platform) with
    | Some missing => ([], Some missing)
    | None =>
        (fst (walk env this [mapping] platform) ++ fst (walk env this rest platform),
         snd (walk env this rest platform))
    end.
Proof.
  simpl.
  destruct (resolveBaseDir env this mapping (PlatformInfo.name platform)); [|reflexivity].
  destruct (walk env this rest platform) as [entries thrown]. simpl.
  now rewrite app_nil_r.
Qed.

Lemma walk_single env this mapping platform :
  snd (walk env this [mapping] platform) =
    match resolveBaseDir env this mapping (PlatformInfo.name platform) with
    | Resolved _ => None
    | DependencyNotFound missing => Some missing
    end.
Proof.
  simpl. now destruct (resolveBaseDir env this mapping (PlatformInfo.name platform)).
Qed.

Lemma walk_app_eq env this (ms1 ms2 : list FileMapping.t) platform :
  walk env this (ms1 ++ ms2) platform =
    match snd (walk env this ms1 platform) with
    | Some _ => walk env this ms1 platform
    | None =>
        (fst (walk env this ms1 platform) ++ fst (walk env this ms2 platform),
         snd (walk env this ms2 platform))
    end.
Proof.
  induction ms1 as [|mapping rest IH].
  - simpl. now destruct (walk env this ms2 platform).
  - rewrite <- app_comm_cons, (walk_cons env this mapping (rest ++ ms2)),
      (walk_cons env this mapping rest), IH.
    destruct (snd (walk env this [mapping] platform)) as [missing|]; [reflexivity|].
    cbn [fst snd].
    destruct (snd (walk env this rest platform)) as [missing|] eqn:Hrest.
    + cbn [fst snd]. now rewrite Hrest.
    + cbn [fst snd]. now rewrite app_assoc.
Qed.

Lemma walk_returns_iff env this (ms : list FileMapping.t) platform :
  snd (walk env this ms platform) = None <->
  (forall mapping, In mapping ms ->
     forall missing,
       resolveBaseDir env this mapping (PlatformInfo.name platform)
       <> DependencyNotFound missing).
Proof.
  induction ms as [|mapping rest IH].
  - simpl. split; [intros _ ? [] | reflexivity].
  - rewrite walk_cons. pose proof (walk_single env this mapping platform) as Hhead.
    destruct (snd (walk env this [mapping] platform)) as [missing|].
    + split; [discriminate|]. intros Hall. exfalso.
      destruct (resolveBaseDir env this mapping (PlatformInfo.name platform)) eqn:E;
        [discriminate|].
      injection Hhead as ->. exact (Hall mapping (or_introl eq_refl) _ E).
    + cbn [snd]. rewrite IH. split.
      * intros Hrest m [<-|Hin] missing; [|now apply Hrest].
        intros E. rewrite E in Hhead. discriminate.
      * intros Hall m Hin. apply Hall. now right.
Qed.

(** X21.  Walking [ms1 ++ ms2] is walking [ms1] and then [ms2]: the files are
    handed to the archiver in the order of the mappings.  When a dependency
    of [ms1] is not found the walk stops there: the files of the mappings
    before it have been handed over, and no mapping of [ms2] is looked at. *)
Theorem walk_appended (env : Surroundings) (this : t) (ms1 ms2 : list FileMapping.t)
        (platform : PlatformInfo.t) :
  walk env this (ms1 ++ ms2) platform =
    match snd (walk env this ms1 platform) with
    | Some _ => walk env this ms1 platform
    | None =>
        (fst (walk env this ms1 platform) ++ fst (walk env this ms2 platform),
         snd (walk env this ms2 platform))
    end.
Proof. apply walk_app_eq. Qed.

(** X22.  A mapping whose dependency is not found makes the walk throw:
    the files of the mappings before it have been handed to the archiver, and
    the mappings after it are not looked at.  So no walk returns over such a
    mapping, and a run of [generate] that walks one for some platform does
    not complete: no metadata file is written. *)
Theorem generate_stops_at_missing_dependency
        (relative : string -> string -> string) (env : Surroundings) (this : t)
        (mapping : FileMapping.t) (platform : PlatformInfo.t) (missing : string) :
  resolveBaseDir env this mapping (PlatformInfo.name platform) = DependencyNotFound missing ->
  (forall before after,
      snd (walk env this before platform) = None ->
      walk env this (before ++ mapping :: after) platform
      = (fst (walk env this before platform), Some missing)) /\
  (forall ms, In mapping ms -> walkReturns env this ms platform = false) /\
  (In platform (Project.platforms (project this)) ->
   In mapping (mappings this) ->
   isActiveOn platform mapping = true ->
   snd (generate relative (walkReturns env this) this) = None).
Proof.
  intros Hmissing.
  assert (Hwalk : forall ms, In mapping ms -> walkReturns env this ms platform = false).
  { intros ms Hin. unfold walkReturns.
    destruct (snd (walk env this ms platform)) as [|] eqn:Hs; [reflexivity|].
    exfalso. exact (proj1 (walk_returns_iff env this ms platform) Hs mapping Hin _ Hmissing). }
  split; [|split].
  - intros before after Hbefore.
    rewrite walk_app_eq, Hbefore, (walk_cons env this mapping after), walk_single, Hmissing.
    cbn [fst snd]. now rewrite app_nil_r.
  - exact Hwalk.
  - intros Hp Hm Hactive.
    destruct (snd (generate relative (walkReturns env this) this)) as [metadata|] eqn:Hrun;
      [|reflexivity].
    exfalso.
    pose proof (generate_completed_walks relative (walkReturns env this) this metadata Hrun
                  platform Hp) as Hreturns.
    rewrite (Hwalk (activeMappings this platform)) in Hreturns; [discriminate|].
    unfold activeMappings. apply filter_In. now split.
Qed.

(** X22 on the example with a mapping of a package that is not in the
    dependency table, after a mapping that resolves. *)
Lemma generate_stops_at_missing_dependency_witness :
  walk exampleEnv (exampleArtifact true []) [readme; gone; sdk] linux
  = ([mkEntry "/work/app/README.md" "README.md"], Some "gone") /\
  walkReturns exampleEnv (exampleArtifact true []) [readme; gone; sdk] linux = false.
Proof.
  destruct (generate_stops_at_missing_dependency exampleRelative exampleEnv
              (exampleArtifact true []) gone linux "gone" eq_refl) as (Hwalk & Hreturns & _).
  split.
  - exact (Hwalk [readme] [sdk] eq_refl).
  - apply Hreturns. right. now left.
Defined.

End WalkFacts.
